(** * mm.c: explicit free list allocator with boundary tags

    A shallow embedding of [src/mm.c] and the properties of its
    specification.

    Target model.  The source reads and writes block tags through
    [size_t *] and list links through [void **], at addresses four bytes
    apart ([WSIZE = 4]); its header comment draws a 32-bit tag.  The
    embedding therefore fixes the ILP32 target the allocator was written
    for: [size_t] and pointers are 32 bits wide, unsigned arithmetic wraps
    modulo [2^32], memory is a flat little-endian byte store. *)

From Stdlib Require Import ZArith Lia List Bool.
From stdpp Require Import base option gmap.

Local Open Scope Z_scope.

(** ** Machine words *)

Definition WORD : Z := 4294967296.

(** Result of a [size_t] or pointer operation: reduced modulo [2^32]. *)
Definition w32 (z : Z) : Z := z mod WORD.

Definition NULL : Z := 0.

(** [(void * )-1], the failure value of [mem_sbrk]. *)
Definition SBRK_FAIL : Z := WORD - 1.

(** ** Basic constants and macros *)

Definition WSIZE : Z := 4.
Definition DSIZE : Z := 8.
Definition CHUNKSIZE : Z := 32.
Definition OVERHEAD : Z := 32.

Definition MAX (x y : Z) : Z := if x >? y then x else y.

Definition PACK (size alloc : Z) : Z := Z.lor size alloc.

(** The mask [~0x7] converted to [size_t]. *)
Definition SIZE_MASK : Z := WORD - 8.

(** ** Byte-addressed memory *)

(** A byte read; absent addresses read as zero, and a byte is always in
    [0, 256). *)
Definition load8 (m : gmap Z Z) (a : Z) : Z := default 0 (m !! a) mod 256.

(** A byte write.  The memory is total: an access at an address outside
    the arena, where the process may fault, is not told apart from one
    inside it. *)
Definition store8 (m : gmap Z Z) (a v : Z) : gmap Z Z := <[a := v mod 256]> m.

(** [GET(p)]: a little-endian 32-bit load. *)
Definition load32 (m : gmap Z Z) (p : Z) : Z :=
  load8 m p + 256 * load8 m (p + 1) + 65536 * load8 m (p + 2)
  + 16777216 * load8 m (p + 3).

(** [PUT(p, val)]: a little-endian 32-bit store. *)
Definition store32 (m : gmap Z Z) (p v : Z) : gmap Z Z :=
  store8 (store8 (store8 (store8 m p v) (p + 1) (v / 256))
            (p + 2) (v / 65536)) (p + 3) (v / 16777216).

(** ** Allocator state

    The two globals of [mm.c] together with the state of the raw heap
    provider ([memlib]): the arena bytes, its first address, its current
    break and its limit. *)

Record heap : Type := mkHeap {
  mem : gmap Z Z;
  mem_start_brk : Z;
  mem_brk : Z;
  mem_max_addr : Z;
  heap_listp : Z;
  free_listp : Z
}.

Definition set_mem (h : heap) (m : gmap Z Z) : heap :=
  mkHeap m (mem_start_brk h) (mem_brk h) (mem_max_addr h)
         (heap_listp h) (free_listp h).

Definition set_brk (h : heap) (b : Z) : heap :=
  mkHeap (mem h) (mem_start_brk h) b (mem_max_addr h)
         (heap_listp h) (free_listp h).

Definition set_heap_listp (h : heap) (p : Z) : heap :=
  mkHeap (mem h) (mem_start_brk h) (mem_brk h) (mem_max_addr h)
         p (free_listp h).

Definition set_free_listp (h : heap) (p : Z) : heap :=
  mkHeap (mem h) (mem_start_brk h) (mem_brk h) (mem_max_addr h)
         (heap_listp h) p.

Definition GET (h : heap) (p : Z) : Z := load32 (mem h) p.
Definition PUT (h : heap) (p v : Z) : heap := set_mem h (store32 (mem h) p v).

Definition GET_SIZE (h : heap) (p : Z) : Z := Z.land (GET h p) SIZE_MASK.
Definition GET_ALLOC (h : heap) (p : Z) : Z := Z.land (GET h p) 1.

Definition HDRP (bp : Z) : Z := w32 (bp - WSIZE).
Definition FTRP (h : heap) (bp : Z) : Z :=
  w32 (bp + GET_SIZE h (HDRP bp) - DSIZE).

Definition NEXT_BLKP (h : heap) (bp : Z) : Z :=
  w32 (bp + GET_SIZE h (w32 (bp - WSIZE))).
Definition PREV_BLKP (h : heap) (bp : Z) : Z :=
  w32 (bp - GET_SIZE h (w32 (bp - DSIZE))).

(** The link fields of a free block: [NEXT_FREE(bp)] is the pointer stored
    at [bp + 2*WSIZE], [PREV_FREE(bp)] the pointer stored at [bp]. *)
Definition NEXT_FREE (h : heap) (bp : Z) : Z := GET h (w32 (bp + 2 * WSIZE)).
Definition PREV_FREE (h : heap) (bp : Z) : Z := GET h bp.
Definition set_NEXT_FREE (h : heap) (bp v : Z) : heap :=
  PUT h (w32 (bp + 2 * WSIZE)) v.
Definition set_PREV_FREE (h : heap) (bp v : Z) : heap := PUT h bp v.

(** ** Raw heap provider *)

(** Modelled from the spec: the raw heap-growth primitive of [memlib]
    ([mem_sbrk], declared in [memlib.h], not part of [mm.c]).  It "extends
    the process's contiguous address range and returns a pointer to new raw
    bytes" and "failure returns a sentinel".  The request fails when the
    arena limit would be exceeded; the sentinel is [(void * )-1], the value
    [extend_heap] tests for. *)
Definition mem_sbrk (h : heap) (incr : Z) : Z * heap :=
  if mem_brk h + incr >? mem_max_addr h then (SBRK_FAIL, h)
  else (mem_brk h, set_brk h (mem_brk h + incr)).

(** Modelled from the spec: the "read-only heap-bounds accessors
    ([lowest_address()], [highest_address()])" of the provider. *)
Definition mem_heap_lo (h : heap) : Z := mem_start_brk h.
Definition mem_heap_hi (h : heap) : Z := mem_brk h - 1.

(** ** Free list manager *)

(** [freelist(bp)]: push [bp] at the head of the free list. *)
Definition freelist (h : heap) (bp : Z) : heap :=
  let h := set_NEXT_FREE h bp (free_listp h) in
  let h := set_PREV_FREE h (free_listp h) bp in
  let h := set_PREV_FREE h bp NULL in
  set_free_listp h bp.

(** [delete_block(bp)]: unlink [bp] from the free list. *)
Definition delete_block (h : heap) (bp : Z) : heap :=
  let h :=
    if PREV_FREE h bp =? NULL then set_free_listp h (NEXT_FREE h bp)
    else set_NEXT_FREE h (PREV_FREE h bp) (NEXT_FREE h bp) in
  set_PREV_FREE h (NEXT_FREE h bp) (PREV_FREE h bp).

(** ** Coalescer *)

Definition prev_alloc (h : heap) (bp : Z) : bool :=
  negb (GET_ALLOC h (FTRP h (PREV_BLKP h bp)) =? 0) || (PREV_BLKP h bp =? bp).

Definition next_alloc (h : heap) (bp : Z) : bool :=
  negb (GET_ALLOC h (HDRP (NEXT_BLKP h bp)) =? 0).

(** [coalesce(bp)]: returns the resulting block pointer and the new state. *)
Definition coalesce (h : heap) (bp : Z) : Z * heap :=
  let size := GET_SIZE h (HDRP bp) in
  match prev_alloc h bp, next_alloc h bp with
  | true, true =>                                   (* Case 1 *)
      (bp, freelist h bp)
  | true, false =>                                  (* Case 2 *)
      let size := w32 (size + GET_SIZE h (HDRP (NEXT_BLKP h bp))) in
      let h := delete_block h (NEXT_BLKP h bp) in
      let h := PUT h (HDRP bp) (PACK size 0) in
      let h := PUT h (FTRP h bp) (PACK size 0) in
      (bp, freelist h bp)
  | false, true =>                                  (* Case 3 *)
      let size := w32 (size + GET_SIZE h (HDRP (PREV_BLKP h bp))) in
      let bp := PREV_BLKP h bp in
      let h := delete_block h bp in
      let h := PUT h (HDRP bp) (PACK size 0) in
      let h := PUT h (FTRP h bp) (PACK size 0) in
      (bp, freelist h bp)
  | false, false =>                                 (* Case 4 *)
      let size := w32 (size + w32 (GET_SIZE h (HDRP (PREV_BLKP h bp))
                                   + GET_SIZE h (HDRP (NEXT_BLKP h bp)))) in
      let h := delete_block h (PREV_BLKP h bp) in
      let h := delete_block h (NEXT_BLKP h bp) in
      let bp := PREV_BLKP h bp in
      let h := PUT h (HDRP bp) (PACK size 0) in
      let h := PUT h (FTRP h bp) (PACK size 0) in
      (bp, freelist h bp)
  end.

(** ** Placement and fit finder *)

(** [place(bp, asize)]. *)
Definition place (h : heap) (bp asize : Z) : heap :=
  let csize := GET_SIZE h (HDRP bp) in
  if w32 (csize - asize) >=? OVERHEAD then
    let h := PUT h (HDRP bp) (PACK asize 1) in
    let h := PUT h (FTRP h bp) (PACK asize 1) in
    let h := delete_block h bp in
    let bp := NEXT_BLKP h bp in
    let h := PUT h (HDRP bp) (PACK (w32 (csize - asize)) 0) in
    let h := PUT h (FTRP h bp) (PACK (w32 (csize - asize)) 0) in
    snd (coalesce h bp)
  else
    let h := PUT h (HDRP bp) (PACK csize 1) in
    let h := PUT h (FTRP h bp) (PACK csize 1) in
    delete_block h bp.

(** The loop of [find_fit], started at [bp].  [None]: the fuel ran out
    before the loop ended; [Some NULL]: no fit. *)
Fixpoint find_fit_from (fuel : nat) (h : heap) (asize bp : Z) : option Z :=
  match fuel with
  | O => None
  | S fuel =>
      if GET_ALLOC h (HDRP bp) =? 0 then
        if asize <=? GET_SIZE h (HDRP bp) then Some bp
        else find_fit_from fuel h asize (NEXT_FREE h bp)
      else Some NULL
  end.

Definition find_fit (fuel : nat) (h : heap) (asize : Z) : option Z :=
  find_fit_from fuel h asize (free_listp h).

(** ** Heap manager *)

(** [extend_heap(words)]. *)
Definition extend_heap (h : heap) (words : Z) : Z * heap :=
  let size :=
    if words mod 2 =? 0 then w32 (words * WSIZE)
    else w32 (w32 (words + 1) * WSIZE) in
  let '(bp, h) := mem_sbrk h size in
  if bp =? SBRK_FAIL then (NULL, h)
  else
    let h := PUT h (HDRP bp) (PACK size 0) in
    let h := PUT h (FTRP h bp) (PACK size 0) in
    let h := PUT h (HDRP (NEXT_BLKP h bp)) (PACK 0 1) in
    coalesce h bp.

(** [mm_init()]: the return value ([0] or [-1]) and the new state. *)
Definition mm_init (h : heap) : Z * heap :=
  let '(p, h) := mem_sbrk h (2 * OVERHEAD) in
  let h := set_heap_listp h p in
  if p =? NULL then (-1, h)
  else
    let h := PUT h (heap_listp h) 0 in
    let h := PUT h (w32 (heap_listp h + WSIZE)) (PACK OVERHEAD 1) in
    let h := PUT h (w32 (heap_listp h + DSIZE + WSIZE)) 0 in
    let h := PUT h (w32 (heap_listp h + DSIZE)) 0 in
    let h := PUT h (w32 (heap_listp h + DSIZE)) (PACK OVERHEAD 1) in
    let h := PUT h (w32 (heap_listp h + WSIZE + DSIZE)) (PACK 0 1) in
    let h := set_free_listp h (w32 (heap_listp h + DSIZE)) in
    let '(bp, h) := extend_heap h (CHUNKSIZE / WSIZE) in
    if bp =? NULL then (-1, h) else (0, h).

(** The adjusted block size computed by [mm_malloc]. *)
Definition adjust (size : Z) : Z :=
  if size <=? DSIZE then DSIZE + OVERHEAD
  else w32 (DSIZE * (w32 (size + OVERHEAD + (DSIZE - 1)) / DSIZE)).

(** [mm_malloc(size)]; [None] when the fit finder does not end within
    [fuel] iterations. *)
Definition mm_malloc (fuel : nat) (h : heap) (size : Z) : option (Z * heap) :=
  if size <=? 0 then Some (NULL, h)
  else
    let asize := adjust size in
    match find_fit fuel h asize with
    | None => None
    | Some bp =>
        if negb (bp =? NULL) then Some (bp, place h bp asize)
        else
          let extendsize := MAX asize CHUNKSIZE in
          let '(bp, h) := extend_heap h (extendsize / WSIZE) in
          if bp =? NULL then Some (NULL, h)
          else Some (bp, place h bp asize)
    end.

(** [mm_free(bp)]. *)
Definition mm_free (h : heap) (bp : Z) : heap :=
  if bp =? NULL then h
  else
    let size := GET_SIZE h (HDRP bp) in
    let h := PUT h (HDRP bp) (PACK size 0) in
    let h := PUT h (FTRP h bp) (PACK size 0) in
    snd (coalesce h bp).

(** [memcpy(dst, src, n)], byte by byte from the low address. *)
Fixpoint memcpy (n : nat) (m : gmap Z Z) (dst src : Z) : gmap Z Z :=
  match n with
  | O => m
  | S n => memcpy n (store8 m dst (load8 m src)) (w32 (dst + 1)) (w32 (src + 1))
  end.

(** How a call ends: it returns a value, it ends the process through
    [exit], or (in the model only) its loop outlives the fuel. *)
Inductive outcome (A : Type) : Type :=
  | Returns (a : A) (h : heap)
  | Exits (status : Z) (h : heap)
  | OutOfFuel.
Arguments Returns {A} a h.
Arguments Exits {A} status h.
Arguments OutOfFuel {A}.

(** [mm_realloc(ptr, size)]. *)
Definition mm_realloc (fuel : nat) (h : heap) (ptr size : Z) : outcome Z :=
  match mm_malloc fuel h size with
  | None => OutOfFuel
  | Some (newp, h) =>
      if newp =? NULL then Exits 1 h
      else
        let copySize := GET_SIZE h (HDRP ptr) in
        let copySize := if size <? copySize then size else copySize in
        let h := set_mem h (memcpy (Z.to_nat copySize) (mem h) newp ptr) in
        Returns newp (mm_free h ptr)
  end.

(** ** Consistency checker *)

Definition check_block (h : heap) (bp : Z) : Z :=
  if (NEXT_FREE h bp <? mem_heap_lo h) || (NEXT_FREE h bp >? mem_heap_hi h)
  then 0
  else if (PREV_FREE h bp <? mem_heap_lo h) || (PREV_FREE h bp >? mem_heap_hi h)
  then 0
  else if negb (bp mod 8 =? 0) then 0
  else if negb (GET h (HDRP bp) =? GET h (FTRP h bp)) then 0
  else 1.

(** The free-list loop of [mm_checkheap], started at [bp]. *)
Fixpoint checkheap_from (fuel : nat) (h : heap) (bp : Z) : option Z :=
  match fuel with
  | O => None
  | S fuel =>
      if GET_ALLOC h (HDRP bp) =? 0 then
        if check_block h bp =? 0 then Some 0
        else checkheap_from fuel h (NEXT_FREE h bp)
      else Some 1
  end.

Definition mm_checkheap (fuel : nat) (h : heap) : option Z :=
  if negb (GET_SIZE h (HDRP (heap_listp h)) =? OVERHEAD)
     || (GET_ALLOC h (HDRP (heap_listp h)) =? 0) then Some 0
  else if check_block h (heap_listp h) =? 0 then Some 0
  else checkheap_from fuel h (free_listp h).

(** ** A fresh arena *)

(** Modelled from the spec: the provider's arena before [mm_init], with
    first address [lo] and limit [hi]; its bytes read as zero. *)
Definition fresh_arena (lo hi : Z) : heap := mkHeap ∅ lo lo hi NULL NULL.

(** ** Observations on a heap state *)

(** The block pointer of the first ordinary block: the address the first
    [extend_heap] receives from [mem_sbrk], right after the [2*OVERHEAD]
    bytes [mm_init] asked for. *)
Definition first_block (h : heap) : Z := mem_start_brk h + 2 * OVERHEAD.

(** The implicit block list, read off the headers from [bp] up to the
    first header of size zero (the epilogue): block pointer, size and
    allocated bit of each block. *)
Fixpoint heap_blocks (fuel : nat) (h : heap) (bp : Z) : list (Z * Z * Z) :=
  match fuel with
  | O => []
  | S fuel =>
      if GET_SIZE h (HDRP bp) =? 0 then []
      else (bp, GET_SIZE h (HDRP bp), GET_ALLOC h (HDRP bp))
             :: heap_blocks fuel h (NEXT_BLKP h bp)
  end.

(** Two neighbours of a block list are both free. *)
Fixpoint adjacent_free (bl : list (Z * Z * Z)) : bool :=
  match bl with
  | (_, _, a) :: (((_, _, b) :: _) as rest) =>
      ((a =? 0) && (b =? 0)) || adjacent_free rest
  | _ => false
  end.

(** The nodes the free-list loops of [find_fit] and [mm_checkheap] visit
    from [bp]: they follow [NEXT_FREE] and stop at the first node whose
    header has the allocated bit set. *)
Inductive free_chain (h : heap) : Z -> list Z -> Prop :=
  | free_chain_end bp :
      GET_ALLOC h (HDRP bp) <> 0 -> free_chain h bp []
  | free_chain_node bp l :
      GET_ALLOC h (HDRP bp) = 0 ->
      free_chain h (NEXT_FREE h bp) l ->
      free_chain h bp (bp :: l).

(** First fit over a list of nodes; [NULL] when none is large enough. *)
Fixpoint first_fit (h : heap) (asize : Z) (l : list Z) : Z :=
  match l with
  | [] => NULL
  | bp :: l =>
      if asize <=? GET_SIZE h (HDRP bp) then bp else first_fit h asize l
  end.

(** The bytes [p, p+n) of the arena. *)
Definition bytes (h : heap) (p : Z) (n : nat) : list Z :=
  map (fun i => load8 (mem h) (p + Z.of_nat i)) (seq 0 n).

(** ** Scenarios

    Call sequences on a small arena, used below to evaluate the code. *)

Definition demo_arena : heap := fresh_arena 4096 8192.

(** The state after [mm_init()]. *)
Definition demo_init : heap := snd (mm_init demo_arena).

(** A request whose adjusted size wraps around to zero. *)
Definition wrapping_request : Z := WORD - 39.

(** Sequencing of [mm_malloc] calls. *)
Definition and_then {A : Type} (r : option (Z * heap))
    (k : Z -> heap -> option A) : option A :=
  match r with
  | Some (p, h) => k p h
  | None => None
  end.

(** [x = mm_malloc(wrapping_request); mm_free(x)] after [mm_init()]. *)
Definition scenario_cycle : option heap :=
  and_then (mm_malloc 8 demo_init wrapping_request) (fun x h =>
  Some (mm_free h x)).

(** [a = mm_malloc(25); x = mm_malloc(wrapping_request); mm_free(a);
    b = mm_malloc(1); mm_free(x); c = mm_malloc(25)] after [mm_init()]. *)
Definition scenario_adjacent : option heap :=
  and_then (mm_malloc 8 demo_init 25) (fun a h =>
  and_then (mm_malloc 8 h wrapping_request) (fun x h =>
  let h := mm_free h a in
  and_then (mm_malloc 8 h 1) (fun b h =>
  let h := mm_free h x in
  and_then (mm_malloc 8 h 25) (fun c h =>
  Some h)))).

(** [p = mm_malloc(1); q = mm_malloc(1); r = mm_malloc(41); mm_free(r)]
    after [mm_init()]: [p] is an allocated block with a one-byte payload. *)
Definition scenario_realloc : option (Z * heap) :=
  and_then (mm_malloc 8 demo_init 1) (fun p h =>
  and_then (mm_malloc 8 h 1) (fun q h =>
  and_then (mm_malloc 8 h 41) (fun r h =>
  Some (p, mm_free h r)))).

(** [a = mm_malloc(1); b = mm_malloc(1); c = mm_malloc(1); mm_free(b);
    x = mm_malloc(wrapping_request); mm_free(a); mm_free(x)] after
    [mm_init()]. *)
Definition scenario_split : option heap :=
  and_then (mm_malloc 8 demo_init 1) (fun a h =>
  and_then (mm_malloc 8 h 1) (fun b h =>
  and_then (mm_malloc 8 h 1) (fun c h =>
  let h := mm_free h b in
  and_then (mm_malloc 8 h wrapping_request) (fun x h =>
  let h := mm_free h a in
  Some (mm_free h x))))).

(** ** The heap invariant *)

(** The node that ends the free list: the initial [free_listp] of
    [mm_init], [heap_listp + DSIZE], whose header word is the prologue
    header. *)
Definition sentinel (h : heap) : Z := mem_start_brk h + DSIZE.

(** A doubly linked chain of nodes [l] that starts at [first], whose head
    has [prev] for predecessor and whose last node has [S] for successor. *)
Fixpoint dll (h : heap) (S prev first : Z) (l : list Z) : Prop :=
  match l with
  | [] => first = S
  | x :: l => first = x /\ PREV_FREE h x = prev /\ dll h S x (NEXT_FREE h x) l
  end.

(** The nodes of a list lie above [S], fit in the address space and do not
    overlap one another's link fields. *)
Definition nodes_ok (S : Z) (l : list Z) : Prop :=
  0 <= S
  /\ Forall (fun x => S + 12 <= x /\ x + 12 <= WORD) l
  /\ forall x y, x ∈ l -> y ∈ l -> x = y \/ x + 12 <= y \/ y + 12 <= x.

(** The byte at [q] belongs neither to the [PREV_FREE] word of [S] nor to
    the link fields of a node of [l]. *)
Definition off_links (S : Z) (l : list Z) (q : Z) : Prop :=
  (q < S \/ S + 4 <= q) /\ Forall (fun y => q < y \/ y + 12 <= q) l.

(** [h'] differs from [h] at most in [free_listp], in the link fields of
    [S] and of the nodes of [l], and in the words at the addresses [W]. *)
Definition frame (S : Z) (l W : list Z) (h h' : heap) : Prop :=
  mem_start_brk h' = mem_start_brk h /\ mem_brk h' = mem_brk h
  /\ mem_max_addr h' = mem_max_addr h /\ heap_listp h' = heap_listp h
  /\ forall q, off_links S l q -> Forall (fun a => q < a \/ a + 4 <= q) W ->
       load8 (mem h') q = load8 (mem h) q.

(** Geometry of a block table [M] (block pointer to size and allocated
    bit) that tiles the arena from [lo + 64] to [brk]. *)
Record geom (lo brk : Z) (M : gmap Z (Z * Z)) : Prop := {
  g_block : forall bp s a, M !! bp = Some (s, a) ->
    lo + 64 <= bp /\ bp + s <= brk /\ 32 <= s /\ s mod 8 = 0
    /\ bp mod 8 = 0 /\ (a = 0 \/ a = 1);
  g_succ : forall bp s a, M !! bp = Some (s, a) ->
    bp + s = brk \/ is_Some (M !! (bp + s));
  g_pred : forall bp s a, M !! bp = Some (s, a) ->
    bp = lo + 64 \/ exists p sp ap, M !! p = Some (sp, ap) /\ p + sp = bp;
  g_disj : forall b1 s1 a1 b2 s2 a2,
    M !! b1 = Some (s1, a1) -> M !! b2 = Some (s2, a2) ->
    b1 = b2 \/ b1 + s1 <= b2 \/ b2 + s2 <= b1;
  g_first : is_Some (M !! (lo + 64));
  g_last : exists p sp ap, M !! p = Some (sp, ap) /\ p + sp = brk
}.

(** The boundary tags in memory agree with the block table. *)
Definition tags (h : heap) (M : gmap Z (Z * Z)) : Prop :=
  forall bp s a, M !! bp = Some (s, a) ->
    GET h (bp - 4) = s + a /\ GET h (bp + s - 8) = s + a.

(** What reading the blocks of [M] relies on: the tags, the zero pad word
    before the first block and the epilogue header. *)
Record heap_tags (h : heap) (M : gmap Z (Z * Z)) : Prop := {
  ht_lo : 0 < mem_start_brk h;
  ht_brk : mem_brk h < WORD;
  ht_pad : GET h (mem_start_brk h + 56) = 0;
  ht_epilogue : GET h (mem_brk h - 4) = 1;
  ht_geom : geom (mem_start_brk h) (mem_brk h) M;
  ht_tags : tags h M
}.

(** The heap invariant.  [ex] names a block exempt from the
    no-adjacent-free rule and [out] a free block that is not in the free
    list: both are [None] between the public operations. *)
Record heap_inv (ex out : option Z) (h : heap) (M : gmap Z (Z * Z))
    (fl : list Z) : Prop := {
  inv_lo : 0 < mem_start_brk h;
  inv_align : mem_start_brk h mod 8 = 0;
  inv_brk : mem_brk h <= mem_max_addr h;
  inv_max : mem_max_addr h < WORD;
  inv_heap_listp : heap_listp h = mem_start_brk h;
  inv_sentinel : GET h (mem_start_brk h + 4) = 33;
  inv_pad : GET h (mem_start_brk h + 56) = 0;
  inv_epilogue : GET h (mem_brk h - 4) = 1;
  inv_geom : geom (mem_start_brk h) (mem_brk h) M;
  inv_tags : tags h M;
  inv_noadj : forall b s s', M !! b = Some (s, 0) -> M !! (b + s) = Some (s', 0) ->
    ex = Some b \/ ex = Some (b + s);
  inv_dll : dll h (sentinel h) NULL (free_listp h) fl;
  inv_nodup : NoDup fl;
  inv_fl : forall x, x ∈ fl <-> (exists s, M !! x = Some (s, 0)) /\ out <> Some x
}.

(** A well-formed heap: the state between public operations. *)
Definition heap_ok (h : heap) : Prop :=
  exists M fl, heap_inv None None h M fl.

(** What [coalesce] achieves on the pending block [bp]: the blocks of the
    run [[r, r + total)] have become the one free block [r], which heads
    the free list; the other nodes [rest] are the former nodes outside the
    run; memory changed in link fields and in the two tags of [r] only. *)
Definition coalesced (h : heap) (fl : list Z) (bp r total : Z)
    (M' : gmap Z (Z * Z)) (h' : heap) : Prop :=
  exists rest,
    heap_inv None None h' M' (r :: rest)
    /\ (forall y, y ∈ rest <-> y ∈ fl /\ (y < r \/ r + total <= y))
    /\ frame (sentinel h) (bp :: fl) [r - 4; r + total - 8] h h'
    /\ free_listp h' = r.

(** The physical predecessor of [bp] counts as allocated: [bp] is the
    first block, or the block that ends at [bp] is allocated. *)
Definition pred_allocated (h : heap) (M : gmap Z (Z * Z)) (bp : Z) : Prop :=
  bp = first_block h \/ exists p sp, M !! p = Some (sp, 1) /\ p + sp = bp.

(** [P] describes the physical predecessor of [bp]: [Some (p, sp)] when it
    is the free block [p] of size [sp], [None] when it counts as
    allocated. *)
Definition free_pred (h : heap) (M : gmap Z (Z * Z)) (bp : Z)
    (P : option (Z * Z)) : Prop :=
  match P with
  | None => pred_allocated h M bp
  | Some (p, sp) => M !! p = Some (sp, 0) /\ p + sp = bp
  end.

(** [N] describes the physical successor of the block [bp] of size [s]:
    [Some (n, sn)] when it is the free block [n] of size [sn], [None] when
    it is allocated or the epilogue. *)
Definition free_next (h : heap) (M : gmap Z (Z * Z)) (bp s : Z)
    (N : option (Z * Z)) : Prop :=
  match N with
  | None => bp + s = mem_brk h \/ exists sn, M !! (bp + s) = Some (sn, 1)
  | Some (n, sn) => n = bp + s /\ M !! n = Some (sn, 0)
  end.

(** The block that results from coalescing [bp] (of size [s]) with its free
    neighbours, its size, and the block table afterwards: the four cases of
    [coalesce]. *)
Definition merge_table (M : gmap Z (Z * Z)) (bp s : Z)
    (P N : option (Z * Z)) : Z * Z * gmap Z (Z * Z) :=
  match P, N with
  | None, None => (bp, s, M)
  | None, Some (n, sn) => (bp, s + sn, <[bp := (s + sn, 0)]> (delete n M))
  | Some (p, sp), None => (p, sp + s, <[p := (sp + s, 0)]> (delete bp M))
  | Some (p, sp), Some (n, sn) =>
      (p, sp + s + sn, <[p := (sp + s + sn, 0)]> (delete n (delete bp M)))
  end.

(** The heap [mm_init] builds on a fresh arena, store by store. *)
Definition init_heap (lo hi : Z) : heap :=
  let h := set_heap_listp (set_brk (fresh_arena lo hi) (lo + 64)) lo in
  let h := PUT h lo 0 in
  let h := PUT h (lo + 4) 33 in
  let h := PUT h (lo + 12) 0 in
  let h := PUT h (lo + 8) 0 in
  let h := PUT h (lo + 8) 33 in
  let h := PUT h (lo + 12) 1 in
  let h := set_free_listp h (lo + 8) in
  let h := set_brk h (lo + 96) in
  let h := PUT h (lo + 60) 32 in
  let h := PUT h (lo + 88) 32 in
  let h := PUT h (lo + 92) 1 in
  let h := PUT h (lo + 72) (lo + 8) in
  let h := PUT h (lo + 8) (lo + 64) in
  let h := PUT h (lo + 64) 0 in
  set_free_listp h (lo + 64).

(** What the specification says of the split path of [place]: when the
    block that follows [bp] (of size [csize]) is free, the remainder
    [bp + asize] enters the free list as it is, and the two stay separate
    free blocks. *)
Definition split_remainder_separate (h : heap) (bp asize : Z) : Prop :=
  let csize := GET_SIZE h (HDRP bp) in
  let next := NEXT_BLKP h bp in
  let h' := place h bp asize in
  GET_ALLOC h (HDRP next) = 0 ->
  GET_ALLOC h' (HDRP (bp + asize)) = 0
  /\ GET_SIZE h' (HDRP (bp + asize)) = csize - asize
  /\ NEXT_BLKP h' (bp + asize) = next
  /\ GET_ALLOC h' (HDRP next) = 0.

(** The state in which [extend_heap(10)] calls [coalesce] after
    [mm_init()]: the new block at 4192 is tagged free and not yet
    listed. *)
Definition demo_pending : heap :=
  PUT (PUT (PUT (set_brk demo_init (mem_brk demo_init + 40))
                (mem_brk demo_init - 4) 40)
           (mem_brk demo_init + 40 - 8) 40)
      (mem_brk demo_init + 40 - 4) 1.

(** A small arena on which the first growth of [mm_malloc] fails. *)
Definition tight_arena : heap := fresh_arena 4096 4200.

(** The heap after [mm_init()] and [extend_heap(10)]: one free block of
    72 bytes at 4160. *)
Definition demo_grown : heap := snd (coalesce demo_pending 4192).

(** The payload bytes of the block [q] of size [sq] read the same in [h]
    and in [h']. *)
Definition payload_eq (h h' : heap) (q sq : Z) : Prop :=
  forall a, q <= a < q + sq - DSIZE -> load8 (mem h') a = load8 (mem h) a.

(** ** Clients

    The call sequences of a client that starts with [mm_init()] on a fresh
    arena, asks only for sizes whose adjustment does not wrap
    ([size + 39 < 2^32]), and frees or reallocates only blocks it holds.
    [run h live] relates a state so reached with the pointers held.  A
    failing [mm_malloc] leaves the state as it is, and a failing
    [mm_realloc] ends the process: neither needs a rule. *)
Inductive run : heap -> list Z -> Prop :=
  | run_init lo hi :
      0 < lo -> lo mod 8 = 0 -> lo + 96 <= hi < WORD ->
      run (snd (mm_init (fresh_arena lo hi))) []
  | run_malloc h live fuel size p h' :
      run h live -> 0 < size -> size + 39 < WORD ->
      mm_malloc fuel h size = Some (p, h') -> p <> NULL ->
      run h' (p :: live)
  | run_free h live p :
      run h live -> p ∈ live ->
      run (mm_free h p) (filter (fun q => q <> p) live)
  | run_realloc h live fuel p size newp h' :
      run h live -> p ∈ live -> 0 < size -> size + 39 < WORD ->
      mm_realloc fuel h p size = Returns newp h' ->
      run h' (newp :: filter (fun q => q <> p) live).

(** The state after [p = mm_malloc(1)] on [demo_init]: the client holds
    4160. *)
Definition demo_held : heap :=
  match mm_malloc 2 demo_init 1 with
  | Some (_, h) => h
  | None => demo_init
  end.

(** The bytes the blocks of a scan take up. *)
Definition blocks_size (bl : list (Z * Z * Z)) : Z :=
  foldr (fun x acc => x.1.2 + acc) 0 bl.

(** The heap of [scenario_split]: two adjacent free blocks, 4160 of 120
    bytes and 4280 of 32 bytes, both in the free list. *)
Definition split_state : heap :=
  match scenario_split with
  | Some h => h
  | None => demo_init
  end.

(** [a = mm_malloc(1); mm_free(a); b = mm_malloc(9)] after [mm_init()]:
    the heap is the one allocated block [b] of 72 bytes, and the free list
    is empty. *)
Definition scenario_growth : option heap :=
  and_then (mm_malloc 8 demo_init 1) (fun a h =>
  let h := mm_free h a in
  and_then (mm_malloc 8 h 9) (fun b h => Some h)).

(** The heap of [scenario_growth]. *)
Definition growth_state : heap :=
  match scenario_growth with
  | Some h => h
  | None => demo_init
  end.

(** * Properties *)

(** ** Words and bytes *)

Lemma w32_small z : 0 <= z < WORD -> w32 z = z.
Proof. intros H. unfold w32. apply Z.mod_small. exact H. Qed.

Lemma w32_range z : 0 <= w32 z < WORD.
Proof. unfold w32, WORD. apply Z.mod_pos_bound. lia. Qed.

Lemma load8_range m a : 0 <= load8 m a < 256.
Proof. unfold load8. apply Z.mod_pos_bound. lia. Qed.

Lemma load32_range m p : 0 <= load32 m p < WORD.
Proof.
  unfold load32, WORD.
  pose proof (load8_range m p). pose proof (load8_range m (p + 1)).
  pose proof (load8_range m (p + 2)). pose proof (load8_range m (p + 3)). lia.
Qed.

Lemma load8_store8 m a v b :
  load8 (store8 m a v) b = if decide (a = b) then v mod 256 else load8 m b.
Proof.
  unfold load8, store8. rewrite lookup_insert.
  destruct (decide (a = b)); simpl; [|reflexivity].
  apply Z.mod_mod. lia.
Qed.

Lemma load8_store32_ne m p v q :
  q < p \/ p + 4 <= q -> load8 (store32 m p v) q = load8 m q.
Proof.
  intros Hd. unfold store32. rewrite !load8_store8.
  repeat (destruct (decide _); try lia); reflexivity.
Qed.

Lemma load32_store32_eq m p v : 0 <= v < WORD -> load32 (store32 m p v) p = v.
Proof.
  intros Hv. unfold load32, store32. rewrite !load8_store8.
  repeat (destruct (decide _); try lia).
  unfold WORD in Hv. clear -Hv. Z.div_mod_to_equations. lia.
Qed.

Lemma load32_store32_ne m p v q :
  p + 4 <= q \/ q + 4 <= p -> load32 (store32 m p v) q = load32 m q.
Proof.
  intros Hd. unfold load32. rewrite !load8_store32_ne by lia. reflexivity.
Qed.

Lemma land_mask v : 0 <= v < WORD -> Z.land v SIZE_MASK = 8 * (v / 8).
Proof.
  intros Hv.
  transitivity (Z.shiftl (Z.shiftr v 3) 3).
  2:{ rewrite Z.shiftl_mul_pow2, Z.shiftr_div_pow2 by lia.
      change (2 ^ 3) with 8. lia. }
  change SIZE_MASK with (Z.shiftl (Z.ones 29) 3).
  apply Z.bits_inj'. intros n Hn.
  rewrite Z.land_spec.
  destruct (Z.ltb_spec n 3) as [H3|H3].
  - rewrite !Z.shiftl_spec_low by lia. apply andb_false_r.
  - rewrite !Z.shiftl_spec_high by lia.
    rewrite Z.shiftr_spec by lia. replace (n - 3 + 3) with n by lia.
    destruct (Z.ltb_spec (n - 3) 29) as [H29|H29].
    + rewrite Z.ones_spec_low by lia. apply andb_true_r.
    + rewrite Z.ones_spec_high by lia. rewrite andb_false_r. symmetry.
      destruct (Z.eq_dec v 0) as [->|Hz]; [apply Z.bits_0|].
      apply Z.bits_above_log2; [lia|].
      assert (Z.log2 v < 32); [|lia].
      apply Z.log2_lt_pow2; [lia|]. exact (proj2 Hv).
Qed.

Lemma land_one v : Z.land v 1 = v mod 2.
Proof. change 1 with (Z.ones 1). rewrite Z.land_ones by lia. reflexivity. Qed.

Lemma PACK_0 s : PACK s 0 = s.
Proof. apply Z.lor_0_r. Qed.

Lemma PACK_1 s : 0 <= s -> s mod 2 = 0 -> PACK s 1 = s + 1.
Proof.
  intros Hs Hm. unfold PACK.
  rewrite <- Z.lxor_lor, <- Z.add_nocarry_lxor; try reflexivity.
  all: apply Z.bits_inj'; intros n Hn; rewrite Z.land_spec, Z.bits_0;
    destruct (Z.eq_dec n 0) as [->|Hz];
    [ rewrite Z.bit0_odd, Zodd_mod, Hm; reflexivity
    | change 1 with (Z.ones 1); rewrite (Z.ones_spec_high 1 n) by lia;
      apply andb_false_r ].
Qed.

(** ** The fit finder *)

Lemma find_fit_from_chain h asize bp l :
  free_chain h bp l ->
  forall fuel, (length l < fuel)%nat ->
  find_fit_from fuel h asize bp = Some (first_fit h asize l).
Proof.
  induction 1 as [bp Ha | bp l Ha Hl IH]; intros fuel Hf.
  - destruct fuel as [|fuel]; [simpl in Hf; lia|]. simpl.
    destruct (Z.eqb_spec (GET_ALLOC h (HDRP bp)) 0); [contradiction|reflexivity].
  - destruct fuel as [|fuel]; [simpl in Hf; lia|]. simpl in *.
    rewrite Ha. simpl.
    destruct (asize <=? GET_SIZE h (HDRP bp)); [reflexivity|].
    apply IH. lia.
Qed.

Lemma first_fit_spec h asize l :
  (first_fit h asize l = NULL /\
     (Forall (fun bp => GET_SIZE h (HDRP bp) < asize) l \/ In NULL l))
  \/ (exists l1 l2, l = l1 ++ first_fit h asize l :: l2 /\
        Forall (fun bp => GET_SIZE h (HDRP bp) < asize) l1 /\
        asize <= GET_SIZE h (HDRP (first_fit h asize l))).
Proof.
  induction l as [|bp l IH]; simpl.
  - left. split; [reflexivity|]. left. constructor.
  - destruct (Z.leb_spec asize (GET_SIZE h (HDRP bp))) as [Hle|Hlt].
    + right. exists [], l. split; [reflexivity|]. split; [constructor|exact Hle].
    + destruct IH as [[E [HF|HN]]|(l1 & l2 & E & HF & Hle)].
      * left. split; [exact E|]. left. constructor; assumption.
      * left. split; [exact E|]. right. right. exact HN.
      * right. exists (bp :: l1), l2. split; [simpl; congruence|].
        split; [constructor; assumption|exact Hle].
Qed.

(** C5: for every adjusted size, [find_fit] scans the free list from its
    head in link order and returns the first node of that order whose block
    size is at least the adjusted size, or [NULL] when no node is large
    enough.  [l] is the sequence of nodes from the head up to the first
    node whose header is marked allocated; the scan needs one iteration
    more than [l] has nodes. *)
Theorem find_fit_first_fit (h : heap) (asize : Z) (l : list Z) (fuel : nat) :
  free_chain h (free_listp h) l ->
  (length l < fuel)%nat ->
  find_fit fuel h asize = Some (first_fit h asize l)
  /\ (first_fit h asize l <> NULL ->
      exists l1 l2, l = l1 ++ first_fit h asize l :: l2
        /\ Forall (fun bp => GET_SIZE h (HDRP bp) < asize) l1
        /\ asize <= GET_SIZE h (HDRP (first_fit h asize l)))
  /\ (Forall (fun bp => GET_SIZE h (HDRP bp) < asize) l ->
      first_fit h asize l = NULL).
Proof.
  intros Hc Hf. split; [|split].
  - unfold find_fit. apply find_fit_from_chain; assumption.
  - intros Hn. destruct (first_fit_spec h asize l) as [[E _]|H]; [contradiction|exact H].
  - intros HF. clear Hc Hf. induction HF as [|bp l Hlt _ IH]; simpl; [reflexivity|].
    destruct (Z.leb_spec asize (GET_SIZE h (HDRP bp))); [lia|exact IH].
Qed.

(** The free list of [demo_init] has the single node of the first block;
    a request of 40 bytes finds no fit there, one of 32 bytes finds it. *)
Lemma find_fit_first_fit_witness :
  find_fit 2 demo_init 32 = Some 4160 /\ find_fit 2 demo_init 40 = Some NULL.
Proof.
  assert (Hc : free_chain demo_init (free_listp demo_init) [4160]).
  { apply free_chain_node; [vm_compute; reflexivity|].
    apply free_chain_end. vm_compute. discriminate. }
  split.
  - exact (proj1 (find_fit_first_fit demo_init 32 [4160] 2 Hc (le_n 2))).
  - exact (proj1 (find_fit_first_fit demo_init 40 [4160] 2 Hc (le_n 2))).
Defined.

(** ** Reallocation with size zero *)

(** C9: [mm_realloc(p, 0)] does not return.  The inner [mm_malloc(0)]
    yields [NULL], which [mm_realloc] takes for a failed allocation: the
    process exits with status 1, and the heap is as it was, so [p] has not
    been freed. *)
Theorem mm_realloc_zero_exits (fuel : nat) (h : heap) (p : Z) :
  mm_malloc fuel h 0 = Some (NULL, h)
  /\ mm_realloc fuel h p 0 = Exits 1 h.
Proof. split; reflexivity. Qed.

(** ** Evaluations of the scenarios *)

(** C2: after [mm_init()] returns 0, the prologue header (at
    [heap_listp + WSIZE]) holds [PACK(OVERHEAD, 1)], but the word written
    as the prologue footer (at [heap_listp + DSIZE]) holds the address of
    the first free block: the first [freelist] call stored a list link
    there.  The word at the footer position [FTRP] computes for the
    prologue is zero.  Header and footer of the prologue differ. *)
Theorem prologue_footer_overwritten :
  fst (mm_init demo_arena) = 0
  /\ GET demo_init (heap_listp demo_init + WSIZE) = PACK OVERHEAD 1
  /\ GET demo_init (heap_listp demo_init + DSIZE) = first_block demo_init
  /\ GET demo_init (FTRP demo_init (heap_listp demo_init + DSIZE)) = 0
  /\ GET demo_init (heap_listp demo_init + WSIZE)
     <> GET demo_init (heap_listp demo_init + DSIZE).
Proof. vm_compute. repeat split; congruence. Qed.

(** C8: [mm_malloc(2^32 - 39)] after [mm_init()] returns the non-null
    pointer 4160, a multiple of 8, but the adjusted size wrapped to zero:
    the block is 32 bytes long, its header is still marked free and it is
    still the head of the free list. *)
Theorem mm_malloc_wrapping_request :
  adjust wrapping_request = 0
  /\ match mm_malloc 8 demo_init wrapping_request with
     | Some (p, h) =>
         p = 4160 /\ p mod 8 = 0
         /\ GET_SIZE h (HDRP p) = 32
         /\ GET_ALLOC h (HDRP p) = 0
         /\ free_listp h = p
     | None => False
     end.
Proof. vm_compute. repeat split; reflexivity. Qed.

Lemma self_loop_no_chain h bp :
  GET_ALLOC h (HDRP bp) = 0 -> NEXT_FREE h bp = bp ->
  forall l, ~ free_chain h bp l.
Proof.
  intros Ha Hn l Hc. remember bp as b eqn:Eb in Hc.
  induction Hc as [b Hb | b l Hb Hl IH]; subst b.
  - contradiction.
  - apply IH. exact Hn.
Qed.

Lemma self_loop_no_fit h asize bp :
  GET_ALLOC h (HDRP bp) = 0 -> NEXT_FREE h bp = bp ->
  GET_SIZE h (HDRP bp) < asize ->
  forall fuel, find_fit_from fuel h asize bp = None.
Proof.
  intros Ha Hn Hs. induction fuel as [|fuel IH]; simpl; [reflexivity|].
  rewrite Ha. simpl.
  destruct (Z.leb_spec asize (GET_SIZE h (HDRP bp))); [lia|].
  rewrite Hn. exact IH.
Qed.

(** C10: after [mm_init(); x = mm_malloc(2^32 - 39); mm_free(x)] the head
    of the free list is a free block whose next-pointer designates the
    block itself.  No node with the allocated bit set is ever reached: the
    list has no end, and the scan of [find_fit] for 40 bytes outlives every
    amount of fuel. *)
Theorem free_list_cycle :
  match scenario_cycle with
  | Some h =>
      GET_ALLOC h (HDRP (free_listp h)) = 0
      /\ NEXT_FREE h (free_listp h) = free_listp h
      /\ (forall l, ~ free_chain h (free_listp h) l)
      /\ (forall fuel, find_fit fuel h 40 = None)
  | None => False
  end.
Proof.
  destruct scenario_cycle as [h|] eqn:E; [|vm_compute in E; discriminate].
  assert (Ha : GET_ALLOC h (HDRP (free_listp h)) = 0).
  { vm_compute in E. injection E as <-. vm_compute. reflexivity. }
  assert (Hn : NEXT_FREE h (free_listp h) = free_listp h).
  { vm_compute in E. injection E as <-. vm_compute. reflexivity. }
  assert (Hs : GET_SIZE h (HDRP (free_listp h)) < 40).
  { vm_compute in E. injection E as <-. vm_compute. reflexivity. }
  split; [exact Ha|]. split; [exact Hn|]. split.
  - apply self_loop_no_chain; assumption.
  - intros fuel. apply self_loop_no_fit; assumption.
Qed.

(** C3: after the calls of [scenario_adjacent], every one an allocate or a
    free of a pointer an earlier allocate returned, the heap reads as an
    allocated block of 40 bytes followed by free blocks of 56 and of 64
    bytes: two physically adjacent blocks are both marked free. *)
Theorem adjacent_free_blocks_reached :
  match scenario_adjacent with
  | Some h =>
      heap_blocks 8 h (first_block h)
      = [(4160, 40, 1); (4200, 56, 0); (4256, 64, 0)]
      /\ NEXT_BLKP h 4256 = mem_brk h
      /\ adjacent_free (heap_blocks 8 h (first_block h)) = true
  | None => False
  end.
Proof. vm_compute. repeat split; reflexivity. Qed.

(** C7: in the state of [scenario_realloc], [p] is an allocated block whose
    payload byte is 0.  [mm_realloc(p, 2^32 - 39)] returns 4240, and the
    first byte there is 64: the call to [mm_free] stored a list link in the
    returned block, which [mm_malloc] had left in the free list. *)
Theorem mm_realloc_wrapping_request :
  match scenario_realloc with
  | Some (p, h) =>
      GET_ALLOC h (HDRP p) = 1
      /\ bytes h p 1 = [0]
      /\ match mm_realloc 8 h p wrapping_request with
         | Returns newp h' =>
             newp = 4240 /\ bytes h' newp 1 = [64]
             /\ GET_ALLOC h' (HDRP newp) = 0
         | _ => False
         end
  | None => False
  end.
Proof. vm_compute. repeat split; reflexivity. Qed.

(** ** Loads and stores on a heap state *)

Lemma GET_range h p : 0 <= GET h p < WORD.
Proof. apply load32_range. Qed.

Lemma GET_PUT_eq h p v : 0 <= v < WORD -> GET (PUT h p v) p = v.
Proof. apply load32_store32_eq. Qed.

Lemma GET_PUT_ne h p v q :
  p + 4 <= q \/ q + 4 <= p -> GET (PUT h p v) q = GET h q.
Proof. apply load32_store32_ne. Qed.

Lemma load8_PUT_ne h p v q :
  q < p \/ p + 4 <= q -> load8 (mem (PUT h p v)) q = load8 (mem h) q.
Proof. apply load8_store32_ne. Qed.

Lemma GET_ext h h' p :
  (forall q, p <= q < p + 4 -> load8 (mem h') q = load8 (mem h) q) ->
  GET h' p = GET h p.
Proof.
  intros H. unfold GET, load32. rewrite !H by lia. reflexivity.
Qed.

Lemma tag_read h p s a :
  GET h p = s + a -> 0 <= s -> s mod 8 = 0 -> a = 0 \/ a = 1 ->
  GET_SIZE h p = s /\ GET_ALLOC h p = a.
Proof.
  intros E Hs Hm Ha. pose proof (GET_range h p) as Hr.
  unfold GET_SIZE, GET_ALLOC. rewrite land_mask by exact Hr.
  rewrite land_one, E. clear E. split.
  - destruct Ha; subst a; clear Hr; Z.div_mod_to_equations; lia.
  - destruct Ha; subst a; clear Hr; Z.div_mod_to_equations; lia.
Qed.

Lemma NEXT_FREE_eq h x : 0 <= x -> x + 8 < WORD -> NEXT_FREE h x = GET h (x + 8).
Proof.
  intros H0 H1. unfold NEXT_FREE, WSIZE. rewrite w32_small by lia. reflexivity.
Qed.

Lemma set_NEXT_FREE_eq h x v :
  0 <= x -> x + 8 < WORD -> set_NEXT_FREE h x v = PUT h (x + 8) v.
Proof.
  intros H0 H1. unfold set_NEXT_FREE, WSIZE. rewrite w32_small by lia. reflexivity.
Qed.

(** ** Doubly linked chains *)

Lemma dll_frame h h' S prev first l :
  (forall x, x ∈ l -> PREV_FREE h' x = PREV_FREE h x
                       /\ NEXT_FREE h' x = NEXT_FREE h x) ->
  dll h S prev first l -> dll h' S prev first l.
Proof.
  revert prev first. induction l as [|x l IH]; intros prev first Hf; simpl.
  - auto.
  - intros (-> & Hp & Hd). destruct (Hf x (list_elem_of_here x l)) as [E1 E2].
    split; [reflexivity|]. split; [congruence|].
    rewrite E2. apply IH; [|exact Hd]. intros y Hy. apply Hf.
    apply list_elem_of_further. exact Hy.
Qed.

Lemma last_cons_default (l : list Z) x d :
  List.last (x :: l) d = List.last l x.
Proof.
  revert x d. induction l as [|y l IH]; intros x d; [reflexivity|].
  change (List.last (x :: y :: l) d) with (List.last (y :: l) d).
  rewrite (IH y d), (IH y x). reflexivity.
Qed.

Lemma dll_app h S prev first l1 l2 :
  dll h S prev first (l1 ++ l2) <->
  dll h (hd S l2) prev first l1 /\ dll h S (List.last l1 prev) (hd S l2) l2.
Proof.
  revert prev first. induction l1 as [|x l1 IH]; intros prev first.
  - simpl. split.
    + intros H. split; [|].
      * destruct l2; simpl in *; [exact H|apply H].
      * destruct l2; simpl in *; [reflexivity|].
        destruct H as (-> & H). split; [reflexivity|exact H].
    + intros [E H]. subst first. destruct l2; simpl in *; [reflexivity|].
      exact H.
  - change ((x :: l1) ++ l2) with (x :: (l1 ++ l2)). cbn [dll].
    rewrite IH.
    assert (EL := last_cons_default l1 x prev).
    rewrite EL. tauto.
Qed.

Lemma dll_first h S prev first l : dll h S prev first l -> first = hd S l.
Proof. destruct l; simpl; [auto|]. intros H; apply H. Qed.

(** ** Frames *)

Lemma frame_refl S l W h : frame S l W h h.
Proof. unfold frame. repeat split; reflexivity. Qed.

Lemma frame_trans S l W h1 h2 h3 :
  frame S l W h1 h2 -> frame S l W h2 h3 -> frame S l W h1 h3.
Proof.
  intros (A1 & A2 & A3 & A4 & A5) (B1 & B2 & B3 & B4 & B5).
  unfold frame. repeat split; try congruence.
  intros q Hq HW. rewrite B5, A5 by assumption. reflexivity.
Qed.

Lemma off_links_incl S l l' q :
  (forall y, y ∈ l' -> y ∈ l) -> off_links S l q -> off_links S l' q.
Proof.
  intros Hi [H1 H2]. split; [exact H1|].
  rewrite Forall_forall in *. intros y Hy. apply H2, Hi, Hy.
Qed.

Lemma frame_incl S l l' W W' h h' :
  (forall y, y ∈ l -> y ∈ l') -> (forall a, a ∈ W -> a ∈ W') ->
  frame S l W h h' -> frame S l' W' h h'.
Proof.
  intros Hi HiW (A1 & A2 & A3 & A4 & A5). unfold frame. repeat split; try assumption.
  intros q Hq HW. apply A5; [eapply off_links_incl; eassumption|].
  rewrite Forall_forall in *. intros a Ha. apply HW, HiW, Ha.
Qed.

Lemma frame_GET S l W h h' p :
  frame S l W h h' ->
  p + 4 <= S \/ S + 4 <= p ->
  Forall (fun y => p + 4 <= y \/ y + 12 <= p) l ->
  Forall (fun a => p + 4 <= a \/ a + 4 <= p) W ->
  GET h' p = GET h p.
Proof.
  intros (_ & _ & _ & _ & A5) HS Hl HW. apply GET_ext. intros q Hq. apply A5.
  - split; [lia|]. rewrite Forall_forall in *. intros y Hy.
    specialize (Hl y Hy). lia.
  - rewrite Forall_forall in *. intros a Ha. specialize (HW a Ha). lia.
Qed.

Lemma frame_PUT_S S l W h v : frame S l W h (PUT h S v).
Proof.
  unfold frame. repeat split; try reflexivity.
  intros q [H1 _] _. apply load8_PUT_ne. lia.
Qed.

Lemma frame_PUT_prev S l W h x v : x ∈ l -> frame S l W h (PUT h x v).
Proof.
  intros Hx. unfold frame. repeat split; try reflexivity.
  intros q [_ H2] _. rewrite Forall_forall in H2. specialize (H2 x Hx).
  apply load8_PUT_ne. lia.
Qed.

Lemma frame_PUT_next S l W h x v : x ∈ l -> frame S l W h (PUT h (x + 8) v).
Proof.
  intros Hx. unfold frame. repeat split; try reflexivity.
  intros q [_ H2] _. rewrite Forall_forall in H2. specialize (H2 x Hx).
  apply load8_PUT_ne. lia.
Qed.

Lemma frame_PUT_W S l W h a v : a ∈ W -> frame S l W h (PUT h a v).
Proof.
  intros Ha. unfold frame. repeat split; try reflexivity.
  intros q _ HW. rewrite Forall_forall in HW. specialize (HW a Ha).
  apply load8_PUT_ne. lia.
Qed.

Lemma frame_set_free_listp S l W h p : frame S l W h (set_free_listp h p).
Proof. unfold frame. repeat split; reflexivity. Qed.

(** ** Nodes *)

Lemma nodes_ok_in S l x : nodes_ok S l -> x ∈ l -> S + 12 <= x /\ x + 12 <= WORD /\ 0 <= S.
Proof.
  intros (H0 & HF & _) Hx. rewrite Forall_forall in HF.
  specialize (HF x Hx). lia.
Qed.

Lemma nodes_ok_sep S l x y :
  nodes_ok S l -> x ∈ l -> y ∈ l -> x <> y -> x + 12 <= y \/ y + 12 <= x.
Proof. intros (_ & _ & HS) Hx Hy Hn. destruct (HS x y Hx Hy); [contradiction|assumption]. Qed.

Lemma nodes_ok_incl S l l' :
  (forall y, y ∈ l' -> y ∈ l) -> nodes_ok S l -> nodes_ok S l'.
Proof.
  intros Hi (H0 & HF & HS). split; [exact H0|]. split.
  - rewrite Forall_forall in *. intros y Hy. apply HF, Hi, Hy.
  - intros x y Hx Hy. apply HS; apply Hi; assumption.
Qed.

Lemma last_in (l : list Z) d : l <> [] -> List.last l d ∈ l.
Proof.
  revert d. induction l as [|x l IH]; intros d; [congruence|]. intros _.
  rewrite last_cons_default. destruct l as [|y l]; [apply list_elem_of_here|].
  apply list_elem_of_further. apply IH. discriminate.
Qed.

Lemma last_default_irrel (l : list Z) d d' : l <> [] -> List.last l d = List.last l d'.
Proof.
  destruct l as [|x l]; [congruence|]. intros _.
  rewrite !last_cons_default. reflexivity.
Qed.

Lemma dll_set_last h h' S S' prev first l :
  l <> [] -> NoDup l ->
  (forall y, y ∈ l -> PREV_FREE h' y = PREV_FREE h y) ->
  (forall y, y ∈ l -> y <> List.last l prev -> NEXT_FREE h' y = NEXT_FREE h y) ->
  NEXT_FREE h' (List.last l prev) = S' ->
  dll h S prev first l -> dll h' S' prev first l.
Proof.
  revert prev first. induction l as [|a l IH]; intros prev first Hne Hnd HP HN HL; [congruence|].
  cbn [dll]. intros (-> & Hp & Hd).
  split; [reflexivity|]. split; [rewrite HP; [exact Hp|apply list_elem_of_here]|].
  rewrite last_cons_default in HL, HN.
  apply NoDup_cons in Hnd as [Hna Hnd].
  destruct l as [|b l].
  - simpl in *. exact HL.
  - rewrite HN; [|apply list_elem_of_here|].
    2:{ intros E. apply Hna. rewrite E. apply last_in. discriminate. }
    apply IH; try assumption; try discriminate.
    + intros y Hy. apply HP. apply list_elem_of_further. exact Hy.
    + intros y Hy Hne'. apply HN; [apply list_elem_of_further; exact Hy|exact Hne'].
Qed.

(** ** [delete_block] *)

Lemma delete_block_head h x :
  PREV_FREE h x = NULL ->
  delete_block h x
  = PUT (set_free_listp h (NEXT_FREE h x)) (NEXT_FREE h x) NULL.
Proof.
  intros E. unfold delete_block. rewrite E. simpl.
  unfold set_PREV_FREE. f_equal. exact E.
Qed.

Lemma delete_block_mid h x :
  PREV_FREE h x <> NULL ->
  0 <= PREV_FREE h x -> PREV_FREE h x + 8 < WORD ->
  0 <= x -> x + 8 < WORD ->
  (PREV_FREE h x + 12 <= x \/ x + 12 <= PREV_FREE h x) ->
  delete_block h x
  = PUT (PUT h (PREV_FREE h x + 8) (NEXT_FREE h x)) (NEXT_FREE h x) (PREV_FREE h x).
Proof.
  intros Hn H0 H1 H2 H3 Hs. unfold delete_block.
  destruct (Z.eqb_spec (PREV_FREE h x) NULL) as [E|_]; [contradiction|].
  rewrite set_NEXT_FREE_eq by assumption.
  unfold set_PREV_FREE.
  assert (E1 : NEXT_FREE (PUT h (PREV_FREE h x + 8) (NEXT_FREE h x)) x = NEXT_FREE h x).
  { rewrite !NEXT_FREE_eq by assumption. apply GET_PUT_ne. lia. }
  assert (E2 : PREV_FREE (PUT h (PREV_FREE h x + 8) (NEXT_FREE h x)) x = PREV_FREE h x).
  { unfold PREV_FREE at 1. apply GET_PUT_ne. lia. }
  rewrite E1, E2. reflexivity.
Qed.

Lemma delete_block_spec h S l1 x l2 :
  nodes_ok S (l1 ++ x :: l2) -> NoDup (l1 ++ x :: l2) ->
  dll h S NULL (free_listp h) (l1 ++ x :: l2) ->
  dll (delete_block h x) S NULL (free_listp (delete_block h x)) (l1 ++ l2)
  /\ frame S (l1 ++ l2) [] h (delete_block h x).
Proof.
  intros Hok Hnd Hd.
  apply dll_app in Hd as [Hd1 Hd2]. cbn [hd dll] in Hd1, Hd2.
  destruct Hd2 as (_ & Hpx & Hd2).
  pose proof (dll_first _ _ _ _ _ Hd2) as Hn.
  assert (Hx : x ∈ l1 ++ x :: l2) by (apply elem_of_app; right; apply list_elem_of_here).
  destruct (nodes_ok_in _ _ _ Hok Hx) as (Hx1 & Hx2 & HS0).
  assert (Hin : forall y, y ∈ l1 ++ l2 -> y ∈ l1 ++ x :: l2).
  { intros y Hy. apply elem_of_app in Hy as [Hy|Hy]; apply elem_of_app;
      [left; exact Hy|right; apply list_elem_of_further; exact Hy]. }
  assert (Hne : forall y, y ∈ l1 ++ l2 -> y <> x).
  { intros y Hy ->. apply NoDup_app in Hnd as (_ & Hnd1 & Hnd2).
    apply NoDup_cons in Hnd2 as [Hnx _].
    apply elem_of_app in Hy as [Hy|Hy]; [|contradiction].
    apply (Hnd1 x Hy). apply list_elem_of_here. }
  assert (Hnd' : NoDup (l1 ++ l2)).
  { apply NoDup_app in Hnd as (N1 & N2 & N3). apply NoDup_cons in N3 as [N3 N4].
    apply NoDup_app. split; [exact N1|]. split; [|exact N4].
    intros y Hy1 Hy2. apply (N2 y Hy1). apply list_elem_of_further. exact Hy2. }
  (* the successor of [x] in the list is [S] or a node *)
  set (n := NEXT_FREE h x) in *.
  assert (Hnn : l2 = [] /\ n = S \/ exists l2', l2 = n :: l2').
  { destruct l2 as [|b l2']; simpl in Hn; [left; auto|right; exists l2'; congruence]. }
  (* second half of the chain, after any write outside its link fields *)
  assert (Htail : forall h',
    (forall y, y ∈ l2 -> y <> n -> PREV_FREE h' y = PREV_FREE h y) ->
    (forall y, y ∈ l2 -> NEXT_FREE h' y = NEXT_FREE h y) ->
    PREV_FREE h' n = List.last l1 NULL ->
    dll h' S (List.last l1 NULL) (hd S l2) l2).
  { intros h' HP HN HW. destruct Hnn as [[-> ->]|[l2' ->]]; [reflexivity|].
    cbn [hd dll]. split; [reflexivity|]. split; [exact HW|].
    cbn [dll] in Hd2. destruct Hd2 as (_ & _ & Hd2).
    rewrite HN by apply list_elem_of_here.
    eapply dll_frame; [|exact Hd2]. intros y Hy.
    assert (y <> n).
    { intros ->. apply NoDup_app in Hnd' as (_ & _ & N). apply NoDup_cons in N as [N _].
      contradiction. }
    split; [apply HP|apply HN]; try (apply list_elem_of_further; exact Hy). assumption. }
  assert (Hnb : n = S \/ (n ∈ l1 ++ l2 /\ n ∈ l2)).
  { destruct Hnn as [[_ ->]|[l2' ->]]; [left; reflexivity|right].
    split; [apply elem_of_app; right|]; apply list_elem_of_here. }
  destruct (decide (l1 = [])) as [->|Hl1].
  - (* [x] is the head *)
    simpl in Hpx. rewrite delete_block_head by exact Hpx. fold n.
    split.
    + simpl app. simpl free_listp.
      cut (dll (PUT (set_free_listp h n) n NULL) S (List.last [] NULL) (hd S l2) l2).
      { rewrite <- Hn. simpl. auto. }
      apply (Htail (PUT (set_free_listp h n) n NULL)).
      * intros y Hy Hyn. unfold PREV_FREE. rewrite GET_PUT_ne; [reflexivity|].
        destruct Hnb as [->|[Hn1 _]].
        -- destruct (nodes_ok_in _ _ _ Hok (Hin y Hy)). lia.
        -- pose proof (nodes_ok_sep _ _ _ _ Hok (Hin y Hy) (Hin n Hn1) Hyn). lia.
      * intros y Hy.
        destruct (nodes_ok_in _ _ _ Hok (Hin y Hy)) as (? & ? & ?).
        rewrite !NEXT_FREE_eq by lia. rewrite GET_PUT_ne; [reflexivity|].
        destruct Hnb as [->|[Hn1 _]]; [lia|].
        destruct (Z.eq_dec y n) as [->|Hyn]; [lia|].
        pose proof (nodes_ok_sep _ _ _ _ Hok (Hin y Hy) (Hin n Hn1) Hyn). lia.
      * simpl. unfold PREV_FREE. apply GET_PUT_eq. unfold NULL, WORD. lia.
    + eapply frame_trans; [apply frame_set_free_listp|].
      destruct Hnb as [->|[Hn1 _]]; [apply frame_PUT_S|apply frame_PUT_prev; exact Hn1].
  - (* [x] has a predecessor *)
    pose proof (last_in l1 NULL Hl1) as Hpv. rewrite <- Hpx in Hpv.
    set (pv := PREV_FREE h x) in *.
    assert (Hpv' : pv ∈ l1 ++ x :: l2) by (apply elem_of_app; left; exact Hpv).
    assert (Hpv'' : pv ∈ l1 ++ l2) by (apply elem_of_app; left; exact Hpv).
    destruct (nodes_ok_in _ _ _ Hok Hpv') as (Hp1 & Hp2 & _).
    pose proof (nodes_ok_sep _ _ _ _ Hok Hpv' Hx (Hne pv Hpv'')) as Hpx'.
    rewrite delete_block_mid; fold pv; fold n; try (unfold NULL; lia).
    assert (Hnpv : n <> pv).
    { destruct Hnb as [->|[_ Hn2]]; [lia|]. intros E. rewrite E in Hn2.
      apply NoDup_app in Hnd' as (_ & N & _). exact (N pv Hpv Hn2). }
    assert (Hsep : forall y, y ∈ l1 ++ l2 -> y <> n -> n + 4 <= y \/ y + 12 <= n).
    { intros y Hy Hyn. destruct Hnb as [->|[Hn1 _]].
      - destruct (nodes_ok_in _ _ _ Hok (Hin y Hy)). lia.
      - pose proof (nodes_ok_sep _ _ _ _ Hok (Hin y Hy) (Hin n Hn1) Hyn). lia. }
    assert (HP : forall y, y ∈ l1 ++ l2 -> y <> n ->
              PREV_FREE (PUT (PUT h (pv + 8) n) n pv) y = PREV_FREE h y).
    { intros y Hy Hyn. unfold PREV_FREE.
      rewrite GET_PUT_ne by (specialize (Hsep y Hy Hyn); lia).
      apply GET_PUT_ne.
      destruct (Z.eq_dec y pv) as [->|Hyp]; [lia|].
      pose proof (nodes_ok_sep _ _ _ _ Hok (Hin y Hy) Hpv' Hyp). lia. }
    assert (HN : forall y, y ∈ l1 ++ l2 -> y <> pv ->
              NEXT_FREE (PUT (PUT h (pv + 8) n) n pv) y = NEXT_FREE h y).
    { intros y Hy Hyp.
      destruct (nodes_ok_in _ _ _ Hok (Hin y Hy)) as (? & ? & ?).
      rewrite !NEXT_FREE_eq by lia.
      rewrite GET_PUT_ne.
      2:{ destruct (Z.eq_dec y n) as [->|Hyn]; [lia|]. specialize (Hsep y Hy Hyn). lia. }
      apply GET_PUT_ne.
      pose proof (nodes_ok_sep _ _ _ _ Hok (Hin y Hy) Hpv' Hyp). lia. }
    split.
    + apply dll_app. simpl free_listp. split.
      * apply (dll_set_last h _ x); try assumption.
        -- apply NoDup_app in Hnd' as (N & _ & _). exact N.
        -- intros y Hy. apply HP; [apply elem_of_app; left; exact Hy|].
           intros ->. destruct Hnb as [->|[_ Hn2]].
           ++ destruct (nodes_ok_in _ _ _ Hok (Hin S (proj2 (elem_of_app _ _ _) (or_introl Hy)))). lia.
           ++ apply NoDup_app in Hnd' as (_ & N & _). exact (N n Hy Hn2).
        -- intros y Hy Hyl. apply HN; [apply elem_of_app; left; exact Hy|].
           rewrite Hpx. exact Hyl.
        -- rewrite <- Hpx.
           rewrite NEXT_FREE_eq by lia.
           rewrite GET_PUT_ne by (destruct Hnb as [->|[Hn1 _]];
             [lia|pose proof (nodes_ok_sep _ _ _ _ Hok (Hin n Hn1) Hpv' Hnpv); lia]).
           rewrite GET_PUT_eq; [exact Hn|].
           destruct Hnb as [->|[Hn1 _]]; [unfold WORD in *; lia|].
           destruct (nodes_ok_in _ _ _ Hok (Hin n Hn1)). unfold WORD in *. lia.
      * apply Htail.
        -- intros y Hy Hyn. apply HP; [apply elem_of_app; right; exact Hy|exact Hyn].
        -- intros y Hy. apply HN; [apply elem_of_app; right; exact Hy|].
           intros ->. apply NoDup_app in Hnd' as (_ & N & _). exact (N pv Hpv Hy).
        -- rewrite <- Hpx. unfold PREV_FREE. apply GET_PUT_eq.
           unfold WORD in *. lia.
    + eapply frame_trans; [apply frame_PUT_next; exact Hpv''|].
      destruct Hnb as [->|[Hn1 _]]; [apply frame_PUT_S|apply frame_PUT_prev; exact Hn1].
Qed.

(** ** [freelist] *)

Lemma GET_set_free_listp h p q : GET (set_free_listp h p) q = GET h q.
Proof. reflexivity. Qed.

Lemma freelist_eq h x :
  0 <= x -> x + 8 < WORD ->
  freelist h x
  = set_free_listp (PUT (PUT (PUT h (x + 8) (free_listp h)) (free_listp h) x) x NULL) x.
Proof.
  intros H0 H1. unfold freelist. rewrite set_NEXT_FREE_eq by assumption. reflexivity.
Qed.

Lemma freelist_spec h S l x :
  nodes_ok S (x :: l) -> NoDup (x :: l) ->
  dll h S NULL (free_listp h) l ->
  dll (freelist h x) S NULL (free_listp (freelist h x)) (x :: l)
  /\ free_listp (freelist h x) = x
  /\ frame S (x :: l) [] h (freelist h x).
Proof.
  intros Hok Hnd Hd.
  assert (Hx : x ∈ x :: l) by apply list_elem_of_here.
  destruct (nodes_ok_in _ _ _ Hok Hx) as (Hx1 & Hx2 & HS0).
  pose proof (dll_first _ _ _ _ _ Hd) as Hf.
  set (f := free_listp h) in *.
  apply NoDup_cons in Hnd as [Hxl Hnd].
  assert (Hfb : f = S \/ f ∈ l).
  { destruct l as [|b l']; simpl in Hf; [left; exact Hf|right; subst f; rewrite Hf; apply list_elem_of_here]. }
  assert (Hfx : f + 4 <= x \/ x + 12 <= f).
  { destruct Hfb as [->|Hfl]; [lia|].
    assert (f <> x) by (intros ->; contradiction).
    pose proof (nodes_ok_sep _ _ _ _ Hok (list_elem_of_further _ x _ Hfl) Hx H). lia. }
  rewrite freelist_eq by (unfold WORD in *; lia). fold f.
  split; [|split; [reflexivity|]].
  - simpl free_listp. cbn [dll]. split; [reflexivity|]. split.
    + unfold PREV_FREE. rewrite GET_set_free_listp.
      rewrite GET_PUT_eq; [reflexivity|unfold NULL, WORD; lia].
    + assert (EN : NEXT_FREE (set_free_listp (PUT (PUT (PUT h (x + 8) f) f x) x NULL) x) x = f).
      { rewrite NEXT_FREE_eq by (unfold WORD in *; lia).
        change (GET (PUT (PUT (PUT h (x + 8) f) f x) x NULL) (x + 8) = f).
        rewrite !GET_PUT_ne by lia. apply GET_PUT_eq.
        destruct Hfb as [->|Hfl]; [unfold WORD in *; lia|].
        destruct (nodes_ok_in _ _ _ Hok (list_elem_of_further _ x _ Hfl)).
        unfold WORD in *. lia. }
      rewrite EN.
      destruct l as [|b l'].
      * simpl in *. exact Hf.
      * simpl in Hf. subst f. cbn [dll] in *. destruct Hd as (_ & Hpb & Hd).
        rewrite Hf in *.
        assert (Hb : b ∈ x :: b :: l') by (apply list_elem_of_further, list_elem_of_here).
        destruct (nodes_ok_in _ _ _ Hok Hb) as (Hb1 & Hb2 & _).
        assert (Hbx : b <> x) by (intros ->; apply Hxl, list_elem_of_here).
        pose proof (nodes_ok_sep _ _ _ _ Hok Hb Hx Hbx) as Hbx'.
        split; [reflexivity|]. split.
        -- unfold PREV_FREE.
           change (GET (PUT (PUT (PUT h (x + 8) b) b x) x NULL) b = x).
           rewrite GET_PUT_ne by lia. apply GET_PUT_eq. unfold WORD in *. lia.
        -- assert (ENb : NEXT_FREE (set_free_listp (PUT (PUT (PUT h (x + 8) b) b x) x NULL) x) b
                         = NEXT_FREE h b).
           { rewrite !NEXT_FREE_eq by (unfold WORD in *; lia).
             change (GET (PUT (PUT (PUT h (x + 8) b) b x) x NULL) (b + 8) = GET h (b + 8)).
             rewrite !GET_PUT_ne by lia. reflexivity. }
           rewrite ENb. eapply dll_frame; [|exact Hd].
           intros y Hy.
           assert (Hy' : y ∈ x :: b :: l') by (do 2 apply list_elem_of_further; exact Hy).
           destruct (nodes_ok_in _ _ _ Hok Hy') as (Hy1 & Hy2 & _).
           assert (Hyx : y <> x).
           { intros ->. apply Hxl. apply list_elem_of_further. exact Hy. }
           assert (Hyb : y <> b).
           { intros ->. apply NoDup_cons in Hnd as [N _]. contradiction. }
           pose proof (nodes_ok_sep _ _ _ _ Hok Hy' Hx Hyx).
           pose proof (nodes_ok_sep _ _ _ _ Hok Hy' Hb Hyb).
           split.
           ++ unfold PREV_FREE.
              change (GET (PUT (PUT (PUT h (x + 8) b) b x) x NULL) y = GET h y).
              rewrite !GET_PUT_ne by lia. reflexivity.
           ++ rewrite !NEXT_FREE_eq by (unfold WORD in *; lia).
              change (GET (PUT (PUT (PUT h (x + 8) b) b x) x NULL) (y + 8) = GET h (y + 8)).
              rewrite !GET_PUT_ne by lia. reflexivity.
  - eapply frame_trans; [|apply frame_set_free_listp].
    eapply frame_trans; [|apply frame_PUT_prev; exact Hx].
    eapply frame_trans; [apply frame_PUT_next; exact Hx|].
    destruct Hfb as [->|Hfl]; [apply frame_PUT_S|].
    apply frame_PUT_prev. apply list_elem_of_further. exact Hfl.
Qed.

(** ** Geometry of block tables *)

(** Case analysis on a lookup in an updated table, in a hypothesis. *)
Ltac lkh H :=
  repeat first [rewrite lookup_insert in H | rewrite lookup_delete in H];
  repeat match type of H with
         | context [decide (?a = ?b)] => destruct (decide (a = b))
         end;
  try discriminate H.

(** A lookup in an updated table, in the goal. *)
Ltac lk :=
  repeat first [rewrite lookup_insert | rewrite lookup_delete];
  repeat match goal with
         | |- context [decide (?a = ?b)] => destruct (decide (a = b))
         end;
  try (exfalso; lia); try congruence; eauto.

Lemma geom_set lo brk M x s a a' :
  geom lo brk M -> M !! x = Some (s, a) -> a' = 0 \/ a' = 1 ->
  geom lo brk (<[x := (s, a')]> M).
Proof.
  intros G Hx Ha. pose proof (g_block _ _ _ G _ _ _ Hx) as Bx.
  assert (Hold : forall bp s0 a0, <[x := (s, a')]> M !! bp = Some (s0, a0) ->
            exists a1, M !! bp = Some (s0, a1)).
  { intros bp s0 a0 H. lkh H; [injection H as <- <-; subst; eauto|eauto]. }
  assert (Hnew : forall bp s0 a0, M !! bp = Some (s0, a0) ->
            exists a1, <[x := (s, a')]> M !! bp = Some (s0, a1)).
  { intros bp s0 a0 H. destruct (decide (x = bp)) as [->|Hn].
    - rewrite Hx in H. injection H as <- <-. exists a'. lk.
    - exists a0. lk. }
  constructor.
  - intros bp s0 a0 H. lkh H.
    + injection H as <- <-. subst. lia.
    + exact (g_block _ _ _ G _ _ _ H).
  - intros bp s0 a0 H. destruct (Hold _ _ _ H) as [a1 H1].
    destruct (g_succ _ _ _ G _ _ _ H1) as [E|[[s2 a2] E]]; [left; exact E|right].
    destruct (Hnew _ _ _ E) as [a3 E3]. eauto.
  - intros bp s0 a0 H. destruct (Hold _ _ _ H) as [a1 H1].
    destruct (g_pred _ _ _ G _ _ _ H1) as [E|(p & sp & ap & Hp & E)]; [left; exact E|right].
    destruct (Hnew _ _ _ Hp) as [a3 E3]. eauto.
  - intros b1 s1 a1 b2 s2 a2 H1 H2.
    destruct (Hold _ _ _ H1) as [? O1]. destruct (Hold _ _ _ H2) as [? O2].
    exact (g_disj _ _ _ G _ _ _ _ _ _ O1 O2).
  - destruct (g_first _ _ _ G) as [[s0 a0] Hv].
    destruct (Hnew _ _ _ Hv) as [a3 E3]. eauto.
  - destruct (g_last _ _ _ G) as (p & sp & ap & Hp & E).
    destruct (Hnew _ _ _ Hp) as [a3 E3]. eauto.
Qed.

Lemma geom_merge lo brk M x s1 a1 s2 a2 a :
  geom lo brk M -> M !! x = Some (s1, a1) -> M !! (x + s1) = Some (s2, a2) ->
  a = 0 \/ a = 1 ->
  geom lo brk (<[x := (s1 + s2, a)]> (delete (x + s1) M)).
Proof.
  intros G Hx Hy Ha.
  pose proof (g_block _ _ _ G _ _ _ Hx) as Bx.
  pose proof (g_block _ _ _ G _ _ _ Hy) as By.
  set (M' := <[x := (s1 + s2, a)]> (delete (x + s1) M)).
  assert (Hold : forall bp s0 a0, M' !! bp = Some (s0, a0) ->
            (bp = x /\ s0 = s1 + s2 /\ a0 = a)
            \/ (bp <> x /\ bp <> x + s1 /\ M !! bp = Some (s0, a0))).
  { intros bp s0 a0 H. unfold M' in H. lkh H.
    - injection H as <- <-. left. auto.
    - right. auto. }
  assert (Hnew : forall bp s0 a0, M !! bp = Some (s0, a0) -> bp <> x -> bp <> x + s1 ->
            M' !! bp = Some (s0, a0)).
  { intros bp s0 a0 H N1 N2. unfold M'. lk. }
  assert (Hx' : M' !! x = Some (s1 + s2, a)) by (unfold M'; lk).
  constructor.
  - intros bp s0 a0 H. destruct (Hold _ _ _ H) as [(-> & -> & ->)|(N1 & N2 & H')].
    + repeat split; try lia. clear -Bx By. Z.div_mod_to_equations. lia.
    + exact (g_block _ _ _ G _ _ _ H').
  - intros bp s0 a0 H. destruct (Hold _ _ _ H) as [(-> & -> & ->)|(N1 & N2 & H')].
    + destruct (g_succ _ _ _ G _ _ _ Hy) as [E|[[s3 a3] E]]; [left; lia|right].
      pose proof (g_block _ _ _ G _ _ _ E).
      exists (s3, a3). replace (x + (s1 + s2)) with (x + s1 + s2) by lia.
      apply Hnew; [exact E|lia|lia].
    + destruct (g_succ _ _ _ G _ _ _ H') as [E|[[s3 a3] E]]; [left; exact E|right].
      destruct (decide (bp + s0 = x)) as [Ex|Nx]; [rewrite Ex; eauto|].
      exists (s3, a3). apply Hnew; [exact E|exact Nx|].
      intros Ey. pose proof (g_disj _ _ _ G _ _ _ _ _ _ H' Hx).
      pose proof (g_block _ _ _ G _ _ _ H'). lia.
  - intros bp s0 a0 H. destruct (Hold _ _ _ H) as [(-> & -> & ->)|(N1 & N2 & H')].
    + destruct (g_pred _ _ _ G _ _ _ Hx) as [E|(p & sp & ap & Hp & E)]; [left; exact E|right].
      pose proof (g_block _ _ _ G _ _ _ Hp).
      exists p, sp, ap. split; [apply Hnew; [exact Hp|lia|lia]|exact E].
    + destruct (g_pred _ _ _ G _ _ _ H') as [E|(p & sp & ap & Hp & E)]; [left; exact E|right].
      destruct (decide (p = x + s1)) as [->|Np].
      * rewrite Hy in Hp. injection Hp as <- <-.
        exists x, (s1 + s2), a. split; [exact Hx'|lia].
      * destruct (decide (p = x)) as [->|Npx].
        -- rewrite Hx in Hp. injection Hp as <- <-. congruence.
        -- exists p, sp, ap. split; [apply Hnew; assumption|exact E].
  - intros b1 t1 c1 b2 t2 c2 H1 H2.
    destruct (Hold _ _ _ H1) as [(-> & -> & ->)|(N1 & N2 & H1')];
    destruct (Hold _ _ _ H2) as [(-> & -> & ->)|(N3 & N4 & H2')].
    + left; reflexivity.
    + pose proof (g_disj _ _ _ G _ _ _ _ _ _ Hx H2').
      pose proof (g_disj _ _ _ G _ _ _ _ _ _ Hy H2').
      pose proof (g_block _ _ _ G _ _ _ H2'). lia.
    + pose proof (g_disj _ _ _ G _ _ _ _ _ _ Hx H1').
      pose proof (g_disj _ _ _ G _ _ _ _ _ _ Hy H1').
      pose proof (g_block _ _ _ G _ _ _ H1'). lia.
    + exact (g_disj _ _ _ G _ _ _ _ _ _ H1' H2').
  - destruct (g_first _ _ _ G) as [[s0 a0] Hv].
    destruct (decide (lo + 64 = x)) as [E|N]; [rewrite E; eauto|].
    exists (s0, a0). apply Hnew; [exact Hv|exact N|lia].
  - destruct (g_last _ _ _ G) as (p & sp & ap & Hp & E).
    destruct (decide (p = x + s1)) as [->|Np].
    + rewrite Hy in Hp. injection Hp as <- <-.
      exists x, (s1 + s2), a. split; [exact Hx'|lia].
    + destruct (decide (p = x)) as [->|Npx].
      * rewrite Hx in Hp. injection Hp as <- <-. lia.
      * exists p, sp, ap. split; [apply Hnew; assumption|exact E].
Qed.

Lemma geom_split lo brk M x s a s1 a1 a2 :
  geom lo brk M -> M !! x = Some (s, a) ->
  32 <= s1 -> 32 <= s - s1 -> s1 mod 8 = 0 ->
  a1 = 0 \/ a1 = 1 -> a2 = 0 \/ a2 = 1 ->
  geom lo brk (<[x := (s1, a1)]> (<[x + s1 := (s - s1, a2)]> M)).
Proof.
  intros G Hx L1 L2 Hm Ha1 Ha2.
  pose proof (g_block _ _ _ G _ _ _ Hx) as Bx.
  set (M' := <[x := (s1, a1)]> (<[x + s1 := (s - s1, a2)]> M)).
  assert (Hfresh : M !! (x + s1) = None).
  { destruct (M !! (x + s1)) as [[t c]|] eqn:E; [|reflexivity].
    pose proof (g_disj _ _ _ G _ _ _ _ _ _ Hx E).
    pose proof (g_block _ _ _ G _ _ _ E). lia. }
  assert (Hold : forall bp s0 a0, M' !! bp = Some (s0, a0) ->
            (bp = x /\ s0 = s1 /\ a0 = a1)
            \/ (bp = x + s1 /\ s0 = s - s1 /\ a0 = a2)
            \/ (bp <> x /\ bp <> x + s1 /\ M !! bp = Some (s0, a0))).
  { intros bp s0 a0 H. unfold M' in H. lkh H.
    - injection H as <- <-. left. auto.
    - injection H as <- <-. right. left. auto.
    - right. right. auto. }
  assert (Hnew : forall bp s0 a0, M !! bp = Some (s0, a0) -> bp <> x ->
            M' !! bp = Some (s0, a0)).
  { intros bp s0 a0 H N1. unfold M'. lk. }
  assert (Hx' : M' !! x = Some (s1, a1)) by (unfold M'; lk).
  assert (Hy' : M' !! (x + s1) = Some (s - s1, a2)) by (unfold M'; lk).
  constructor.
  - intros bp s0 a0 H.
    destruct (Hold _ _ _ H) as [(-> & -> & ->)|[(-> & -> & ->)|(N1 & N2 & H')]].
    + repeat split; lia.
    + repeat split; try lia; clear -Bx Hm; Z.div_mod_to_equations; lia.
    + exact (g_block _ _ _ G _ _ _ H').
  - intros bp s0 a0 H.
    destruct (Hold _ _ _ H) as [(-> & -> & ->)|[(-> & -> & ->)|(N1 & N2 & H')]].
    + right. eauto.
    + destruct (g_succ _ _ _ G _ _ _ Hx) as [E|[[s3 a3] E]]; [left; lia|right].
      pose proof (g_block _ _ _ G _ _ _ E).
      exists (s3, a3). replace (x + s1 + (s - s1)) with (x + s) by lia.
      apply Hnew; [exact E|lia].
    + destruct (g_succ _ _ _ G _ _ _ H') as [E|[[s3 a3] E]]; [left; exact E|right].
      destruct (decide (bp + s0 = x)) as [Ex|Nx]; [rewrite Ex; eauto|].
      exists (s3, a3). apply Hnew; assumption.
  - intros bp s0 a0 H.
    destruct (Hold _ _ _ H) as [(-> & -> & ->)|[(-> & -> & ->)|(N1 & N2 & H')]].
    + destruct (g_pred _ _ _ G _ _ _ Hx) as [E|(p & sp & ap & Hp & E)]; [left; exact E|right].
      pose proof (g_block _ _ _ G _ _ _ Hp).
      exists p, sp, ap. split; [apply Hnew; [exact Hp|lia]|exact E].
    + right. exists x, s1, a1. auto.
    + destruct (g_pred _ _ _ G _ _ _ H') as [E|(p & sp & ap & Hp & E)]; [left; exact E|right].
      destruct (decide (p = x)) as [->|Npx].
      * rewrite Hx in Hp. injection Hp as <- <-.
        exists (x + s1), (s - s1), a2. split; [exact Hy'|lia].
      * exists p, sp, ap. split; [apply Hnew; assumption|exact E].
  - intros b1 t1 c1 b2 t2 c2 H1 H2.
    destruct (Hold _ _ _ H1) as [(-> & -> & ->)|[(-> & -> & ->)|(N1 & N2 & H1')]];
    destruct (Hold _ _ _ H2) as [(-> & -> & ->)|[(-> & -> & ->)|(N3 & N4 & H2')]];
    try (left; reflexivity); try lia;
    try (pose proof (g_disj _ _ _ G _ _ _ _ _ _ Hx H2'); lia);
    try (pose proof (g_disj _ _ _ G _ _ _ _ _ _ Hx H1'); lia).
    exact (g_disj _ _ _ G _ _ _ _ _ _ H1' H2').
  - destruct (g_first _ _ _ G) as [[s0 a0] Hv].
    destruct (decide (lo + 64 = x)) as [E|N]; [rewrite E; eauto|].
    exists (s0, a0). apply Hnew; [exact Hv|exact N].
  - destruct (g_last _ _ _ G) as (p & sp & ap & Hp & E).
    destruct (decide (p = x)) as [->|Npx].
    + rewrite Hx in Hp. injection Hp as <- <-.
      exists (x + s1), (s - s1), a2. split; [exact Hy'|lia].
    + exists p, sp, ap. split; [apply Hnew; assumption|exact E].
Qed.

Lemma geom_brk_aligned lo brk M : geom lo brk M -> brk mod 8 = 0 /\ lo + 96 <= brk.
Proof.
  intros G. destruct (g_last _ _ _ G) as (p & sp & ap & Hp & E).
  pose proof (g_block _ _ _ G _ _ _ Hp) as B. split; [|lia].
  rewrite <- E. destruct B as (_ & _ & _ & B1 & B2 & _).
  clear -B1 B2. Z.div_mod_to_equations. lia.
Qed.

Lemma geom_extend lo brk M s :
  geom lo brk M -> 32 <= s -> s mod 8 = 0 ->
  geom lo (brk + s) (<[brk := (s, 0)]> M).
Proof.
  intros G L Hm.
  destruct (geom_brk_aligned _ _ _ G) as [Hb Hlo].
  set (M' := <[brk := (s, 0)]> M).
  assert (Hfresh : M !! brk = None).
  { destruct (M !! brk) as [[t c]|] eqn:E; [|reflexivity].
    pose proof (g_block _ _ _ G _ _ _ E). lia. }
  assert (Hold : forall bp s0 a0, M' !! bp = Some (s0, a0) ->
            (bp = brk /\ s0 = s /\ a0 = 0) \/ (bp <> brk /\ M !! bp = Some (s0, a0))).
  { intros bp s0 a0 H. unfold M' in H. lkh H.
    - injection H as <- <-. left. auto.
    - right. auto. }
  assert (Hnew : forall bp s0 a0, M !! bp = Some (s0, a0) -> M' !! bp = Some (s0, a0)).
  { intros bp s0 a0 H. unfold M'. lk. }
  assert (Hx' : M' !! brk = Some (s, 0)) by (unfold M'; lk).
  constructor.
  - intros bp s0 a0 H. destruct (Hold _ _ _ H) as [(-> & -> & ->)|(N1 & H')].
    + repeat split; try lia; left; reflexivity.
    + pose proof (g_block _ _ _ G _ _ _ H'). repeat split; try lia; tauto.
  - intros bp s0 a0 H. destruct (Hold _ _ _ H) as [(-> & -> & ->)|(N1 & H')].
    + left. reflexivity.
    + right. destruct (g_succ _ _ _ G _ _ _ H') as [E|[[s3 a3] E]]; [rewrite E; eauto|eauto].
  - intros bp s0 a0 H. destruct (Hold _ _ _ H) as [(-> & -> & ->)|(N1 & H')].
    + right. destruct (g_last _ _ _ G) as (p & sp & ap & Hp & E). eauto 6.
    + destruct (g_pred _ _ _ G _ _ _ H') as [E|(p & sp & ap & Hp & E)]; [left; exact E|right].
      eauto 6.
  - intros b1 t1 c1 b2 t2 c2 H1 H2.
    destruct (Hold _ _ _ H1) as [(-> & -> & ->)|(N1 & H1')];
    destruct (Hold _ _ _ H2) as [(-> & -> & ->)|(N3 & H2')].
    + left; reflexivity.
    + pose proof (g_block _ _ _ G _ _ _ H2'). lia.
    + pose proof (g_block _ _ _ G _ _ _ H1'). lia.
    + exact (g_disj _ _ _ G _ _ _ _ _ _ H1' H2').
  - destruct (g_first _ _ _ G) as [[s0 a0] Hv]. eauto.
  - exists brk, s, 0. auto.
Qed.

Lemma geom_nodes_ok lo brk M l :
  geom lo brk M -> 0 < lo -> brk < WORD ->
  (forall x, x ∈ l -> is_Some (M !! x)) ->
  nodes_ok (lo + 8) l.
Proof.
  intros G Hlo Hbrk Hl. split; [lia|]. split.
  - rewrite Forall_forall. intros x Hx. destruct (Hl x Hx) as [[s a] E].
    pose proof (g_block _ _ _ G _ _ _ E). lia.
  - intros x y Hx Hy. destruct (Hl x Hx) as [[s a] E]. destruct (Hl y Hy) as [[s' a'] E'].
    pose proof (g_block _ _ _ G _ _ _ E). pose proof (g_block _ _ _ G _ _ _ E').
    pose proof (g_disj _ _ _ G _ _ _ _ _ _ E E'). lia.
Qed.

(** ** Reading blocks *)

Lemma HDRP_eq bp : 4 <= bp < WORD -> HDRP bp = bp - 4.
Proof. intros H. unfold HDRP, WSIZE. apply w32_small. lia. Qed.

Lemma block_read h bp s a :
  4 <= bp -> bp + s < WORD -> 0 <= s -> s mod 8 = 0 -> a = 0 \/ a = 1 ->
  GET h (bp - 4) = s + a ->
  HDRP bp = bp - 4 /\ GET_SIZE h (HDRP bp) = s /\ GET_ALLOC h (HDRP bp) = a
  /\ NEXT_BLKP h bp = bp + s.
Proof.
  intros H4 Hw Hs Hm Ha E.
  assert (EH : HDRP bp = bp - 4) by (apply HDRP_eq; lia).
  destruct (tag_read h (bp - 4) s a E Hs Hm Ha) as [E1 E2].
  rewrite EH. repeat split; try assumption.
  unfold NEXT_BLKP, WSIZE. rewrite (w32_small (bp - 4)) by lia. rewrite E1. apply w32_small. lia.
Qed.

Lemma FTRP_eq h bp s :
  GET_SIZE h (HDRP bp) = s -> 8 <= bp + s -> bp + s < WORD + 8 -> FTRP h bp = bp + s - 8.
Proof.
  intros E H1 H2. unfold FTRP, DSIZE. rewrite E. apply w32_small. lia.
Qed.

Lemma prev_read h bp sp ap :
  8 <= bp < WORD -> 0 <= sp <= bp -> sp mod 8 = 0 -> ap = 0 \/ ap = 1 ->
  GET h (bp - 8) = sp + ap ->
  PREV_BLKP h bp = bp - sp.
Proof.
  intros Hb Hs Hm Ha E. unfold PREV_BLKP, DSIZE. rewrite (w32_small (bp - 8)) by lia.
  destruct (tag_read h (bp - 8) sp ap E (proj1 Hs) Hm Ha) as [E1 _].
  rewrite E1. apply w32_small. lia.
Qed.

Section Reading.
Context {h : heap} {M : gmap Z (Z * Z)}.
Hypothesis T : heap_tags h M.

Let lo := mem_start_brk h.
Let brk := mem_brk h.

Lemma inv_bounds bp s a :
  M !! bp = Some (s, a) ->
  lo + 64 <= bp /\ bp + s <= brk /\ brk < WORD /\ 32 <= s /\ s mod 8 = 0
  /\ bp mod 8 = 0 /\ (a = 0 \/ a = 1) /\ 0 < lo.
Proof.
  intros Hb. pose proof (g_block _ _ _ (ht_geom _ _ T) _ _ _ Hb) as B.
  pose proof (ht_brk _ _ T). pose proof (ht_lo _ _ T).
  unfold lo, brk. repeat split; try lia; tauto.
Qed.

Lemma inv_block_read bp s a :
  M !! bp = Some (s, a) ->
  HDRP bp = bp - 4 /\ GET_SIZE h (HDRP bp) = s /\ GET_ALLOC h (HDRP bp) = a
  /\ NEXT_BLKP h bp = bp + s /\ FTRP h bp = bp + s - 8.
Proof.
  intros Hb. pose proof (inv_bounds _ _ _ Hb) as B.
  destruct (ht_tags _ _ T _ _ _ Hb) as [T1 T2].
  destruct (block_read h bp s a) as (E1 & E2 & E3 & E4); try lia; try tauto.
  repeat split; try assumption. apply FTRP_eq; [exact E2|lia|lia].
Qed.

Lemma inv_prev_first bp s a :
  M !! bp = Some (s, a) -> bp = lo + 64 -> PREV_BLKP h bp = bp.
Proof.
  intros Hb E. pose proof (inv_bounds _ _ _ Hb) as B.
  assert (EP : PREV_BLKP h bp = bp - 0).
  { apply (prev_read h bp 0 0); [lia|lia|reflexivity|left; reflexivity|].
    rewrite E. replace (lo + 64 - 8) with (lo + 56) by lia.
    exact (ht_pad _ _ T). }
  rewrite EP. lia.
Qed.

Lemma inv_prev_pred p sp ap s a :
  M !! p = Some (sp, ap) -> M !! (p + sp) = Some (s, a) ->
  PREV_BLKP h (p + sp) = p.
Proof.
  intros Hp Hb. pose proof (inv_bounds _ _ _ Hp) as Bp.
  pose proof (inv_bounds _ _ _ Hb) as B.
  destruct (ht_tags _ _ T _ _ _ Hp) as [T1 T2].
  assert (EP : PREV_BLKP h (p + sp) = p + sp - sp).
  { apply (prev_read h (p + sp) sp ap); [lia|lia|tauto|tauto|].
    exact T2. }
  rewrite EP. lia.
Qed.

Lemma inv_prev_alloc_first bp s a :
  M !! bp = Some (s, a) -> bp = lo + 64 -> prev_alloc h bp = true.
Proof.
  intros Hb E. unfold prev_alloc. rewrite (inv_prev_first _ _ _ Hb E).
  rewrite Z.eqb_refl. apply orb_true_r.
Qed.

Lemma inv_prev_alloc_pred p sp ap s a :
  M !! p = Some (sp, ap) -> M !! (p + sp) = Some (s, a) ->
  prev_alloc h (p + sp) = negb (ap =? 0).
Proof.
  intros Hp Hb. unfold prev_alloc. rewrite (inv_prev_pred _ _ _ _ _ Hp Hb).
  destruct (inv_block_read _ _ _ Hp) as (_ & _ & _ & _ & EF).
  destruct (ht_tags _ _ T _ _ _ Hp) as [T1 T2].
  pose proof (inv_bounds _ _ _ Hp) as Bp.
  assert (EA : GET_ALLOC h (p + sp - 8) = ap).
  { apply (tag_read h (p + sp - 8) sp ap T2); [lia|tauto|tauto]. }
  rewrite EF, EA.
  destruct (Z.eqb_spec p (p + sp)); [lia|]. apply orb_false_r.
Qed.

Lemma inv_next_alloc_last bp s a :
  M !! bp = Some (s, a) -> bp + s = brk -> next_alloc h bp = true.
Proof.
  intros Hb E. unfold next_alloc.
  destruct (inv_block_read _ _ _ Hb) as (_ & _ & _ & EN & _).
  pose proof (inv_bounds _ _ _ Hb) as B.
  rewrite EN, HDRP_eq by lia. rewrite E.
  assert (EA : GET_ALLOC h (brk - 4) = 1).
  { apply (tag_read h (brk - 4) 0 1); [|lia|reflexivity|right; reflexivity].
    exact (ht_epilogue _ _ T). }
  rewrite EA. reflexivity.
Qed.

Lemma inv_next_alloc_succ bp s a sn an :
  M !! bp = Some (s, a) -> M !! (bp + s) = Some (sn, an) ->
  next_alloc h bp = negb (an =? 0).
Proof.
  intros Hb Hn. unfold next_alloc.
  destruct (inv_block_read _ _ _ Hb) as (_ & _ & _ & EN & _).
  destruct (inv_block_read _ _ _ Hn) as (_ & _ & EA & _ & _).
  rewrite EN, EA. reflexivity.
Qed.

End Reading.

Lemma heap_inv_tags ex out h M fl : heap_inv ex out h M fl -> heap_tags h M.
Proof.
  intros I. constructor.
  - exact (inv_lo _ _ _ _ _ I).
  - pose proof (inv_brk _ _ _ _ _ I). pose proof (inv_max _ _ _ _ _ I). lia.
  - exact (inv_pad _ _ _ _ _ I).
  - exact (inv_epilogue _ _ _ _ _ I).
  - exact (inv_geom _ _ _ _ _ I).
  - exact (inv_tags _ _ _ _ _ I).
Qed.

Section Invariant.
Context {ex out : option Z} {h : heap} {M : gmap Z (Z * Z)} {fl : list Z}.
Hypothesis I : heap_inv ex out h M fl.

Lemma inv_nodes_ok l :
  (forall x, x ∈ l -> is_Some (M !! x)) -> nodes_ok (sentinel h) l.
Proof.
  intros Hl. unfold sentinel, DSIZE.
  apply (geom_nodes_ok _ _ _ _ (inv_geom _ _ _ _ _ I)); [|
    pose proof (inv_brk _ _ _ _ _ I); pose proof (inv_max _ _ _ _ _ I); lia | exact Hl].
  exact (inv_lo _ _ _ _ _ I).
Qed.

Lemma inv_fl_block x : x ∈ fl -> exists s, M !! x = Some (s, 0).
Proof. intros Hx. apply (inv_fl _ _ _ _ _ I) in Hx. tauto. Qed.

End Invariant.

(** ** Re-establishing the invariant after a merge *)

(** Tag words and the fixed words of the arena lie off the link fields of
    every block. *)
Lemma links_off_tags lo brk M l b s a :
  geom lo brk M -> M !! b = Some (s, a) ->
  (forall y, y ∈ l -> is_Some (M !! y)) ->
  Forall (fun y => b - 4 + 4 <= y \/ y + 12 <= b - 4) l
  /\ Forall (fun y => b + s - 8 + 4 <= y \/ y + 12 <= b + s - 8) l.
Proof.
  intros G Hb Hl. pose proof (g_block _ _ _ G _ _ _ Hb) as B.
  split; rewrite Forall_forall; intros y Hy; destruct (Hl y Hy) as [[sy ay] Ey];
    pose proof (g_block _ _ _ G _ _ _ Ey) as By;
    pose proof (g_disj _ _ _ G _ _ _ _ _ _ Hb Ey); lia.
Qed.

Lemma links_off_fixed lo brk M l q :
  geom lo brk M -> (forall y, y ∈ l -> is_Some (M !! y)) ->
  q + 4 <= lo + 64 \/ brk - 4 <= q ->
  Forall (fun y => q + 4 <= y \/ y + 12 <= q) l.
Proof.
  intros G Hl Hq. rewrite Forall_forall. intros y Hy. destruct (Hl y Hy) as [[sy ay] Ey].
  pose proof (g_block _ _ _ G _ _ _ Ey) as By. lia.
Qed.

Lemma merged_inv h h' M fl bp sb M' r total rest :
  heap_inv (Some bp) (Some bp) h M fl ->
  M !! bp = Some (sb, 0) ->
  geom (mem_start_brk h) (mem_brk h) M' ->
  is_Some (M !! r) ->
  M' !! r = Some (total, 0) ->
  (forall b s a, b <> r -> M' !! b = Some (s, a) ->
     M !! b = Some (s, a) /\ (b + s <= r \/ r + total <= b)) ->
  (forall b s a, M !! b = Some (s, a) -> b + s <= r \/ r + total <= b ->
     M' !! b = Some (s, a)) ->
  r <= bp < r + total ->
  (forall p sp ap, M !! p = Some (sp, ap) -> p + sp = r -> ap = 1) ->
  (forall sn an, M !! (r + total) = Some (sn, an) -> an = 1) ->
  frame (sentinel h) (bp :: fl) [r - 4; r + total - 8] h h' ->
  GET h' (r - 4) = total -> GET h' (r + total - 8) = total ->
  dll h' (sentinel h) NULL (free_listp h') (r :: rest) ->
  NoDup (r :: rest) ->
  (forall y, y ∈ rest <-> y ∈ fl /\ (y < r \/ r + total <= y)) ->
  heap_inv None None h' M' (r :: rest).
Proof.
  intros I Hb G' [[sr ar] Hr] Hr' Hold Hkeep Hbp Hpn Hnn F T1 T2 D ND Hrest.
  pose proof F as (F1 & F2 & F3 & F4 & _).
  pose proof (inv_geom _ _ _ _ _ I) as G.
  pose proof (inv_lo _ _ _ _ _ I) as Hlo.
  assert (Hbl : forall y, y ∈ bp :: fl -> is_Some (M !! y)).
  { intros y Hy. apply elem_of_cons in Hy as [->|Hy]; [eauto|].
    destruct (inv_fl_block I y Hy) as [s Hs]. eauto. }
  pose proof (g_block _ _ _ G' _ _ _ Hr') as Br'.
  pose proof (g_block _ _ _ G _ _ _ Hr) as Br.
  destruct (geom_brk_aligned _ _ _ G) as [_ Hbrk].
  assert (Hfix : forall q, q + 4 <= mem_start_brk h + 60 \/ mem_brk h - 4 <= q ->
            q + 4 <= sentinel h \/ sentinel h + 4 <= q ->
            GET h' q = GET h q).
  { intros q Hq HS. eapply frame_GET; [exact F|exact HS| |].
    - eapply links_off_fixed; [exact G|exact Hbl|lia].
    - constructor; [lia|constructor; [lia|constructor]]. }
  constructor.
  - rewrite F1. exact Hlo.
  - rewrite F1. exact (inv_align _ _ _ _ _ I).
  - rewrite F2, F3. exact (inv_brk _ _ _ _ _ I).
  - rewrite F3. exact (inv_max _ _ _ _ _ I).
  - rewrite F4, F1. exact (inv_heap_listp _ _ _ _ _ I).
  - rewrite F1, Hfix; [exact (inv_sentinel _ _ _ _ _ I)|lia|unfold sentinel, DSIZE; lia].
  - rewrite F1, Hfix; [exact (inv_pad _ _ _ _ _ I)|lia|unfold sentinel, DSIZE; lia].
  - rewrite F2, Hfix; [exact (inv_epilogue _ _ _ _ _ I)|lia|unfold sentinel, DSIZE; lia].
  - rewrite F1, F2. exact G'.
  - intros b s a Hb'. destruct (decide (b = r)) as [->|Nr].
    + rewrite Hr' in Hb'. injection Hb' as <- <-. rewrite T1, T2. lia.
    + destruct (Hold _ _ _ Nr Hb') as [Hm Hout].
      destruct (inv_tags _ _ _ _ _ I _ _ _ Hm) as [E1 E2].
      pose proof (g_block _ _ _ G _ _ _ Hm) as Bb.
      destruct (links_off_tags _ _ _ (bp :: fl) _ _ _ G Hm Hbl) as [L1 L2].
      split; [rewrite <- E1|rewrite <- E2].
      * eapply frame_GET; [exact F|unfold sentinel, DSIZE; lia|exact L1|].
        constructor; [lia|constructor; [lia|constructor]].
      * eapply frame_GET; [exact F|unfold sentinel, DSIZE; lia|exact L2|].
        constructor; [lia|constructor; [lia|constructor]].
  - intros b s s' H1 H2. exfalso.
    destruct (decide (b = r)) as [->|Nr].
    + rewrite Hr' in H1. injection H1 as <-.
      assert (N : r + total <> r) by lia.
      destruct (Hold _ _ _ N H2) as [Hm _]. specialize (Hnn _ _ Hm). lia.
    + destruct (Hold _ _ _ Nr H1) as [Hm Hout].
      destruct (decide (b + s = r)) as [E|N].
      * specialize (Hpn _ _ _ Hm E). lia.
      * destruct (Hold _ _ _ N H2) as [Hm2 Hout2].
        pose proof (g_block _ _ _ G _ _ _ Hm). pose proof (g_block _ _ _ G _ _ _ Hm2).
        destruct (inv_noadj _ _ _ _ _ I _ _ _ Hm Hm2) as [E|E]; injection E as E; lia.
  - unfold sentinel in *. rewrite F1. exact D.
  - exact ND.
  - intros x. split.
    + intros Hx. split; [|discriminate].
      apply elem_of_cons in Hx as [->|Hx]; [eauto|].
      apply Hrest in Hx as [Hx Hout].
      destruct (inv_fl_block I x Hx) as [s Hs]. exists s. apply Hkeep; [exact Hs|].
      pose proof (g_disj _ _ _ G _ _ _ _ _ _ Hs Hr).
      pose proof (g_block _ _ _ G _ _ _ Hs). lia.
    + intros [[s Hs] _]. destruct (decide (x = r)) as [->|Nr]; [apply list_elem_of_here|].
      apply list_elem_of_further. destruct (Hold _ _ _ Nr Hs) as [Hm Hout].
      pose proof (g_block _ _ _ G _ _ _ Hm).
      apply Hrest. split; [|lia].
      apply (inv_fl _ _ _ _ _ I). split; [eauto|]. intros E. injection E as E. lia.
Qed.

(** ** The steps of [coalesce] *)

Lemma put_tags hd S l rest prev first r total :
  0 <= total < WORD -> 8 <= total ->
  Forall (fun y => 0 <= y /\ y + 8 < WORD
                   /\ (y + 12 <= r - 4 \/ r + total - 4 <= y)) rest ->
  dll hd S prev first rest ->
  let h3 := PUT (PUT hd (r - 4) total) (r + total - 8) total in
  dll h3 S prev first rest
  /\ GET h3 (r - 4) = total /\ GET h3 (r + total - 8) = total
  /\ frame S l [r - 4; r + total - 8] hd h3
  /\ free_listp h3 = free_listp hd.
Proof.
  intros Ht H8 Hr D h3. rewrite Forall_forall in Hr.
  split; [|split; [|split; [|split]]].
  - eapply dll_frame; [|exact D]. intros y Hy. destruct (Hr y Hy) as (Y0 & Y1 & Y2).
    split.
    + unfold PREV_FREE, h3. rewrite !GET_PUT_ne by lia. reflexivity.
    + rewrite !NEXT_FREE_eq by lia. unfold h3. rewrite !GET_PUT_ne by lia. reflexivity.
  - unfold h3. rewrite GET_PUT_ne by lia. apply GET_PUT_eq. exact Ht.
  - unfold h3. apply GET_PUT_eq. exact Ht.
  - unfold h3. eapply frame_trans; apply frame_PUT_W.
    + apply list_elem_of_here.
    + apply list_elem_of_further, list_elem_of_here.
  - reflexivity.
Qed.

Lemma coalesce_finish h h3 M fl bp sb M' r total rest :
  heap_inv (Some bp) (Some bp) h M fl ->
  M !! bp = Some (sb, 0) ->
  geom (mem_start_brk h) (mem_brk h) M' ->
  is_Some (M !! r) ->
  M' !! r = Some (total, 0) ->
  (forall b s a, b <> r -> M' !! b = Some (s, a) ->
     M !! b = Some (s, a) /\ (b + s <= r \/ r + total <= b)) ->
  (forall b s a, M !! b = Some (s, a) -> b + s <= r \/ r + total <= b ->
     M' !! b = Some (s, a)) ->
  r <= bp < r + total ->
  (forall p sp ap, M !! p = Some (sp, ap) -> p + sp = r -> ap = 1) ->
  (forall sn an, M !! (r + total) = Some (sn, an) -> an = 1) ->
  r ∈ bp :: fl ->
  frame (sentinel h) (bp :: fl) [r - 4; r + total - 8] h h3 ->
  GET h3 (r - 4) = total -> GET h3 (r + total - 8) = total ->
  dll h3 (sentinel h) NULL (free_listp h3) rest ->
  NoDup rest ->
  (forall y, y ∈ rest <-> y ∈ fl /\ (y < r \/ r + total <= y)) ->
  coalesced h fl bp r total M' (freelist h3 r).
Proof.
  intros I Hb G' HrM Hr' Hold Hkeep Hbp Hpn Hnn Hrin F T1 T2 D ND Hrest.
  pose proof (inv_geom _ _ _ _ _ I) as G.
  pose proof (g_block _ _ _ G' _ _ _ Hr') as Br'.
  destruct HrM as [[sr ar] Hr]. pose proof (g_block _ _ _ G _ _ _ Hr) as Br.
  assert (HrestM : forall y, y ∈ rest -> exists s, M !! y = Some (s, 0) /\
             (y + s <= r \/ r + total <= y)).
  { intros y Hy. apply Hrest in Hy as [Hy Hout].
    destruct (inv_fl_block I y Hy) as [s Hs]. exists s. split; [exact Hs|].
    pose proof (g_disj _ _ _ G _ _ _ _ _ _ Hs Hr).
    pose proof (g_block _ _ _ G _ _ _ Hs). lia. }
  assert (Hok : nodes_ok (sentinel h) (r :: rest)).
  { apply (inv_nodes_ok I). intros y Hy. apply elem_of_cons in Hy as [->|Hy]; [eauto|].
    destruct (HrestM y Hy) as (s & Hs & _). eauto. }
  assert (Hnd : NoDup (r :: rest)).
  { apply NoDup_cons. split; [|exact ND]. intros Hy. apply Hrest in Hy. lia. }
  destruct (freelist_spec h3 _ rest r Hok Hnd D) as (D' & Hf & Fr).
  assert (Fr' : frame (sentinel h) (bp :: fl) [r - 4; r + total - 8] h3 (freelist h3 r)).
  { eapply frame_incl; [| |exact Fr].
    - intros y Hy. apply elem_of_cons in Hy as [->|Hy]; [exact Hrin|].
      apply list_elem_of_further. apply Hrest in Hy. tauto.
    - intros a Ha. inversion Ha. }
  assert (Hoff : Forall (fun y => r - 4 + 4 <= y \/ y + 12 <= r - 4) (r :: rest)
                 /\ Forall (fun y => r + total - 8 + 4 <= y \/ y + 12 <= r + total - 8) (r :: rest)).
  { split; (constructor; [lia|]); rewrite Forall_forall; intros y Hy;
      destruct (HrestM y Hy) as (s & Hs & Hout);
      pose proof (g_block _ _ _ G _ _ _ Hs); lia. }
  destruct Hoff as [Hoff1 Hoff2].
  pose proof (inv_lo _ _ _ _ _ I) as Hlo.
  exists rest. split; [|split; [exact Hrest|split; [|exact Hf]]].
  - eapply (merged_inv h _ M fl bp sb M' r total rest);
      [exact I|exact Hb|exact G'|eauto|exact Hr'|exact Hold|exact Hkeep|exact Hbp
      |exact Hpn|exact Hnn| | | | |exact Hnd|exact Hrest].
    + eapply frame_trans; eassumption.
    + transitivity (GET h3 (r - 4)); [|exact T1].
      eapply frame_GET; [exact Fr|unfold sentinel, DSIZE; lia|exact Hoff1|constructor].
    + transitivity (GET h3 (r + total - 8)); [|exact T2].
      eapply frame_GET; [exact Fr|unfold sentinel, DSIZE; lia|exact Hoff2|constructor].
    + rewrite Hf. rewrite Hf in D'. exact D'.
  - eapply frame_trans; eassumption.
Qed.

Lemma heap_tags_frame h h' M l :
  heap_tags h M -> frame (sentinel h) l [] h h' ->
  (forall y, y ∈ l -> is_Some (M !! y)) ->
  heap_tags h' M.
Proof.
  intros T F Hl. pose proof F as (F1 & F2 & F3 & F4 & _).
  pose proof (ht_geom _ _ T) as G. pose proof (ht_lo _ _ T) as Hlo.
  destruct (geom_brk_aligned _ _ _ G) as [_ Hbrk].
  constructor.
  - rewrite F1. exact Hlo.
  - rewrite F2. exact (ht_brk _ _ T).
  - rewrite F1, <- (ht_pad _ _ T). eapply frame_GET; [exact F|unfold sentinel, DSIZE; lia| |constructor].
    eapply links_off_fixed; [exact G|exact Hl|lia].
  - rewrite F2, <- (ht_epilogue _ _ T). eapply frame_GET; [exact F|unfold sentinel, DSIZE; lia| |constructor].
    eapply links_off_fixed; [exact G|exact Hl|lia].
  - rewrite F1, F2. exact G.
  - intros b s a Hb. destruct (ht_tags _ _ T _ _ _ Hb) as [E1 E2].
    pose proof (g_block _ _ _ G _ _ _ Hb) as Bb.
    destruct (links_off_tags _ _ _ l _ _ _ G Hb Hl) as [L1 L2].
    split; [rewrite <- E1|rewrite <- E2].
    + eapply frame_GET; [exact F|unfold sentinel, DSIZE; lia|exact L1|constructor].
    + eapply frame_GET; [exact F|unfold sentinel, DSIZE; lia|exact L2|constructor].
Qed.

Lemma delete_node h S fl x :
  nodes_ok S fl -> NoDup fl -> dll h S NULL (free_listp h) fl -> x ∈ fl ->
  exists rest,
    dll (delete_block h x) S NULL (free_listp (delete_block h x)) rest
    /\ NoDup rest
    /\ (forall y, y ∈ rest <-> y ∈ fl /\ y <> x)
    /\ frame S fl [] h (delete_block h x).
Proof.
  intros Hok Hnd D Hx. apply list_elem_of_split in Hx as (l1 & l2 & ->).
  destruct (delete_block_spec h S l1 x l2 Hok Hnd D) as [D' F].
  exists (l1 ++ l2).
  apply NoDup_app in Hnd as (N1 & N2 & N3). apply NoDup_cons in N3 as [N3 N4].
  split; [exact D'|]. split; [|split].
  - apply NoDup_app. split; [exact N1|]. split; [|exact N4].
    intros y Hy1 Hy2. apply (N2 y Hy1). apply list_elem_of_further. exact Hy2.
  - intros y. rewrite !elem_of_app, elem_of_cons. split.
    + intros [Hy|Hy]; (split; [tauto|]); intros ->.
      * apply (N2 x Hy). apply list_elem_of_here.
      * contradiction.
    + intros [[Hy|[->|Hy]] Hn]; tauto.
  - eapply frame_incl; [| |exact F]; [|auto].
    intros y. rewrite !elem_of_app, elem_of_cons. tauto.
Qed.

Lemma pred_unique lo brk M p1 s1 a1 p2 s2 a2 :
  geom lo brk M -> M !! p1 = Some (s1, a1) -> M !! p2 = Some (s2, a2) ->
  p1 + s1 = p2 + s2 -> p1 = p2 /\ s1 = s2 /\ a1 = a2.
Proof.
  intros G H1 H2 E.
  pose proof (g_block _ _ _ G _ _ _ H1). pose proof (g_block _ _ _ G _ _ _ H2).
  pose proof (g_disj _ _ _ G _ _ _ _ _ _ H1 H2).
  assert (p1 = p2) by lia. subst p2. rewrite H1 in H2. injection H2 as -> ->. auto.
Qed.

Lemma pred_allocated_spec h M bp p sp ap :
  geom (mem_start_brk h) (mem_brk h) M -> pred_allocated h M bp ->
  M !! p = Some (sp, ap) -> p + sp = bp -> ap = 1.
Proof.
  intros G [E|(p' & sp' & Hp' & E)] Hp Ep.
  - pose proof (g_block _ _ _ G _ _ _ Hp). unfold first_block, OVERHEAD in E. lia.
  - destruct (pred_unique _ _ _ _ _ _ _ _ _ G Hp Hp') as (_ & _ & ->); [lia|reflexivity].
Qed.

Lemma free_pred_cases h M bp s a :
  geom (mem_start_brk h) (mem_brk h) M -> M !! bp = Some (s, a) ->
  exists P, free_pred h M bp P.
Proof.
  intros G Hb. destruct (g_pred _ _ _ G _ _ _ Hb) as [E|(p & sp & ap & Hp & E)].
  - exists None. left. exact E.
  - pose proof (g_block _ _ _ G _ _ _ Hp) as (_ & _ & _ & _ & _ & [->| ->]).
    + exists (Some (p, sp)). split; assumption.
    + exists None. right. eauto.
Qed.

Lemma free_next_cases h M bp s a :
  geom (mem_start_brk h) (mem_brk h) M -> M !! bp = Some (s, a) ->
  exists N, free_next h M bp s N.
Proof.
  intros G Hb. destruct (g_succ _ _ _ G _ _ _ Hb) as [E|[[sn an] Hn]].
  - exists None. left. exact E.
  - pose proof (g_block _ _ _ G _ _ _ Hn) as (_ & _ & _ & _ & _ & [->| ->]).
    + exists (Some (bp + s, sn)). split; [reflexivity|assumption].
    + exists None. right. eauto.
Qed.

Section Cases.
Context {h : heap} {M : gmap Z (Z * Z)} {fl : list Z} {bp s : Z}.
Hypothesis I : heap_inv (Some bp) (Some bp) h M fl.
Hypothesis Hb : M !! bp = Some (s, 0).

Lemma prev_alloc_true : pred_allocated h M bp -> prev_alloc h bp = true.
Proof.
  pose proof (heap_inv_tags _ _ _ _ _ I) as T.
  intros [E|(p & sp & Hp & E)].
  - exact (inv_prev_alloc_first T _ _ _ Hb E).
  - subst bp. rewrite (inv_prev_alloc_pred T _ _ _ _ _ Hp Hb). reflexivity.
Qed.

Lemma prev_alloc_false p sp :
  M !! p = Some (sp, 0) -> p + sp = bp -> prev_alloc h bp = false.
Proof.
  pose proof (heap_inv_tags _ _ _ _ _ I) as T.
  intros Hp E. subst bp. rewrite (inv_prev_alloc_pred T _ _ _ _ _ Hp Hb). reflexivity.
Qed.

Lemma next_alloc_true : free_next h M bp s None -> next_alloc h bp = true.
Proof.
  pose proof (heap_inv_tags _ _ _ _ _ I) as T.
  intros [E|(sn & Hn)].
  - exact (inv_next_alloc_last T _ _ _ Hb E).
  - rewrite (inv_next_alloc_succ T _ _ _ _ _ Hb Hn). reflexivity.
Qed.

Lemma next_alloc_false sn :
  M !! (bp + s) = Some (sn, 0) -> next_alloc h bp = false.
Proof.
  pose proof (heap_inv_tags _ _ _ _ _ I) as T.
  intros Hn. rewrite (inv_next_alloc_succ T _ _ _ _ _ Hb Hn). reflexivity.
Qed.

Lemma next_allocated_spec sn an :
  free_next h M bp s None -> M !! (bp + s) = Some (sn, an) -> an = 1.
Proof.
  pose proof (inv_geom _ _ _ _ _ I) as G.
  intros [E|(sn' & Hn')] Hn.
  - pose proof (g_block _ _ _ G _ _ _ Hn). lia.
  - rewrite Hn' in Hn. injection Hn as _ <-. reflexivity.
Qed.

Lemma fl_not_pending y : y ∈ fl -> y <> bp.
Proof. intros Hy ->. apply (inv_fl _ _ _ _ _ I) in Hy as [_ Hy]. congruence. Qed.

Lemma fl_outside y sy :
  y ∈ fl -> M !! y = Some (sy, 0) -> y + sy <= bp \/ bp + s <= y.
Proof.
  intros Hy Hs. pose proof (fl_not_pending y Hy).
  pose proof (g_disj _ _ _ (inv_geom _ _ _ _ _ I) _ _ _ _ _ _ Hs Hb). lia.
Qed.

Lemma free_in_fl x sx : M !! x = Some (sx, 0) -> x <> bp -> x ∈ fl.
Proof.
  intros Hx Hn. apply (inv_fl _ _ _ _ _ I). split; [eauto|congruence].
Qed.

End Cases.

(** ** The four cases of [coalesce] *)

Section Coalesce.
Context {h : heap} {M : gmap Z (Z * Z)} {fl : list Z} {bp s : Z}.
Hypothesis I : heap_inv (Some bp) (Some bp) h M fl.
Hypothesis Hb : M !! bp = Some (s, 0).

Let G := inv_geom _ _ _ _ _ I.
Let T := heap_inv_tags _ _ _ _ _ I.

(** Case 1: both neighbours allocated. *)
Lemma coalesce_case1 :
  free_pred h M bp None -> free_next h M bp s None ->
  fst (coalesce h bp) = bp
  /\ coalesced h fl bp bp s M (snd (coalesce h bp)).
Proof.
  intros HP HN. unfold coalesce.
  rewrite (prev_alloc_true I Hb HP), (next_alloc_true I Hb HN). simpl.
  split; [reflexivity|].
  pose proof (g_block _ _ _ G _ _ _ Hb) as B.
  destruct (inv_tags _ _ _ _ _ I _ _ _ Hb) as [T1 T2].
  apply (coalesce_finish h h M fl bp s M bp s fl I Hb G); eauto.
  - intros b s0 a0 Nb Hs0. split; [exact Hs0|].
    pose proof (g_disj _ _ _ G _ _ _ _ _ _ Hs0 Hb). lia.
  - lia.
  - intros p sp ap Hp E. exact (pred_allocated_spec _ _ _ _ _ _ G HP Hp E).
  - intros sn an Hn. exact (next_allocated_spec I _ _ HN Hn).
  - apply list_elem_of_here.
  - apply frame_refl.
  - rewrite T1. lia.
  - rewrite T2. lia.
  - exact (inv_dll _ _ _ _ _ I).
  - exact (inv_nodup _ _ _ _ _ I).
  - intros y. split; [|tauto]. intros Hy. split; [exact Hy|].
    destruct (inv_fl_block I y Hy) as [sy Hsy].
    pose proof (fl_outside I Hb y sy Hy Hsy).
    pose proof (g_block _ _ _ G _ _ _ Hsy). lia.
Qed.

(** Case 2: the successor is free. *)
Lemma coalesce_case2 n sn :
  free_pred h M bp None -> free_next h M bp s (Some (n, sn)) ->
  fst (coalesce h bp) = bp
  /\ coalesced h fl bp bp (s + sn) (<[bp := (s + sn, 0)]> (delete n M))
       (snd (coalesce h bp)).
Proof.
  intros HP [-> Hn].
  pose proof (g_block _ _ _ G _ _ _ Hb) as B.
  pose proof (g_block _ _ _ G _ _ _ Hn) as Bn.
  pose proof (ht_brk _ _ T) as Hbrk. pose proof (ht_lo _ _ T) as Hlo.
  destruct (inv_block_read T _ _ _ Hb) as (EH & ES & _ & EN & _).
  destruct (inv_block_read T _ _ _ Hn) as (_ & ESn & _ & _ & _).
  set (h1 := delete_block h (bp + s)).
  set (h2 := PUT h1 (bp - 4) (s + sn)).
  set (h3 := PUT h2 (bp + (s + sn) - 8) (s + sn)).
  assert (EC : coalesce h bp = (bp, freelist h3 bp)).
  { unfold coalesce.
    rewrite (prev_alloc_true I Hb HP), (next_alloc_false I Hb _ Hn).
    cbv beta iota zeta. rewrite EN, ES, ESn, EH, PACK_0.
    rewrite (w32_small (s + sn)) by lia. fold h1. fold h2.
    assert (EF : FTRP h2 bp = bp + (s + sn) - 8).
    { apply FTRP_eq; [|lia|lia]. rewrite EH.
      apply (tag_read h2 (bp - 4) (s + sn) 0); [|lia| |left; reflexivity].
      - unfold h2. rewrite GET_PUT_eq by lia. lia.
      - destruct B as (_ & _ & _ & B1 & _). destruct Bn as (_ & _ & _ & B2 & _).
        clear -B1 B2. Z.div_mod_to_equations. lia. }
    rewrite EF. reflexivity. }
  rewrite EC. cbn [fst snd]. split; [reflexivity|].
  assert (Hnfl : bp + s ∈ fl) by (apply (free_in_fl I _ _ Hn); lia).
  assert (Hok : nodes_ok (sentinel h) fl).
  { apply (inv_nodes_ok I). intros y Hy. destruct (inv_fl_block I y Hy). eauto. }
  destruct (delete_node h _ fl (bp + s) Hok (inv_nodup _ _ _ _ _ I) (inv_dll _ _ _ _ _ I) Hnfl)
    as (rest & D1 & ND1 & Hrest1 & F1).
  assert (Hrest : forall y, y ∈ rest <-> y ∈ fl /\ (y < bp \/ bp + (s + sn) <= y)).
  { intros y. rewrite Hrest1. split; intros [Hy Hc]; (split; [exact Hy|]).
    - destruct (inv_fl_block I y Hy) as [sy Hsy].
      pose proof (fl_outside I Hb y sy Hy Hsy).
      pose proof (g_disj _ _ _ G _ _ _ _ _ _ Hsy Hn).
      pose proof (g_block _ _ _ G _ _ _ Hsy). lia.
    - lia. }
  assert (HrestM : forall y, y ∈ rest -> exists sy, M !! y = Some (sy, 0)
             /\ (y + sy <= bp \/ bp + (s + sn) <= y)).
  { intros y Hy. apply Hrest in Hy as [Hy Hc].
    destruct (inv_fl_block I y Hy) as [sy Hsy]. exists sy. split; [exact Hsy|].
    pose proof (fl_outside I Hb y sy Hy Hsy). lia. }
  destruct (put_tags h1 (sentinel h) (bp :: fl) rest NULL (free_listp h1) bp (s + sn))
    as (D3 & T1 & T2 & F3 & Efl); [lia|lia| |exact D1|].
  { rewrite Forall_forall. intros y Hy. destruct (HrestM y Hy) as (sy & Hsy & Hc).
    pose proof (g_block _ _ _ G _ _ _ Hsy). lia. }
  fold h2 in D3, T1, T2, F3, Efl. fold h3 in D3, T1, T2, F3, Efl.
  apply (coalesce_finish h h3 M fl bp s _ bp (s + sn) rest I Hb).
  - apply (geom_merge _ _ _ _ _ _ _ _ _ G Hb Hn). left; reflexivity.
  - eauto.
  - lk.
  - intros b s0 a0 Nb Hs0. lkh Hs0; try congruence. split; [exact Hs0|].
    pose proof (g_disj _ _ _ G _ _ _ _ _ _ Hs0 Hb).
    pose proof (g_disj _ _ _ G _ _ _ _ _ _ Hs0 Hn).
    pose proof (g_block _ _ _ G _ _ _ Hs0). lia.
  - intros b s0 a0 Hs0 Hc. pose proof (g_block _ _ _ G _ _ _ Hs0). lk.
  - lia.
  - intros p sp ap Hp E. exact (pred_allocated_spec _ _ _ _ _ _ G HP Hp E).
  - intros sn' an' Hn'. replace (bp + (s + sn)) with (bp + s + sn) in Hn' by lia.
    pose proof (g_block _ _ _ G _ _ _ Hn') as (_ & _ & _ & _ & _ & [->| ->]); [|reflexivity].
    destruct (inv_noadj _ _ _ _ _ I _ _ _ Hn Hn') as [E|E]; injection E as E; lia.
  - apply list_elem_of_here.
  - eapply frame_trans; [|exact F3].
    eapply frame_incl; [| |exact F1]; [|intros a Ha; inversion Ha].
    intros y Hy. apply list_elem_of_further. exact Hy.
  - exact T1.
  - exact T2.
  - rewrite Efl. exact D3.
  - exact ND1.
  - exact Hrest.
Qed.

(** Case 3: the predecessor is free. *)
Lemma coalesce_case3 p sp :
  free_pred h M bp (Some (p, sp)) -> free_next h M bp s None ->
  fst (coalesce h bp) = p
  /\ coalesced h fl bp p (sp + s) (<[p := (sp + s, 0)]> (delete bp M))
       (snd (coalesce h bp)).
Proof.
  intros [Hp E] HN.
  assert (Hb' : M !! (p + sp) = Some (s, 0)) by (rewrite E; exact Hb).
  pose proof (g_block _ _ _ G _ _ _ Hb) as B.
  pose proof (g_block _ _ _ G _ _ _ Hp) as Bp.
  pose proof (ht_brk _ _ T) as Hbrk. pose proof (ht_lo _ _ T) as Hlo.
  destruct (inv_block_read T _ _ _ Hb) as (_ & ES & _ & _ & _).
  destruct (inv_block_read T _ _ _ Hp) as (EHp & ESp & _ & _ & _).
  pose proof (inv_prev_pred T _ _ _ _ _ Hp Hb') as EPv. rewrite E in EPv.
  set (h1 := delete_block h p).
  set (h2 := PUT h1 (p - 4) (sp + s)).
  set (h3 := PUT h2 (p + (sp + s) - 8) (sp + s)).
  assert (EC : coalesce h bp = (p, freelist h3 p)).
  { unfold coalesce.
    rewrite (prev_alloc_false I Hb _ _ Hp E), (next_alloc_true I Hb HN).
    cbv beta iota zeta. rewrite EPv, ES, ESp, EHp, PACK_0.
    rewrite (w32_small (s + sp)) by lia. replace (s + sp) with (sp + s) by lia.
    fold h1. fold h2.
    assert (EF : FTRP h2 p = p + (sp + s) - 8).
    { apply FTRP_eq; [|lia|lia]. rewrite EHp.
      apply (tag_read h2 (p - 4) (sp + s) 0); [|lia| |left; reflexivity].
      - unfold h2. rewrite GET_PUT_eq by lia. lia.
      - destruct B as (_ & _ & _ & B1 & _). destruct Bp as (_ & _ & _ & B2 & _).
        clear -B1 B2. Z.div_mod_to_equations. lia. }
    rewrite EF. reflexivity. }
  rewrite EC. cbn [fst snd]. split; [reflexivity|].
  assert (Hpfl : p ∈ fl) by (apply (free_in_fl I _ _ Hp); lia).
  assert (Hok : nodes_ok (sentinel h) fl).
  { apply (inv_nodes_ok I). intros y Hy. destruct (inv_fl_block I y Hy). eauto. }
  destruct (delete_node h _ fl p Hok (inv_nodup _ _ _ _ _ I) (inv_dll _ _ _ _ _ I) Hpfl)
    as (rest & D1 & ND1 & Hrest1 & F1).
  assert (Hrest : forall y, y ∈ rest <-> y ∈ fl /\ (y < p \/ p + (sp + s) <= y)).
  { intros y. rewrite Hrest1. split; intros [Hy Hc]; (split; [exact Hy|]).
    - destruct (inv_fl_block I y Hy) as [sy Hsy].
      pose proof (fl_outside I Hb y sy Hy Hsy).
      pose proof (g_disj _ _ _ G _ _ _ _ _ _ Hsy Hp).
      pose proof (g_block _ _ _ G _ _ _ Hsy). lia.
    - lia. }
  assert (HrestM : forall y, y ∈ rest -> exists sy, M !! y = Some (sy, 0)
             /\ (y + sy <= p \/ p + (sp + s) <= y)).
  { intros y Hy. apply Hrest in Hy as [Hy Hc].
    destruct (inv_fl_block I y Hy) as [sy Hsy]. exists sy. split; [exact Hsy|].
    pose proof (g_disj _ _ _ G _ _ _ _ _ _ Hsy Hp). lia. }
  destruct (put_tags h1 (sentinel h) (bp :: fl) rest NULL (free_listp h1) p (sp + s))
    as (D3 & T1 & T2 & F3 & Efl); [lia|lia| |exact D1|].
  { rewrite Forall_forall. intros y Hy. destruct (HrestM y Hy) as (sy & Hsy & Hc).
    pose proof (g_block _ _ _ G _ _ _ Hsy). lia. }
  fold h2 in D3, T1, T2, F3, Efl. fold h3 in D3, T1, T2, F3, Efl.
  apply (coalesce_finish h h3 M fl bp s _ p (sp + s) rest I Hb).
  - rewrite <- E. apply (geom_merge _ _ _ _ _ _ _ _ _ G Hp Hb'). left; reflexivity.
  - eauto.
  - lk.
  - intros b s0 a0 Nb Hs0. lkh Hs0; try congruence. split; [exact Hs0|].
    pose proof (g_disj _ _ _ G _ _ _ _ _ _ Hs0 Hb).
    pose proof (g_disj _ _ _ G _ _ _ _ _ _ Hs0 Hp).
    pose proof (g_block _ _ _ G _ _ _ Hs0). lia.
  - intros b s0 a0 Hs0 Hc. pose proof (g_block _ _ _ G _ _ _ Hs0). lk.
  - lia.
  - intros q sq aq Hq Eq.
    pose proof (g_block _ _ _ G _ _ _ Hq) as (_ & _ & ? & _ & _ & [->| ->]); [|reflexivity].
    rewrite <- Eq in Hp.
    destruct (inv_noadj _ _ _ _ _ I _ _ _ Hq Hp) as [E'|E']; injection E' as E'; lia.
  - intros sn' an' Hn'. replace (p + (sp + s)) with (bp + s) in Hn' by lia.
    exact (next_allocated_spec I _ _ HN Hn').
  - apply list_elem_of_further. exact Hpfl.
  - eapply frame_trans; [|exact F3].
    eapply frame_incl; [| |exact F1]; [|intros a Ha; inversion Ha].
    intros y Hy. apply list_elem_of_further. exact Hy.
  - exact T1.
  - exact T2.
  - rewrite Efl. exact D3.
  - exact ND1.
  - exact Hrest.
Qed.

(** Case 4: both neighbours are free. *)
Lemma coalesce_case4 p sp n sn :
  free_pred h M bp (Some (p, sp)) -> free_next h M bp s (Some (n, sn)) ->
  fst (coalesce h bp) = p
  /\ coalesced h fl bp p (sp + s + sn)
       (<[p := (sp + s + sn, 0)]> (delete n (delete bp M)))
       (snd (coalesce h bp)).
Proof.
  intros [Hp E] [-> Hn].
  assert (Hb' : M !! (p + sp) = Some (s, 0)) by (rewrite E; exact Hb).
  pose proof (g_block _ _ _ G _ _ _ Hb) as B.
  pose proof (g_block _ _ _ G _ _ _ Hp) as Bp.
  pose proof (g_block _ _ _ G _ _ _ Hn) as Bn.
  pose proof (ht_brk _ _ T) as Hbrk. pose proof (ht_lo _ _ T) as Hlo.
  destruct (inv_block_read T _ _ _ Hb) as (_ & ES & _ & EN & _).
  destruct (inv_block_read T _ _ _ Hp) as (EHp & ESp & _ & _ & _).
  destruct (inv_block_read T _ _ _ Hn) as (_ & ESn & _ & _ & _).
  pose proof (inv_prev_pred T _ _ _ _ _ Hp Hb') as EPv. rewrite E in EPv.
  assert (Hok : nodes_ok (sentinel h) fl).
  { apply (inv_nodes_ok I). intros y Hy. destruct (inv_fl_block I y Hy). eauto. }
  assert (HflM : forall y, y ∈ fl -> is_Some (M !! y)).
  { intros y Hy. destruct (inv_fl_block I y Hy). eauto. }
  assert (Hpfl : p ∈ fl) by (apply (free_in_fl I _ _ Hp); lia).
  assert (Hnfl : bp + s ∈ fl) by (apply (free_in_fl I _ _ Hn); lia).
  set (h1 := delete_block h p).
  destruct (delete_node h _ fl p Hok (inv_nodup _ _ _ _ _ I) (inv_dll _ _ _ _ _ I) Hpfl)
    as (rest1 & D1 & ND1 & Hrest1 & F1).
  fold h1 in D1, F1.
  pose proof (heap_tags_frame _ _ _ _ T F1 HflM) as T1'.
  destruct (inv_block_read T1' _ _ _ Hb) as (_ & _ & _ & EN1 & _).
  set (h2 := delete_block h1 (bp + s)).
  assert (Hn1 : bp + s ∈ rest1) by (apply Hrest1; split; [exact Hnfl|lia]).
  assert (Hok1 : nodes_ok (sentinel h) rest1).
  { eapply nodes_ok_incl; [|exact Hok]. intros y Hy. apply Hrest1 in Hy. tauto. }
  destruct (delete_node h1 _ rest1 (bp + s) Hok1 ND1 D1 Hn1)
    as (rest & D2 & ND2 & Hrest2 & F2).
  fold h2 in D2, F2.
  assert (ES1 : sentinel h1 = sentinel h).
  { unfold sentinel. destruct F1 as (-> & _). reflexivity. }
  assert (T2' : heap_tags h2 M).
  { eapply (heap_tags_frame h1 h2 M rest1 T1'); [rewrite ES1; exact F2|].
    intros y Hy. apply HflM. apply Hrest1 in Hy. tauto. }
  pose proof (inv_prev_pred T2' _ _ _ _ _ Hp Hb') as EPv2. rewrite E in EPv2.
  set (h3 := PUT h2 (p - 4) (sp + s + sn)).
  set (h4 := PUT h3 (p + (sp + s + sn) - 8) (sp + s + sn)).
  assert (EC : coalesce h bp = (p, freelist h4 p)).
  { unfold coalesce.
    rewrite (prev_alloc_false I Hb _ _ Hp E), (next_alloc_false I Hb _ Hn).
    cbv beta iota zeta. rewrite EPv, EN, ES, ESp, ESn. fold h1.
    rewrite EN1. fold h2. rewrite EPv2, EHp, PACK_0.
    rewrite (w32_small (sp + sn)) by lia.
    rewrite (w32_small (s + (sp + sn))) by lia.
    replace (s + (sp + sn)) with (sp + s + sn) by lia.
    fold h3.
    assert (EF : FTRP h3 p = p + (sp + s + sn) - 8).
    { apply FTRP_eq; [|lia|lia]. rewrite EHp.
      apply (tag_read h3 (p - 4) (sp + s + sn) 0); [|lia| |left; reflexivity].
      - unfold h3. rewrite GET_PUT_eq by lia. lia.
      - destruct B as (_ & _ & _ & B1 & _). destruct Bp as (_ & _ & _ & B2 & _).
        destruct Bn as (_ & _ & _ & B3 & _).
        clear -B1 B2 B3. Z.div_mod_to_equations. lia. }
    rewrite EF. reflexivity. }
  rewrite EC. cbn [fst snd]. split; [reflexivity|].
  assert (Hrest : forall y, y ∈ rest <-> y ∈ fl /\ (y < p \/ p + (sp + s + sn) <= y)).
  { intros y. rewrite Hrest2, Hrest1. split.
    - intros [[Hy Hc1] Hc2]. split; [exact Hy|].
      destruct (inv_fl_block I y Hy) as [sy Hsy].
      pose proof (fl_outside I Hb y sy Hy Hsy).
      pose proof (g_disj _ _ _ G _ _ _ _ _ _ Hsy Hp).
      pose proof (g_disj _ _ _ G _ _ _ _ _ _ Hsy Hn).
      pose proof (g_block _ _ _ G _ _ _ Hsy). lia.
    - intros [Hy Hc]. repeat split; [exact Hy|lia|lia]. }
  assert (HrestM : forall y, y ∈ rest -> exists sy, M !! y = Some (sy, 0)
             /\ (y + sy <= p \/ p + (sp + s + sn) <= y)).
  { intros y Hy. apply Hrest in Hy as [Hy Hc].
    destruct (inv_fl_block I y Hy) as [sy Hsy]. exists sy. split; [exact Hsy|].
    pose proof (g_disj _ _ _ G _ _ _ _ _ _ Hsy Hp). lia. }
  destruct (put_tags h2 (sentinel h) (bp :: fl) rest NULL (free_listp h2) p (sp + s + sn))
    as (D3 & T1 & T2 & F3 & Efl); [lia|lia| |exact D2|].
  { rewrite Forall_forall. intros y Hy. destruct (HrestM y Hy) as (sy & Hsy & Hc).
    pose proof (g_block _ _ _ G _ _ _ Hsy). lia. }
  fold h3 in D3, T1, T2, F3, Efl. fold h4 in D3, T1, T2, F3, Efl.
  assert (GM : geom (mem_start_brk h) (mem_brk h)
                 (<[p := (sp + s + sn, 0)]> (delete (bp + s) (delete bp M)))).
  { assert (G1 : geom (mem_start_brk h) (mem_brk h) (<[p := (sp + s, 0)]> (delete bp M))).
    { rewrite <- E. apply (geom_merge _ _ _ _ _ _ _ _ _ G Hp Hb'). left; reflexivity. }
    assert (L1 : <[p := (sp + s, 0)]> (delete bp M) !! p = Some (sp + s, 0)) by lk.
    assert (L2 : <[p := (sp + s, 0)]> (delete bp M) !! (p + (sp + s)) = Some (sn, 0)).
    { replace (p + (sp + s)) with (bp + s) by lia. lk. }
    pose proof (geom_merge _ _ _ _ _ _ _ _ 0 G1 L1 L2 (or_introl eq_refl)) as G2.
    replace (p + (sp + s)) with (bp + s) in G2 by lia.
    replace (sp + s + sn) with (sp + s + sn) by lia.
    assert (EM : <[p := (sp + s + sn, 0)]> (delete (bp + s) (<[p := (sp + s, 0)]> (delete bp M)))
                 = <[p := (sp + s + sn, 0)]> (delete (bp + s) (delete bp M))).
    { apply map_eq. intros k. lk. }
    rewrite <- EM. exact G2. }
  apply (coalesce_finish h h4 M fl bp s _ p (sp + s + sn) rest I Hb).
  - exact GM.
  - eauto.
  - lk.
  - intros b s0 a0 Nb Hs0. lkh Hs0; try congruence. split; [exact Hs0|].
    pose proof (g_disj _ _ _ G _ _ _ _ _ _ Hs0 Hb).
    pose proof (g_disj _ _ _ G _ _ _ _ _ _ Hs0 Hp).
    pose proof (g_disj _ _ _ G _ _ _ _ _ _ Hs0 Hn).
    pose proof (g_block _ _ _ G _ _ _ Hs0). lia.
  - intros b s0 a0 Hs0 Hc. pose proof (g_block _ _ _ G _ _ _ Hs0). lk.
  - lia.
  - intros q sq aq Hq Eq.
    pose proof (g_block _ _ _ G _ _ _ Hq) as (_ & _ & ? & _ & _ & [->| ->]); [|reflexivity].
    rewrite <- Eq in Hp.
    destruct (inv_noadj _ _ _ _ _ I _ _ _ Hq Hp) as [E'|E']; injection E' as E'; lia.
  - intros sn' an' Hn'. replace (p + (sp + s + sn)) with (bp + s + sn) in Hn' by lia.
    pose proof (g_block _ _ _ G _ _ _ Hn') as (_ & _ & _ & _ & _ & [->| ->]); [|reflexivity].
    destruct (inv_noadj _ _ _ _ _ I _ _ _ Hn Hn') as [E'|E']; injection E' as E'; lia.
  - apply list_elem_of_further. exact Hpfl.
  - eapply frame_trans; [|exact F3].
    eapply frame_trans.
    + eapply frame_incl; [| |exact F1]; [|intros a Ha; inversion Ha].
      intros y Hy. apply list_elem_of_further. exact Hy.
    + eapply frame_incl; [| |exact F2]; [|intros a Ha; inversion Ha].
      intros y Hy. apply list_elem_of_further. apply Hrest1 in Hy. tauto.
  - exact T1.
  - exact T2.
  - rewrite Efl. exact D3.
  - exact ND2.
  - exact Hrest.
Qed.

End Coalesce.

(** ** [coalesce], all cases *)

Lemma coalesce_spec h M fl bp s P N :
  heap_inv (Some bp) (Some bp) h M fl -> M !! bp = Some (s, 0) ->
  free_pred h M bp P -> free_next h M bp s N ->
  fst (coalesce h bp) = fst (fst (merge_table M bp s P N))
  /\ coalesced h fl bp (fst (fst (merge_table M bp s P N)))
       (snd (fst (merge_table M bp s P N))) (snd (merge_table M bp s P N))
       (snd (coalesce h bp)).
Proof.
  intros I Hb HP HN. destruct P as [[p sp]|], N as [[n sn]|]; cbn [merge_table fst snd].
  - exact (coalesce_case4 I Hb p sp n sn HP HN).
  - exact (coalesce_case3 I Hb p sp HP HN).
  - exact (coalesce_case2 I Hb n sn HP HN).
  - exact (coalesce_case1 I Hb HP HN).
Qed.

(** ** The free list as the loops see it *)

Lemma dll_free_chain h S prev first l :
  dll h S prev first l ->
  (forall x, x ∈ l -> GET_ALLOC h (HDRP x) = 0) ->
  GET_ALLOC h (HDRP S) <> 0 ->
  free_chain h first l.
Proof.
  revert prev first. induction l as [|x l IH]; intros prev first D Hf HS.
  - simpl in D. subst first. apply free_chain_end. exact HS.
  - cbn [dll] in D. destruct D as (-> & _ & D).
    apply free_chain_node; [apply Hf, list_elem_of_here|].
    eapply IH; [exact D| |exact HS].
    intros y Hy. apply Hf, list_elem_of_further, Hy.
Qed.

Lemma heap_inv_free_chain ex out h M fl :
  heap_inv ex out h M fl -> free_chain h (free_listp h) fl.
Proof.
  intros I. pose proof (heap_inv_tags _ _ _ _ _ I) as T.
  eapply dll_free_chain; [exact (inv_dll _ _ _ _ _ I)| |].
  - intros x Hx. destruct (inv_fl_block I x Hx) as [s Hs].
    destruct (inv_block_read T _ _ _ Hs) as (_ & _ & EA & _). exact EA.
  - pose proof (inv_lo _ _ _ _ _ I) as Hlo.
    pose proof (inv_brk _ _ _ _ _ I). pose proof (inv_max _ _ _ _ _ I).
    destruct (geom_brk_aligned _ _ _ (inv_geom _ _ _ _ _ I)).
    unfold sentinel, DSIZE. rewrite HDRP_eq by lia.
    replace (mem_start_brk h + 8 - 4) with (mem_start_brk h + 4) by lia.
    unfold GET_ALLOC. rewrite (inv_sentinel _ _ _ _ _ I). discriminate.
Qed.

(** The chain from a node is determined by the heap. *)
Lemma free_chain_unique h b l l' :
  free_chain h b l -> free_chain h b l' -> l = l'.
Proof.
  intros Hl. revert l'. induction Hl as [b Hb|b l Hb Hl IH]; intros l' C.
  - inversion C; subst; [reflexivity|contradiction].
  - inversion C; subst; [contradiction|]. f_equal. apply IH. assumption.
Qed.

(** ** Writing the tags of a block *)

(** The heap after the tags of block [x] were rewritten to size [sx] and
    allocated bit [ax], the rest of the table being as it was. *)
Lemma retag_frame h x sx v l :
  frame (sentinel h) l [x - 4; x + sx - 8] h (PUT (PUT h (x - 4) v) (x + sx - 8) v).
Proof.
  eapply frame_trans; apply frame_PUT_W.
  - apply list_elem_of_here.
  - apply list_elem_of_further, list_elem_of_here.
Qed.

Lemma retag_reads h x sx v :
  0 <= v < WORD -> 8 <= sx ->
  GET (PUT (PUT h (x - 4) v) (x + sx - 8) v) (x - 4) = v
  /\ GET (PUT (PUT h (x - 4) v) (x + sx - 8) v) (x + sx - 8) = v.
Proof.
  intros Hv Hs. split.
  - rewrite GET_PUT_ne by lia. apply GET_PUT_eq. exact Hv.
  - apply GET_PUT_eq. exact Hv.
Qed.

(** Transport of the invariant along a frame that spares the link fields
    of the listed nodes and the tags of the unchanged blocks. *)
Lemma inv_transport ex out ex' out' h h' M M' fl W :
  heap_inv ex out h M fl ->
  frame (sentinel h) [] W h h' ->
  free_listp h' = free_listp h ->
  geom (mem_start_brk h) (mem_brk h) M' ->
  (* the words of [W] are tag words inside the arena's block area *)
  Forall (fun a => mem_start_brk h + 60 <= a /\ a + 8 <= mem_brk h) W ->
  (* they are off the link fields of the listed nodes *)
  (forall y, y ∈ fl -> Forall (fun a => a + 4 <= y \/ y + 12 <= a) W) ->
  (* blocks of the new table: either unchanged and off [W], or retagged *)
  (forall b s a, M' !! b = Some (s, a) ->
     (M !! b = Some (s, a)
      /\ Forall (fun w => (b - 4 + 4 <= w \/ w + 4 <= b - 4)
                          /\ (b + s - 8 + 4 <= w \/ w + 4 <= b + s - 8)) W)
     \/ (GET h' (b - 4) = s + a /\ GET h' (b + s - 8) = s + a)) ->
  (forall b s s', M' !! b = Some (s, 0) -> M' !! (b + s) = Some (s', 0) ->
     ex' = Some b \/ ex' = Some (b + s)) ->
  (forall x, x ∈ fl <-> (exists s, M' !! x = Some (s, 0)) /\ out' <> Some x) ->
  heap_inv ex' out' h' M' fl.
Proof.
  intros I F Efl G' HW HWl Hbl Hadj Hfl.
  pose proof F as (F1 & F2 & F3 & F4 & _).
  pose proof (inv_geom _ _ _ _ _ I) as G.
  pose proof (inv_lo _ _ _ _ _ I) as Hlo.
  destruct (geom_brk_aligned _ _ _ G) as [_ Hbrk].
  assert (Hfix : forall q, q + 4 <= mem_start_brk h + 60 \/ mem_brk h - 4 <= q ->
            q + 4 <= sentinel h \/ sentinel h + 4 <= q ->
            GET h' q = GET h q).
  { intros q Hq HS. eapply frame_GET; [exact F|exact HS|constructor|].
    rewrite Forall_forall in *. intros a Ha. specialize (HW a Ha). lia. }
  constructor.
  - rewrite F1. exact Hlo.
  - rewrite F1. exact (inv_align _ _ _ _ _ I).
  - rewrite F2, F3. exact (inv_brk _ _ _ _ _ I).
  - rewrite F3. exact (inv_max _ _ _ _ _ I).
  - rewrite F4, F1. exact (inv_heap_listp _ _ _ _ _ I).
  - rewrite F1, Hfix; [exact (inv_sentinel _ _ _ _ _ I)|lia|unfold sentinel, DSIZE; lia].
  - rewrite F1, Hfix; [exact (inv_pad _ _ _ _ _ I)|lia|unfold sentinel, DSIZE; lia].
  - rewrite F2, Hfix; [exact (inv_epilogue _ _ _ _ _ I)|lia|unfold sentinel, DSIZE; lia].
  - rewrite F1, F2. exact G'.
  - intros b s a Hb. destruct (Hbl _ _ _ Hb) as [[Hm Hoff]|Hnew]; [|exact Hnew].
    destruct (inv_tags _ _ _ _ _ I _ _ _ Hm) as [E1 E2].
    pose proof (g_block _ _ _ G _ _ _ Hm) as Bb.
    split; [rewrite <- E1|rewrite <- E2].
    + eapply frame_GET; [exact F|unfold sentinel, DSIZE; lia|constructor|].
      rewrite Forall_forall in *. intros w Hw. specialize (Hoff w Hw). lia.
    + eapply frame_GET; [exact F|unfold sentinel, DSIZE; lia|constructor|].
      rewrite Forall_forall in *. intros w Hw. specialize (Hoff w Hw). lia.
  - exact Hadj.
  - rewrite Efl. unfold sentinel. rewrite F1.
    eapply dll_frame; [|exact (inv_dll _ _ _ _ _ I)].
    intros y Hy. destruct (inv_fl_block I y Hy) as [sy Hsy].
    pose proof (g_block _ _ _ G _ _ _ Hsy) as By.
    pose proof (inv_brk _ _ _ _ _ I). pose proof (inv_max _ _ _ _ _ I).
    specialize (HWl y Hy). split.
    + unfold PREV_FREE. eapply frame_GET; [exact F|unfold sentinel, DSIZE; lia|constructor|].
      rewrite Forall_forall in *. intros w Hw. specialize (HWl w Hw). lia.
    + rewrite !NEXT_FREE_eq by lia.
      eapply frame_GET; [exact F|unfold sentinel, DSIZE; lia|constructor|].
      rewrite Forall_forall in *. intros w Hw. specialize (HWl w Hw). lia.
  - exact (inv_nodup _ _ _ _ _ I).
  - exact Hfl.
Qed.

(** Tag words of a block are off the tag words of another block. *)
Lemma tags_off_block lo brk M b s a x sx ax :
  geom lo brk M -> M !! b = Some (s, a) -> M !! x = Some (sx, ax) -> b <> x ->
  Forall (fun w => (b - 4 + 4 <= w \/ w + 4 <= b - 4)
                   /\ (b + s - 8 + 4 <= w \/ w + 4 <= b + s - 8))
         [x - 4; x + sx - 8].
Proof.
  intros G Hb Hx Hn.
  pose proof (g_block _ _ _ G _ _ _ Hb). pose proof (g_block _ _ _ G _ _ _ Hx).
  pose proof (g_disj _ _ _ G _ _ _ _ _ _ Hb Hx).
  constructor; [lia|constructor; [lia|constructor]].
Qed.

Lemma tags_off_links lo brk M y sy ay x sx ax :
  geom lo brk M -> M !! y = Some (sy, ay) -> M !! x = Some (sx, ax) -> y <> x ->
  Forall (fun a => a + 4 <= y \/ y + 12 <= a) [x - 4; x + sx - 8].
Proof.
  intros G Hy Hx Hn.
  pose proof (g_block _ _ _ G _ _ _ Hy). pose proof (g_block _ _ _ G _ _ _ Hx).
  pose proof (g_disj _ _ _ G _ _ _ _ _ _ Hy Hx).
  constructor; [lia|constructor; [lia|constructor]].
Qed.

(** ** [mm_free] *)

Lemma free_prefix h M fl bp s :
  heap_inv None None h M fl -> M !! bp = Some (s, 1) ->
  heap_inv (Some bp) (Some bp) (PUT (PUT h (bp - 4) s) (bp + s - 8) s)
    (<[bp := (s, 0)]> M) fl.
Proof.
  intros I Hb. pose proof (inv_geom _ _ _ _ _ I) as G.
  pose proof (g_block _ _ _ G _ _ _ Hb) as B.
  pose proof (inv_brk _ _ _ _ _ I). pose proof (inv_max _ _ _ _ _ I).
  pose proof (inv_lo _ _ _ _ _ I).
  assert (Hfl : forall y, y ∈ fl -> exists sy, M !! y = Some (sy, 0) /\ y <> bp).
  { intros y Hy. destruct (inv_fl_block I y Hy) as [sy Hsy]. exists sy. split; [exact Hsy|].
    intros ->. rewrite Hb in Hsy. discriminate. }
  eapply (inv_transport None None (Some bp) (Some bp) h _ M _ fl [bp - 4; bp + s - 8] I).
  - apply retag_frame.
  - reflexivity.
  - apply (geom_set _ _ _ _ _ _ _ G Hb). left; reflexivity.
  - constructor; [lia|constructor; [lia|constructor]].
  - intros y Hy. destruct (Hfl y Hy) as (sy & Hsy & Hn).
    exact (tags_off_links _ _ _ _ _ _ _ _ _ G Hsy Hb Hn).
  - intros b s0 a0 Hb0. lkh Hb0.
    + injection Hb0 as <- <-. subst b. right.
      destruct (retag_reads h bp s s) as [E1 E2]; [lia|lia|]. rewrite E1, E2. lia.
    + left. split; [exact Hb0|]. exact (tags_off_block _ _ _ _ _ _ _ _ _ G Hb0 Hb ltac:(congruence)).
  - intros b s0 s1 Hf1 Hf2.
    destruct (decide (b = bp)) as [->|N1]; [left; reflexivity|].
    destruct (decide (b + s0 = bp)) as [E|N2]; [right; congruence|].
    exfalso. lkh Hf1; try congruence. lkh Hf2; try congruence.
    destruct (inv_noadj _ _ _ _ _ I _ _ _ Hf1 Hf2); discriminate.
  - intros x. rewrite (inv_fl _ _ _ _ _ I x). split.
    + intros [[sx Hsx] _]. split.
      * exists sx. lk.
      * intros E. injection E as ->. rewrite Hb in Hsx. discriminate.
    + intros [[sx Hsx] Hn]. split; [|discriminate].
      lkh Hsx; [congruence|eauto].
Qed.

Lemma mm_free_eq h M fl bp s :
  heap_inv None None h M fl -> M !! bp = Some (s, 1) ->
  mm_free h bp = snd (coalesce (PUT (PUT h (bp - 4) s) (bp + s - 8) s) bp).
Proof.
  intros I Hb. pose proof (heap_inv_tags _ _ _ _ _ I) as T.
  pose proof (inv_bounds T _ _ _ Hb) as B.
  destruct (inv_block_read T _ _ _ Hb) as (EH & ES & _ & _ & _).
  unfold mm_free. destruct (Z.eqb_spec bp NULL) as [E|_]; [unfold NULL in E; lia|].
  rewrite ES, EH, PACK_0.
  assert (EF : FTRP (PUT h (bp - 4) s) bp = bp + s - 8).
  { apply FTRP_eq; [|lia|lia]. rewrite EH.
    apply (tag_read _ (bp - 4) s 0); [|lia|tauto|left; reflexivity].
    rewrite GET_PUT_eq by lia. lia. }
  rewrite EF. reflexivity.
Qed.

(** ** [mm_free] keeps the invariant *)

Lemma mm_free_spec h M fl bp s :
  heap_inv None None h M fl -> M !! bp = Some (s, 1) ->
  exists P N,
    free_pred h (<[bp := (s, 0)]> M) bp P
    /\ free_next h (<[bp := (s, 0)]> M) bp s N
    /\ coalesced (PUT (PUT h (bp - 4) s) (bp + s - 8) s) fl bp
         (fst (fst (merge_table (<[bp := (s, 0)]> M) bp s P N)))
         (snd (fst (merge_table (<[bp := (s, 0)]> M) bp s P N)))
         (snd (merge_table (<[bp := (s, 0)]> M) bp s P N))
         (mm_free h bp).
Proof.
  intros I Hb. pose proof (free_prefix h M fl bp s I Hb) as I1.
  assert (Hb1 : <[bp := (s, 0)]> M !! bp = Some (s, 0)) by lk.
  destruct (free_pred_cases _ _ _ _ _ (inv_geom _ _ _ _ _ I1) Hb1) as [P HP].
  destruct (free_next_cases _ _ _ _ _ (inv_geom _ _ _ _ _ I1) Hb1) as [N HN].
  exists P, N. split; [exact HP|]. split; [exact HN|].
  rewrite (mm_free_eq h M fl bp s I Hb).
  exact (proj2 (coalesce_spec _ _ _ _ _ _ _ I1 Hb1 HP HN)).
Qed.

(** ** [extend_heap] *)

Lemma extend_prefix h M fl size :
  heap_inv None None h M fl -> 32 <= size -> size mod 8 = 0 ->
  mem_brk h + size <= mem_max_addr h ->
  heap_inv (Some (mem_brk h)) (Some (mem_brk h))
    (PUT (PUT (PUT (set_brk h (mem_brk h + size)) (mem_brk h - 4) size)
              (mem_brk h + size - 8) size) (mem_brk h + size - 4) 1)
    (<[mem_brk h := (size, 0)]> M) fl.
Proof.
  intros I Hs Hm Hmax. pose proof (inv_geom _ _ _ _ _ I) as G.
  pose proof (inv_max _ _ _ _ _ I) as HW. pose proof (inv_lo _ _ _ _ _ I) as Hlo.
  destruct (geom_brk_aligned _ _ _ G) as [Hba Hbrk].
  set (brk := mem_brk h) in *. set (lo := mem_start_brk h) in *.
  set (h3 := PUT (PUT (PUT (set_brk h (brk + size)) (brk - 4) size)
              (brk + size - 8) size) (brk + size - 4) 1).
  assert (Hget : forall q, q + 4 <= brk - 4 -> GET h3 q = GET h q).
  { intros q Hq. unfold h3. rewrite !GET_PUT_ne by lia. reflexivity. }
  constructor.
  - exact Hlo.
  - exact (inv_align _ _ _ _ _ I).
  - simpl. exact Hmax.
  - exact HW.
  - exact (inv_heap_listp _ _ _ _ _ I).
  - change (GET h3 (lo + 4) = 33). rewrite Hget by lia. exact (inv_sentinel _ _ _ _ _ I).
  - change (GET h3 (lo + 56) = 0). rewrite Hget by lia. exact (inv_pad _ _ _ _ _ I).
  - change (GET h3 (brk + size - 4) = 1). unfold h3. apply GET_PUT_eq. unfold WORD. lia.
  - change (geom lo (brk + size) (<[brk := (size, 0)]> M)).
    apply geom_extend; assumption.
  - intros b s a Hb. lkh Hb.
    + injection Hb as <- <-. subst b. unfold h3. split.
      * rewrite !GET_PUT_ne by lia. rewrite GET_PUT_eq by (unfold WORD in *; lia). lia.
      * rewrite GET_PUT_ne by lia. rewrite GET_PUT_eq by (unfold WORD in *; lia). lia.
    + destruct (inv_tags _ _ _ _ _ I _ _ _ Hb) as [E1 E2].
      pose proof (g_block _ _ _ G _ _ _ Hb). fold brk lo in H.
      rewrite !Hget by lia. auto.
  - intros b s s' Hf1 Hf2.
    destruct (decide (b = brk)) as [->|N1]; [left; reflexivity|].
    destruct (decide (b + s = brk)) as [E|N2]; [right; congruence|].
    exfalso. lkh Hf1; try congruence. lkh Hf2; try congruence.
    destruct (inv_noadj _ _ _ _ _ I _ _ _ Hf1 Hf2); discriminate.
  - change (dll h3 (sentinel h) NULL (free_listp h) fl).
    eapply dll_frame; [|exact (inv_dll _ _ _ _ _ I)].
    intros y Hy. destruct (inv_fl_block I y Hy) as [sy Hsy].
    pose proof (g_block _ _ _ G _ _ _ Hsy). fold brk lo in H. split.
    + unfold PREV_FREE. apply Hget. lia.
    + rewrite !NEXT_FREE_eq by (unfold WORD in *; lia). apply Hget. lia.
  - exact (inv_nodup _ _ _ _ _ I).
  - intros x. rewrite (inv_fl _ _ _ _ _ I x). split.
    + intros [[sx Hsx] _]. pose proof (g_block _ _ _ G _ _ _ Hsx). fold brk lo in H.
      split.
      * exists sx. lk.
      * intros E. injection E as E. lia.
    + intros [[sx Hsx] Hn]. split; [|discriminate].
      lkh Hsx; [congruence|eauto].
Qed.

Lemma extend_heap_eq h M fl size :
  heap_inv None None h M fl -> 32 <= size -> size mod 8 = 0 ->
  mem_brk h + size <= mem_max_addr h ->
  extend_heap h (size / WSIZE)
  = coalesce (PUT (PUT (PUT (set_brk h (mem_brk h + size)) (mem_brk h - 4) size)
                (mem_brk h + size - 8) size) (mem_brk h + size - 4) 1) (mem_brk h).
Proof.
  intros I Hs Hm Hmax. pose proof (inv_geom _ _ _ _ _ I) as G.
  pose proof (inv_max _ _ _ _ _ I) as HW. pose proof (inv_lo _ _ _ _ _ I) as Hlo.
  destruct (geom_brk_aligned _ _ _ G) as [Hba Hbrk].
  unfold extend_heap, WSIZE.
  assert (E2 : (size / 4) mod 2 = 0) by (clear -Hm; Z.div_mod_to_equations; lia).
  rewrite E2. simpl (0 =? 0).  cbv iota.
  assert (E4 : size / 4 * 4 = size) by (clear -Hm; Z.div_mod_to_equations; lia).
  rewrite E4, (w32_small size) by lia.
  unfold mem_sbrk. destruct (Z.gtb_spec (mem_brk h + size) (mem_max_addr h)) as [?|_]; [lia|].
  destruct (Z.eqb_spec (mem_brk h) SBRK_FAIL) as [E|_]; [unfold SBRK_FAIL in E; lia|].
  set (h0 := set_brk h (mem_brk h + size)).
  rewrite HDRP_eq by lia. rewrite PACK_0.
  set (h1 := PUT h0 (mem_brk h - 4) size).
  assert (R1 : GET_SIZE h1 (mem_brk h - 4) = size).
  { apply (tag_read h1 _ size 0); [|lia|exact Hm|left; reflexivity].
    unfold h1. rewrite GET_PUT_eq by lia. lia. }
  assert (EF : FTRP h1 (mem_brk h) = mem_brk h + size - 8).
  { apply FTRP_eq; [|lia|lia]. rewrite HDRP_eq by lia. exact R1. }
  rewrite EF. set (h2 := PUT h1 (mem_brk h + size - 8) size).
  assert (EN : NEXT_BLKP h2 (mem_brk h) = mem_brk h + size).
  { unfold NEXT_BLKP, WSIZE. rewrite (w32_small (mem_brk h - 4)) by lia.
    assert (R2 : GET_SIZE h2 (mem_brk h - 4) = size).
    { apply (tag_read h2 _ size 0); [|lia|exact Hm|left; reflexivity].
      unfold h2, h1. rewrite GET_PUT_ne by lia. rewrite GET_PUT_eq by lia. lia. }
    rewrite R2. apply w32_small. lia. }
  rewrite EN, HDRP_eq by lia.
  replace (mem_brk h + size - 4) with (mem_brk h + size - 4) by lia.
  reflexivity.
Qed.

(** ** Rebuilding the invariant after tag and list updates *)

Lemma inv_rebuild ex out ex' out' h h' M M' fl fl' l W :
  heap_inv ex out h M fl ->
  frame (sentinel h) l W h h' ->
  (forall y, y ∈ l -> is_Some (M !! y)) ->
  geom (mem_start_brk h) (mem_brk h) M' ->
  Forall (fun a => mem_start_brk h + 60 <= a /\ a + 8 <= mem_brk h) W ->
  (forall b s a, M' !! b = Some (s, a) ->
     (M !! b = Some (s, a)
      /\ Forall (fun w => (b - 4 + 4 <= w \/ w + 4 <= b - 4)
                          /\ (b + s - 8 + 4 <= w \/ w + 4 <= b + s - 8)) W)
     \/ (GET h' (b - 4) = s + a /\ GET h' (b + s - 8) = s + a)) ->
  (forall b s s', M' !! b = Some (s, 0) -> M' !! (b + s) = Some (s', 0) ->
     ex' = Some b \/ ex' = Some (b + s)) ->
  dll h' (sentinel h) NULL (free_listp h') fl' ->
  NoDup fl' ->
  (forall x, x ∈ fl' <-> (exists s, M' !! x = Some (s, 0)) /\ out' <> Some x) ->
  heap_inv ex' out' h' M' fl'.
Proof.
  intros I F Hl G' HW Hbl Hadj D ND Hfl.
  pose proof F as (F1 & F2 & F3 & F4 & _).
  pose proof (inv_geom _ _ _ _ _ I) as G.
  pose proof (inv_lo _ _ _ _ _ I) as Hlo.
  destruct (geom_brk_aligned _ _ _ G) as [_ Hbrk].
  assert (Hfix : forall q, q + 4 <= mem_start_brk h + 60 \/ mem_brk h - 4 <= q ->
            q + 4 <= sentinel h \/ sentinel h + 4 <= q ->
            GET h' q = GET h q).
  { intros q Hq HS. eapply frame_GET; [exact F|exact HS| |].
    - eapply links_off_fixed; [exact G|exact Hl|lia].
    - rewrite Forall_forall in *. intros a Ha. specialize (HW a Ha). lia. }
  constructor.
  - rewrite F1. exact Hlo.
  - rewrite F1. exact (inv_align _ _ _ _ _ I).
  - rewrite F2, F3. exact (inv_brk _ _ _ _ _ I).
  - rewrite F3. exact (inv_max _ _ _ _ _ I).
  - rewrite F4, F1. exact (inv_heap_listp _ _ _ _ _ I).
  - rewrite F1, Hfix; [exact (inv_sentinel _ _ _ _ _ I)|lia|unfold sentinel, DSIZE; lia].
  - rewrite F1, Hfix; [exact (inv_pad _ _ _ _ _ I)|lia|unfold sentinel, DSIZE; lia].
  - rewrite F2, Hfix; [exact (inv_epilogue _ _ _ _ _ I)|lia|unfold sentinel, DSIZE; lia].
  - rewrite F1, F2. exact G'.
  - intros b s a Hb. destruct (Hbl _ _ _ Hb) as [[Hm Hoff]|Hnew]; [|exact Hnew].
    destruct (inv_tags _ _ _ _ _ I _ _ _ Hm) as [E1 E2].
    pose proof (g_block _ _ _ G _ _ _ Hm) as Bb.
    destruct (links_off_tags _ _ _ l _ _ _ G Hm Hl) as [L1 L2].
    split; [rewrite <- E1|rewrite <- E2].
    + eapply frame_GET; [exact F|unfold sentinel, DSIZE; lia|exact L1|].
      rewrite Forall_forall in *. intros w Hw. specialize (Hoff w Hw). lia.
    + eapply frame_GET; [exact F|unfold sentinel, DSIZE; lia|exact L2|].
      rewrite Forall_forall in *. intros w Hw. specialize (Hoff w Hw). lia.
  - exact Hadj.
  - unfold sentinel in *. rewrite F1. exact D.
  - exact ND.
  - exact Hfl.
Qed.

(** Tag writes inside block [x] leave the chain of the other nodes, and of
    [x] itself, as it is. *)
Lemma dll_tag_writes h h' lo brk M fl x c W :
  geom lo brk M -> 0 < lo -> brk < WORD ->
  M !! x = Some (c, 0) ->
  (forall y, y ∈ fl -> is_Some (M !! y)) ->
  frame (lo + 8) [] W h h' ->
  Forall (fun a => (a = x - 4 \/ x + 12 <= a) /\ a + 4 <= x + c - 4) W ->
  dll h (lo + 8) NULL (free_listp h) fl ->
  dll h' (lo + 8) NULL (free_listp h) fl.
Proof.
  intros G Hlo Hbrk Hx Hfl F HW D.
  pose proof (g_block _ _ _ G _ _ _ Hx) as Bx.
  eapply dll_frame; [|exact D]. intros y Hy.
  destruct (Hfl y Hy) as [[sy ay] Hsy].
  pose proof (g_block _ _ _ G _ _ _ Hsy) as By.
  pose proof (g_disj _ _ _ G _ _ _ _ _ _ Hsy Hx) as Hd.
  split.
  - unfold PREV_FREE. eapply frame_GET; [exact F|lia|constructor|].
    rewrite Forall_forall in *. intros a Ha. specialize (HW a Ha). lia.
  - rewrite !NEXT_FREE_eq by lia. eapply frame_GET; [exact F|lia|constructor|].
    rewrite Forall_forall in *. intros a Ha. specialize (HW a Ha). lia.
Qed.

(** ** [place] *)

Section Place.
Context {ex : option Z} {h : heap} {M : gmap Z (Z * Z)} {fl : list Z} {bp c : Z}.
Hypothesis I : heap_inv ex None h M fl.
Hypothesis Hex : ex = None \/ ex = Some bp.
Hypothesis Hb : M !! bp = Some (c, 0).

Let G := inv_geom _ _ _ _ _ I.
Let T := heap_inv_tags _ _ _ _ _ I.

Lemma place_fl_blocks : forall y, y ∈ fl -> is_Some (M !! y).
Proof. intros y Hy. destruct (inv_fl_block I y Hy). eauto. Qed.

Lemma place_bp_in_fl : bp ∈ fl.
Proof. apply (inv_fl _ _ _ _ _ I). split; [eauto|discriminate]. Qed.

(** The block is taken whole. *)
Lemma place_nosplit asize :
  0 <= asize <= c -> c - asize < 32 ->
  exists rest,
    heap_inv None None (place h bp asize) (<[bp := (c, 1)]> M) rest
    /\ (forall y, y ∈ rest <-> y ∈ fl /\ y <> bp)
    /\ frame (sentinel h) fl [bp - 4; bp + c - 8] h (place h bp asize).
Proof.
  intros Ha Hc.
  pose proof (inv_bounds T _ _ _ Hb) as B.
  destruct (inv_block_read T _ _ _ Hb) as (EH & ES & _ & _ & _).
  assert (Hc2 : c mod 2 = 0).
  { destruct B as (_ & _ & _ & _ & B1 & _). clear -B1. Z.div_mod_to_equations. lia. }
  set (h2 := PUT (PUT h (bp - 4) (c + 1)) (bp + c - 8) (c + 1)).
  assert (EP : place h bp asize = delete_block h2 bp).
  { unfold place. rewrite ES. rewrite (w32_small (c - asize)) by lia.
    destruct (Z.geb_spec (c - asize) OVERHEAD) as [?|_]; [unfold OVERHEAD in *; lia|].
    rewrite EH, PACK_1 by lia.
    assert (EF : FTRP (PUT h (bp - 4) (c + 1)) bp = bp + c - 8).
    { apply FTRP_eq; [|lia|lia]. rewrite EH.
      apply (tag_read _ (bp - 4) c 1); [|lia|tauto|right; reflexivity].
      rewrite GET_PUT_eq by lia. lia. }
    rewrite EF. reflexivity. }
  rewrite EP.
  assert (F2 : frame (sentinel h) [] [bp - 4; bp + c - 8] h h2) by apply retag_frame.
  assert (D2 : dll h2 (sentinel h) NULL (free_listp h2) fl).
  { refine (dll_tag_writes h h2 _ _ M fl bp c [bp - 4; bp + c - 8] G _ _ Hb
              place_fl_blocks F2 _ (inv_dll _ _ _ _ _ I)); [lia|lia|].
    constructor; [lia|constructor; [lia|constructor]]. }
  assert (Hok : nodes_ok (sentinel h) fl) by (apply (inv_nodes_ok I), place_fl_blocks).
  destruct (delete_node h2 _ fl bp Hok (inv_nodup _ _ _ _ _ I) D2 place_bp_in_fl)
    as (rest & D3 & ND3 & Hrest & F3).
  assert (F : frame (sentinel h) fl [bp - 4; bp + c - 8] h (delete_block h2 bp)).
  { eapply frame_trans.
    - eapply frame_incl; [| |exact F2]; [intros y Hy; inversion Hy|auto].
    - eapply frame_incl; [| |exact F3]; [auto|intros w Hw; inversion Hw]. }
  exists rest. split; [|split; [exact Hrest|exact F]].
  assert (T2 : GET h2 (bp - 4) = c + 1 /\ GET h2 (bp + c - 8) = c + 1).
  { apply retag_reads; lia. }
  eapply (inv_rebuild ex None None None h _ M _ fl rest fl [bp - 4; bp + c - 8] I F
            place_fl_blocks).
  - apply (geom_set _ _ _ _ _ _ _ G Hb). right; reflexivity.
  - constructor; [lia|constructor; [lia|constructor]].
  - intros b s a Hb0. lkh Hb0.
    + injection Hb0 as <- <-. subst b. right.
      destruct (links_off_tags _ _ _ fl _ _ _ G Hb place_fl_blocks) as [L1 L2].
      destruct T2 as [E1 E2]. split; [rewrite <- E1|rewrite <- E2].
      * eapply frame_GET; [exact F3|unfold sentinel, DSIZE; lia|exact L1|constructor].
      * eapply frame_GET; [exact F3|unfold sentinel, DSIZE; lia|exact L2|constructor].
    + left. split; [exact Hb0|].
      exact (tags_off_block _ _ _ _ _ _ _ _ _ G Hb0 Hb ltac:(congruence)).
  - intros b s s' Hf1 Hf2. exfalso. lkh Hf1; try congruence. lkh Hf2; try congruence.
    destruct (inv_noadj _ _ _ _ _ I _ _ _ Hf1 Hf2) as [E|E];
      destruct Hex as [E'|E']; congruence.
  - assert (Efl : free_listp h2 = free_listp h) by reflexivity.
    exact D3.
  - exact ND3.
  - intros x. rewrite Hrest, (inv_fl _ _ _ _ _ I x). split.
    + intros [[[sx Hsx] _] Hn]. split; [|discriminate]. exists sx. lk.
    + intros [[sx Hsx] _]. lkh Hsx. split; [|congruence].
      split; [eauto|discriminate].
Qed.

(** The block is split: the state in which [place] calls [coalesce] on
    the remainder. *)
Lemma place_split asize :
  32 <= asize -> asize mod 8 = 0 -> 32 <= c - asize ->
  exists rest h5,
    place h bp asize = snd (coalesce h5 (bp + asize))
    /\ heap_inv (Some (bp + asize)) (Some (bp + asize)) h5
         (<[bp := (asize, 1)]> (<[bp + asize := (c - asize, 0)]> M)) rest
    /\ (forall y, y ∈ rest <-> y ∈ fl /\ y <> bp)
    /\ frame (sentinel h) fl [bp - 4; bp + asize - 8; bp + asize - 4; bp + c - 8]
         h h5.
Proof.
  intros Ha Hm Hc.
  pose proof (inv_bounds T _ _ _ Hb) as B.
  destruct (inv_block_read T _ _ _ Hb) as (EH & ES & _ & _ & _).
  assert (Ha2 : asize mod 2 = 0) by (clear -Hm; Z.div_mod_to_equations; lia).
  assert (Hcm : (c - asize) mod 8 = 0).
  { destruct B as (_ & _ & _ & _ & B1 & _). clear -B1 Hm. Z.div_mod_to_equations. lia. }
  set (R := bp + asize).
  set (h2 := PUT (PUT h (bp - 4) (asize + 1)) (bp + asize - 8) (asize + 1)).
  assert (F2 : frame (sentinel h) [] [bp - 4; bp + asize - 8] h h2) by apply retag_frame.
  assert (D2 : dll h2 (sentinel h) NULL (free_listp h2) fl).
  { refine (dll_tag_writes h h2 _ _ M fl bp c [bp - 4; bp + asize - 8] G _ _ Hb
              place_fl_blocks F2 _ (inv_dll _ _ _ _ _ I)); [lia|lia|].
    constructor; [lia|constructor; [lia|constructor]]. }
  assert (Hok : nodes_ok (sentinel h) fl) by (apply (inv_nodes_ok I), place_fl_blocks).
  destruct (delete_node h2 _ fl bp Hok (inv_nodup _ _ _ _ _ I) D2 place_bp_in_fl)
    as (rest & D3 & ND3 & Hrest & F3).
  set (h3 := delete_block h2 bp) in *.
  destruct (retag_reads h bp asize (asize + 1)) as [T2a T2b]; [lia|lia|]. fold h2 in T2a, T2b.
  destruct (links_off_tags _ _ _ fl _ _ _ G Hb place_fl_blocks) as [L1 L2].
  assert (Loff : forall q, bp - 4 <= q -> q + 4 <= bp + c - 4 ->
            (q = bp - 4 \/ bp + 12 <= q) ->
            Forall (fun y => q + 4 <= y \/ y + 12 <= q) fl).
  { intros q Q1 Q2 Q3. rewrite Forall_forall. intros y Hy.
    destruct (place_fl_blocks y Hy) as [[sy ay] Hsy].
    pose proof (g_block _ _ _ G _ _ _ Hsy).
    pose proof (g_disj _ _ _ G _ _ _ _ _ _ Hsy Hb). lia. }
  assert (T3a : GET h3 (bp - 4) = asize + 1).
  { rewrite <- T2a. eapply frame_GET; [exact F3|unfold sentinel, DSIZE; lia| |constructor].
    apply Loff; lia. }
  assert (T3b : GET h3 (bp + asize - 8) = asize + 1).
  { rewrite <- T2b. eapply frame_GET; [exact F3|unfold sentinel, DSIZE; lia| |constructor].
    apply Loff; lia. }
  set (h5 := PUT (PUT h3 (R - 4) (c - asize)) (R + (c - asize) - 8) (c - asize)).
  assert (EP : place h bp asize = snd (coalesce h5 R)).
  { unfold place. rewrite ES. rewrite (w32_small (c - asize)) by lia.
    destruct (Z.geb_spec (c - asize) OVERHEAD) as [_|?]; [|unfold OVERHEAD in *; lia].
    rewrite EH, PACK_1 by lia.
    assert (EF : FTRP (PUT h (bp - 4) (asize + 1)) bp = bp + asize - 8).
    { apply FTRP_eq; [|lia|lia]. rewrite EH.
      apply (tag_read _ (bp - 4) asize 1); [|lia|tauto|right; reflexivity].
      rewrite GET_PUT_eq by lia. lia. }
    rewrite EF. fold h2. fold h3.
    assert (EN : NEXT_BLKP h3 bp = R).
    { apply (block_read h3 bp asize 1); try lia; try tauto. }
    rewrite EN, PACK_0.
    assert (EHR : HDRP R = R - 4) by (apply HDRP_eq; unfold R; lia).
    rewrite EHR.
    assert (EFR : FTRP (PUT h3 (R - 4) (c - asize)) R = R + (c - asize) - 8).
    { apply FTRP_eq; [|unfold R; lia|unfold R; lia]. rewrite EHR.
      apply (tag_read _ (R - 4) (c - asize) 0); [|lia|exact Hcm|left; reflexivity].
      rewrite GET_PUT_eq by lia. lia. }
    rewrite EFR. reflexivity. }
  assert (HrestM : forall y, y ∈ rest -> exists sy, M !! y = Some (sy, 0)
             /\ (y + sy <= bp \/ bp + c <= y)).
  { intros y Hy. apply Hrest in Hy as [Hy Hn].
    destruct (inv_fl_block I y Hy) as [sy Hsy]. exists sy. split; [exact Hsy|].
    pose proof (g_disj _ _ _ G _ _ _ _ _ _ Hsy Hb). lia. }
  destruct (put_tags h3 (sentinel h) fl rest NULL (free_listp h3) R (c - asize))
    as (D5 & T5a & T5b & F5 & Efl); [lia|lia| |exact D3|].
  { rewrite Forall_forall. intros y Hy. destruct (HrestM y Hy) as (sy & Hsy & Hc').
    pose proof (g_block _ _ _ G _ _ _ Hsy). unfold R. lia. }
  fold h5 in D5, T5a, T5b, F5, Efl.
  assert (F : frame (sentinel h) fl [bp - 4; bp + asize - 8; bp + asize - 4; bp + c - 8]
                h h5).
  { eapply frame_trans; [|eapply frame_trans].
    - eapply frame_incl; [| |exact F2]; [intros y Hy; inversion Hy|].
      intros w Hw. rewrite !elem_of_cons in *. tauto.
    - eapply frame_incl; [| |exact F3]; [auto|intros w Hw; inversion Hw].
    - eapply frame_incl; [| |exact F5]; [auto|].
      intros w Hw. rewrite !elem_of_cons in *. unfold R in Hw.
      destruct Hw as [->|[->|Hw]]; [right; right; left; lia|right; right; right; left; lia|
        inversion Hw]. }
  exists rest, h5. split; [exact EP|]. split; [|split; [exact Hrest|exact F]].
  eapply (inv_rebuild ex None (Some R) (Some R) h h5 M _ fl rest fl _ I F place_fl_blocks).
  - apply (geom_split _ _ _ _ _ _ _ _ _ G Hb); lia.
  - repeat (constructor; [lia|]). constructor.
  - intros b s a Hb0. unfold R in *. lkh Hb0.
    + injection Hb0 as <- <-. subst b. right. split.
      * transitivity (GET h3 (bp - 4)); [|exact T3a].
        eapply frame_GET; [exact F5|unfold sentinel, DSIZE; lia|apply Loff; lia|].
        constructor; [lia|constructor; [lia|constructor]].
      * transitivity (GET h3 (bp + asize - 8)); [|exact T3b].
        eapply frame_GET; [exact F5|unfold sentinel, DSIZE; lia|apply Loff; lia|].
        constructor; [lia|constructor; [lia|constructor]].
    + injection Hb0 as <- <-. subst b. right.
      replace (bp + asize + (c - asize) - 8) with (bp + asize + (c - asize) - 8) by lia.
      rewrite T5a, T5b. lia.
    + left. split; [exact Hb0|].
      pose proof (g_block _ _ _ G _ _ _ Hb0).
      pose proof (g_disj _ _ _ G _ _ _ _ _ _ Hb0 Hb).
      repeat (constructor; [lia|]). constructor.
  - intros b s s' Hf1 Hf2. unfold R in *.
    destruct (decide (b = bp + asize)) as [->|N1]; [left; reflexivity|].
    destruct (decide (b + s = bp + asize)) as [E|N2]; [right; congruence|].
    exfalso. lkh Hf1; try congruence. lkh Hf2; try congruence.
    destruct (inv_noadj _ _ _ _ _ I _ _ _ Hf1 Hf2) as [E|E];
      destruct Hex as [E'|E']; congruence.
  - rewrite Efl. exact D5.
  - exact ND3.
  - intros x. rewrite Hrest, (inv_fl _ _ _ _ _ I x). unfold R. split.
    + intros [[[sx Hsx] _] Hn].
      pose proof (g_block _ _ _ G _ _ _ Hsx).
      pose proof (g_disj _ _ _ G _ _ _ _ _ _ Hsx Hb).
      assert (x <> bp + asize) by lia.
      split; [exists sx; lk|congruence].
    + intros [[sx Hsx] Hn]. lkh Hsx; [congruence|].
      split; [|congruence]. split; [eauto|discriminate].
Qed.

End Place.

(** ** [place], both branches *)

Lemma heap_inv_alloc_not_listed ex h M fl bp s :
  heap_inv ex None h M fl -> M !! bp = Some (s, 1) -> bp ∉ fl.
Proof.
  intros I Hb Hin. destruct (inv_fl_block I bp Hin) as [s' Hs'].
  rewrite Hb in Hs'. discriminate.
Qed.

(** The split branch of [place]: the remainder [bp + asize] goes through
    [coalesce] with an allocated predecessor, so that it is merged with
    its successor exactly when [N] says the successor is free. *)
Lemma place_split_spec ex h M fl bp c asize N :
  heap_inv ex None h M fl -> ex = None \/ ex = Some bp ->
  M !! bp = Some (c, 0) ->
  32 <= asize -> asize mod 8 = 0 -> 32 <= c - asize ->
  free_next h M bp c N ->
  let M1 := <[bp := (asize, 1)]> (<[bp + asize := (c - asize, 0)]> M) in
  exists rest h5,
    place h bp asize = snd (coalesce h5 (bp + asize))
    /\ (forall y, y ∈ rest <-> y ∈ fl /\ y <> bp)
    /\ frame (sentinel h) fl [bp - 4; bp + asize - 8; bp + asize - 4; bp + c - 8] h h5
    /\ coalesced h5 rest (bp + asize)
         (fst (fst (merge_table M1 (bp + asize) (c - asize) None N)))
         (snd (fst (merge_table M1 (bp + asize) (c - asize) None N)))
         (snd (merge_table M1 (bp + asize) (c - asize) None N))
         (place h bp asize).
Proof.
  intros I Hex Hb Ha Hm Hc HN M1.
  destruct (place_split I Hex Hb asize Ha Hm Hc) as (rest & h5 & EP & I5 & Hrest & F).
  pose proof (inv_geom _ _ _ _ _ I) as G.
  pose proof (g_block _ _ _ G _ _ _ Hb) as B.
  exists rest, h5. split; [exact EP|]. split; [exact Hrest|]. split; [exact F|].
  assert (HR : M1 !! (bp + asize) = Some (c - asize, 0)) by (unfold M1; lk).
  assert (HP : free_pred h5 M1 (bp + asize) None).
  { right. exists bp, asize. split; [unfold M1; lk|reflexivity]. }
  assert (F1 : mem_brk h5 = mem_brk h) by (destruct F as (_ & -> & _); reflexivity).
  assert (HN5 : free_next h5 M1 (bp + asize) (c - asize) N).
  { destruct N as [[n sn]|]; simpl in *.
    - destruct HN as [-> Hn]. split; [lia|].
      pose proof (g_block _ _ _ G _ _ _ Hn). unfold M1. lk.
    - rewrite F1. replace (bp + asize + (c - asize)) with (bp + c) by lia.
      destruct HN as [E|[sn Hn]]; [left; exact E|right].
      exists sn. pose proof (g_block _ _ _ G _ _ _ Hn). unfold M1. lk. }
  rewrite EP.
  exact (proj2 (coalesce_spec _ _ _ _ _ _ _ I5 HR HP HN5)).
Qed.

Lemma place_spec ex h M fl bp c asize :
  heap_inv ex None h M fl -> ex = None \/ ex = Some bp ->
  M !! bp = Some (c, 0) ->
  32 <= asize <= c -> asize mod 8 = 0 ->
  exists M' fl' c',
    heap_inv None None (place h bp asize) M' fl'
    /\ M' !! bp = Some (c', 1) /\ asize <= c' <= c
    /\ mem_brk (place h bp asize) = mem_brk h.
Proof.
  intros I Hex Hb Ha Hm.
  pose proof (inv_geom _ _ _ _ _ I) as G.
  pose proof (g_block _ _ _ G _ _ _ Hb) as B.
  destruct (Z.lt_ge_cases (c - asize) 32) as [Hlt|Hge].
  - destruct (place_nosplit I Hex Hb asize) as (rest & I' & _ & F); [lia|lia|].
    exists (<[bp := (c, 1)]> M), rest, c. split; [exact I'|]. split; [lk|]. split; [lia|].
    destruct F as (_ & E & _). exact E.
  - destruct (free_next_cases _ _ _ _ _ G Hb) as [N HN].
    destruct (place_split_spec ex h M fl bp c asize N I Hex Hb) as
      (rest & h5 & EP & Hrest & F & (rest' & I' & _ & F' & _)); try lia; try assumption.
    eexists _, _, asize. split; [exact I'|]. split; [|split; [lia|]].
    + destruct N as [[n sn]|]; cbn [merge_table fst snd].
      * destruct HN as [-> Hn]. pose proof (g_block _ _ _ G _ _ _ Hn). lk.
      * lk.
    + destruct F as (_ & E & _). destruct F' as (_ & E' & _). congruence.
Qed.

(** ** The break is moved by [mem_sbrk] only *)

Lemma delete_block_brk h x : mem_brk (delete_block h x) = mem_brk h.
Proof. unfold delete_block. destruct (PREV_FREE h x =? NULL); reflexivity. Qed.

Lemma freelist_brk h x : mem_brk (freelist h x) = mem_brk h.
Proof. reflexivity. Qed.

Lemma coalesce_brk h bp : mem_brk (snd (coalesce h bp)) = mem_brk h.
Proof.
  unfold coalesce. destruct (prev_alloc h bp), (next_alloc h bp); cbn [snd];
    rewrite freelist_brk; cbn [PUT set_mem mem_brk]; rewrite ?delete_block_brk;
    reflexivity.
Qed.

Lemma place_brk h bp asize : mem_brk (place h bp asize) = mem_brk h.
Proof.
  unfold place. destruct (w32 (GET_SIZE h (HDRP bp) - asize) >=? OVERHEAD).
  - rewrite coalesce_brk. cbn [PUT set_mem mem_brk]. rewrite delete_block_brk. reflexivity.
  - rewrite delete_block_brk. reflexivity.
Qed.

(** ** The adjusted size *)

Lemma adjust_multiple size : adjust size mod 8 = 0 /\ 0 <= adjust size < WORD.
Proof.
  unfold adjust, DSIZE, OVERHEAD. destruct (size <=? 8); [split; [reflexivity|unfold WORD; lia]|].
  pose proof (w32_range (size + 32 + (8 - 1))) as R.
  set (x := w32 (size + 32 + (8 - 1))) in *.
  rewrite w32_small by (unfold WORD in *; Z.div_mod_to_equations; lia).
  unfold WORD in *. split; Z.div_mod_to_equations; lia.
Qed.

Lemma adjust_in_range size :
  0 < size -> size + 39 < WORD ->
  40 <= adjust size /\ size + 32 <= adjust size /\ adjust size mod 8 = 0
  /\ adjust size < WORD.
Proof.
  intros H0 H1. unfold adjust, DSIZE, OVERHEAD.
  destruct (Z.leb_spec size 8); [unfold WORD; repeat split; lia|].
  rewrite (w32_small (size + 32 + (8 - 1))) by lia.
  rewrite w32_small by (unfold WORD in *; Z.div_mod_to_equations; lia).
  unfold WORD in *. repeat split; Z.div_mod_to_equations; lia.
Qed.

(** ** [find_fit] on a well-formed heap *)

Lemma find_fit_inv ex out h M fl fuel asize :
  heap_inv ex out h M fl -> (length fl < fuel)%nat ->
  exists r, find_fit fuel h asize = Some r
    /\ ((r = NULL /\ forall x sx, x ∈ fl -> M !! x = Some (sx, 0) -> sx < asize)
        \/ (r ∈ fl /\ exists c, M !! r = Some (c, 0) /\ asize <= c)).
Proof.
  intros I Hf. pose proof (heap_inv_free_chain _ _ _ _ _ I) as Hc.
  pose proof (heap_inv_tags _ _ _ _ _ I) as T.
  assert (E : find_fit fuel h asize = Some (first_fit h asize fl))
    by (unfold find_fit; apply find_fit_from_chain; assumption).
  exists (first_fit h asize fl). split; [exact E|].
  destruct (first_fit_spec h asize fl) as [[E0 [HF|HN]]|(l1 & l2 & El & HF & Hle)].
  - left. split; [exact E0|]. intros x sx Hx Hs.
    rewrite List.Forall_forall in HF. specialize (HF x (proj1 (list_elem_of_In _ _) Hx)).
    destruct (inv_block_read T _ _ _ Hs) as (_ & ES & _). lia.
  - exfalso. apply list_elem_of_In in HN. destruct (inv_fl_block I _ HN) as [s Hs].
    pose proof (inv_bounds T _ _ _ Hs). unfold NULL in *. lia.
  - right. assert (Hin : first_fit h asize fl ∈ fl).
    { rewrite El at 2. apply elem_of_app. right. apply list_elem_of_here. }
    split; [exact Hin|]. destruct (inv_fl_block I _ Hin) as [s Hs].
    exists s. split; [exact Hs|].
    destruct (inv_block_read T _ _ _ Hs) as (_ & ES & _). lia.
Qed.

(** ** [extend_heap] on a well-formed heap *)

Lemma extend_heap_fail h size :
  size mod 8 = 0 -> 0 <= size < WORD ->
  mem_brk h + size > mem_max_addr h ->
  extend_heap h (size / WSIZE) = (NULL, h).
Proof.
  intros Hm Hs Hmax. unfold extend_heap, WSIZE.
  assert (E2 : (size / 4) mod 2 = 0) by (clear -Hm; Z.div_mod_to_equations; lia).
  rewrite E2. simpl (0 =? 0). cbv iota.
  assert (E4 : size / 4 * 4 = size) by (clear -Hm; Z.div_mod_to_equations; lia).
  rewrite E4, (w32_small size) by lia.
  unfold mem_sbrk. destruct (Z.gtb_spec (mem_brk h + size) (mem_max_addr h)) as [_|?]; [|lia].
  reflexivity.
Qed.

Lemma extend_heap_spec h M fl size :
  heap_inv None None h M fl -> 32 <= size -> size mod 8 = 0 ->
  mem_brk h + size <= mem_max_addr h ->
  exists M' fl' total,
    heap_inv None None (snd (extend_heap h (size / WSIZE))) M' fl'
    /\ M' !! (fst (extend_heap h (size / WSIZE))) = Some (total, 0)
    /\ size <= total
    /\ mem_brk (snd (extend_heap h (size / WSIZE))) = mem_brk h + size
    /\ fst (extend_heap h (size / WSIZE)) <> NULL.
Proof.
  intros I Hs Hm Hmax.
  rewrite (extend_heap_eq h M fl size I Hs Hm Hmax).
  pose proof (extend_prefix h M fl size I Hs Hm Hmax) as I1.
  set (h3 := PUT (PUT (PUT (set_brk h (mem_brk h + size)) (mem_brk h - 4) size)
                (mem_brk h + size - 8) size) (mem_brk h + size - 4) 1) in *.
  set (M1 := <[mem_brk h := (size, 0)]> M) in *.
  assert (Hb1 : M1 !! mem_brk h = Some (size, 0)) by (unfold M1; lk).
  pose proof (inv_geom _ _ _ _ _ I1) as G1.
  destruct (free_pred_cases _ _ _ _ _ G1 Hb1) as [P HP].
  assert (HN : free_next h3 M1 (mem_brk h) size None) by (left; reflexivity).
  destruct (coalesce_spec _ _ _ _ _ _ _ I1 Hb1 HP HN) as (Er & rest & I' & _ & _ & Efl).
  rewrite Er. rewrite coalesce_brk.
  pose proof (inv_geom _ _ _ _ _ I) as G.
  destruct (geom_brk_aligned _ _ _ G) as [_ Hbrk].
  pose proof (inv_lo _ _ _ _ _ I) as Hlo.
  destruct P as [[p sp]|]; cbn [merge_table fst snd] in *.
  - destruct HP as [Hp Ep]. pose proof (g_block _ _ _ G1 _ _ _ Hp) as Bp.
    unfold h3 in Bp. cbn [PUT set_mem set_brk mem_start_brk mem_brk] in Bp.
    exists (<[p := (sp + size, 0)]> (delete (mem_brk h) M1)), (p :: rest), (sp + size).
    split; [exact I'|]. split; [lk|]. split; [lia|]. split; [reflexivity|].
    unfold NULL. lia.
  - exists M1, (mem_brk h :: rest), size.
    split; [exact I'|]. split; [exact Hb1|]. split; [lia|]. split; [reflexivity|].
    unfold NULL. lia.
Qed.

(** ** [mm_malloc] *)

Lemma mm_malloc_miss fuel h size :
  0 < size -> find_fit fuel h (adjust size) = Some NULL ->
  mm_malloc fuel h size
  = let r := extend_heap h (MAX (adjust size) CHUNKSIZE / WSIZE) in
    if fst r =? NULL then Some (NULL, snd r)
    else Some (fst r, place (snd r) (fst r) (adjust size)).
Proof.
  intros H0 Hf. unfold mm_malloc.
  destruct (Z.leb_spec size 0); [lia|]. rewrite Hf. simpl.
  destruct (extend_heap h (MAX (adjust size) CHUNKSIZE / WSIZE)) as [bp h1].
  reflexivity.
Qed.

Lemma MAX_adjust size :
  32 <= MAX (adjust size) CHUNKSIZE /\ MAX (adjust size) CHUNKSIZE mod 8 = 0
  /\ adjust size <= MAX (adjust size) CHUNKSIZE < WORD.
Proof.
  destruct (adjust_multiple size) as [Hm Hr]. unfold MAX, CHUNKSIZE.
  destruct (Z.gtb_spec (adjust size) 32); unfold WORD in *; repeat split; lia.
Qed.

Lemma mm_malloc_spec fuel h M fl size :
  heap_inv None None h M fl -> 0 < size -> size + 39 < WORD ->
  (length fl < fuel)%nat ->
  exists p h', mm_malloc fuel h size = Some (p, h')
    /\ ((p = NULL /\ h' = h)
        \/ (p <> NULL /\ exists M' fl' c',
              heap_inv None None h' M' fl' /\ M' !! p = Some (c', 1)
              /\ adjust size <= c')).
Proof.
  intros I H0 H1 Hf.
  destruct (adjust_in_range size H0 H1) as (A1 & A2 & A3 & A4).
  destruct (find_fit_inv _ _ h M fl fuel (adjust size) I Hf) as (r & Er & [[-> Hno]|[Hin (c & Hc & Hle)]]).
  - (* no fit *)
    rewrite (mm_malloc_miss fuel h size H0 Er).
    destruct (MAX_adjust size) as (X1 & X2 & X3).
    destruct (Z_le_gt_dec (mem_brk h + MAX (adjust size) CHUNKSIZE) (mem_max_addr h)) as [Hok|Hfail].
    + destruct (extend_heap_spec h M fl _ I X1 X2 Hok) as (M1 & fl1 & total & I1 & Hr & Ht & _ & Hnn).
      cbv zeta. destruct (Z.eqb_spec (fst (extend_heap h (MAX (adjust size) CHUNKSIZE / WSIZE))) NULL) as [E|_];
        [contradiction|].
      eexists _, _. split; [reflexivity|]. right. split; [exact Hnn|].
      destruct (place_spec None _ M1 fl1 _ total (adjust size) I1 (or_introl eq_refl) Hr)
        as (M' & fl' & c' & I' & Hp & Hc' & _); [lia|exact A3|].
      exists M', fl', c'. split; [exact I'|]. split; [exact Hp|lia].
    + rewrite (extend_heap_fail h _ X2) by lia. simpl.
      eexists _, _. split; [reflexivity|]. left. auto.
  - (* a fit *)
    destruct (inv_fl_block I r Hin) as [c0 Hc0].
    pose proof (inv_bounds (heap_inv_tags _ _ _ _ _ I) _ _ _ Hc0) as B.
    unfold mm_malloc. destruct (Z.leb_spec size 0); [lia|]. rewrite Er.
    destruct (Z.eqb_spec r NULL) as [E|Hn]; [unfold NULL in E; lia|]. simpl.
    eexists _, _. split; [reflexivity|]. right. split; [exact Hn|].
    destruct (place_spec None h M fl r c (adjust size) I (or_introl eq_refl) Hc)
      as (M' & fl' & c' & I' & Hp & Hc' & _); [lia|exact A3|].
    exists M', fl', c'. split; [exact I'|]. split; [exact Hp|lia].
Qed.

(** ** [mm_init] *)

Lemma GET_fresh lo hi p : GET (fresh_arena lo hi) p = 0.
Proof. reflexivity. Qed.

Lemma GET_set_brk h b p : GET (set_brk h b) p = GET h p.
Proof. reflexivity. Qed.

Lemma GET_set_heap_listp h b p : GET (set_heap_listp h b) p = GET h p.
Proof. reflexivity. Qed.

(** Reading a word through a stack of stores at known addresses. *)
Ltac getput :=
  repeat first [ rewrite GET_PUT_ne by lia
               | rewrite GET_set_brk
               | rewrite GET_set_free_listp
               | rewrite GET_set_heap_listp ];
  try (rewrite GET_PUT_eq by (unfold WORD in *; lia));
  try (rewrite GET_fresh);
  try reflexivity.

Section Init.
Variables lo hi : Z.
Hypothesis Hlo : 0 < lo.
Hypothesis Hal : lo mod 8 = 0.
Hypothesis Hhi : lo + 96 <= hi < WORD.

Lemma mm_init_eq : mm_init (fresh_arena lo hi) = (0, init_heap lo hi).
Proof.
  unfold mm_init, mem_sbrk. cbn [fresh_arena mem_brk mem_max_addr].
  unfold OVERHEAD, WSIZE, DSIZE, CHUNKSIZE.
  destruct (Z.gtb_spec (lo + 2 * 32) hi) as [?|_]; [lia|].
  destruct (Z.eqb_spec lo NULL) as [E|_]; [unfold NULL in E; lia|].
  cbn [heap_listp set_heap_listp set_brk PUT set_mem mem mem_start_brk mem_brk mem_max_addr free_listp].
  rewrite !w32_small by lia.
  change (PACK 32 1) with 33. change (PACK 0 1) with 1.
  replace (lo + 2 * 32) with (lo + 64) by lia.
  replace (lo + 8 + 4) with (lo + 12) by lia.
  replace (lo + 4 + 8) with (lo + 12) by lia.
  set (h6 := set_free_listp _ (lo + 8)).
  unfold extend_heap. change (32 / 4) with 8. change (8 mod 2 =? 0) with true.
  cbv iota. change (8 * WSIZE) with 32. rewrite (w32_small 32) by (unfold WORD; lia).
  unfold mem_sbrk.
  assert (Eb : mem_brk h6 = lo + 64) by reflexivity.
  assert (Em : mem_max_addr h6 = hi) by reflexivity.
  rewrite Eb, Em.
  destruct (Z.gtb_spec (lo + 64 + 32) hi) as [?|_]; [lia|].
  destruct (Z.eqb_spec (lo + 64) SBRK_FAIL) as [E|_]; [unfold SBRK_FAIL in E; lia|].
  rewrite HDRP_eq by lia. rewrite PACK_0. change (PACK 0 1) with 1.
  replace (lo + 64 + 32) with (lo + 96) by lia.
  replace (lo + 64 - 4) with (lo + 60) by lia.
  set (h7 := set_brk h6 (lo + 96)).
  set (h8 := PUT h7 (lo + 60) 32).
  assert (R8 : GET_SIZE h8 (HDRP (lo + 64)) = 32).
  { rewrite HDRP_eq by lia. replace (lo + 64 - 4) with (lo + 60) by lia.
    apply (tag_read h8 (lo + 60) 32 0); [|lia|reflexivity|left; reflexivity].
    unfold h8. getput. }
  rewrite (FTRP_eq h8 (lo + 64) 32 R8) by lia.
  replace (lo + 64 + 32 - 8) with (lo + 88) by lia.
  set (h9 := PUT h8 (lo + 88) 32).
  assert (R9 : NEXT_BLKP h9 (lo + 64) = lo + 64 + 32).
  { apply (block_read h9 (lo + 64) 32 0); [lia|lia|lia|reflexivity|left; reflexivity|].
    replace (lo + 64 - 4) with (lo + 60) by lia. unfold h9, h8. getput. }
  rewrite R9, HDRP_eq by lia. replace (lo + 64 + 32 - 4) with (lo + 92) by lia.
  set (h10 := PUT h9 (lo + 92) 1).
  assert (EP : prev_alloc h10 (lo + 64) = true).
  { unfold prev_alloc.
    assert (E : PREV_BLKP h10 (lo + 64) = lo + 64 - 0).
    { apply (prev_read h10 (lo + 64) 0 0); [lia|lia|reflexivity|left; reflexivity|].
      replace (lo + 64 - 8) with (lo + 56) by lia.
      unfold h10, h9, h8, h7, h6. getput. }
    rewrite E. replace (lo + 64 - 0) with (lo + 64) by lia.
    rewrite Z.eqb_refl. apply orb_true_r. }
  assert (EN : next_alloc h10 (lo + 64) = true).
  { unfold next_alloc.
    assert (E : NEXT_BLKP h10 (lo + 64) = lo + 64 + 32).
    { apply (block_read h10 (lo + 64) 32 0); [lia|lia|lia|reflexivity|left; reflexivity|].
      replace (lo + 64 - 4) with (lo + 60) by lia. unfold h10, h9, h8. getput. }
    rewrite E, HDRP_eq by lia. replace (lo + 64 + 32 - 4) with (lo + 92) by lia.
    assert (EA : GET_ALLOC h10 (lo + 92) = 1).
    { apply (tag_read h10 (lo + 92) 0 1); [|lia|reflexivity|right; reflexivity].
      unfold h10. getput. }
    rewrite EA. reflexivity. }
  unfold coalesce. rewrite EP, EN. cbv iota beta.
  destruct (Z.eqb_spec (lo + 64) NULL) as [E|_]; [unfold NULL in E; lia|].
  rewrite freelist_eq by lia.
  replace (lo + 64 + 8) with (lo + 72) by lia.
  reflexivity.
Qed.
End Init.

Lemma init_heap_inv lo hi :
  0 < lo -> lo mod 8 = 0 -> lo + 96 <= hi < WORD ->
  heap_inv None None (init_heap lo hi) (<[lo + 64 := (32, 0)]> ∅) [lo + 64].
Proof.
  intros Hlo Hal Hhi.
  assert (HM : forall b s a, (<[lo + 64 := (32, 0)]> ∅ : gmap Z (Z * Z)) !! b = Some (s, a) ->
            b = lo + 64 /\ s = 32 /\ a = 0).
  { intros b s a H. lkh H. injection H as <- <-. auto. }
  assert (HM' : (<[lo + 64 := (32, 0)]> ∅ : gmap Z (Z * Z)) !! (lo + 64) = Some (32, 0)) by lk.
  constructor.
  - exact Hlo.
  - exact Hal.
  - simpl. lia.
  - simpl. lia.
  - reflexivity.
  - change (GET (init_heap lo hi) (lo + 4) = 33). unfold init_heap. cbv zeta. getput.
  - change (GET (init_heap lo hi) (lo + 56) = 0). unfold init_heap. cbv zeta. getput.
  - change (GET (init_heap lo hi) (lo + 96 - 4) = 1).
    replace (lo + 96 - 4) with (lo + 92) by lia. unfold init_heap. cbv zeta. getput.
  - change (geom lo (lo + 96) (<[lo + 64 := (32, 0)]> ∅)). constructor.
    + intros b s a H. destruct (HM _ _ _ H) as (-> & -> & ->).
      repeat split; try lia. clear -Hal. Z.div_mod_to_equations. lia.
    + intros b s a H. destruct (HM _ _ _ H) as (-> & -> & ->). left. lia.
    + intros b s a H. destruct (HM _ _ _ H) as (-> & -> & ->). left. reflexivity.
    + intros b1 s1 a1 b2 s2 a2 H1 H2. destruct (HM _ _ _ H1) as (-> & _).
      destruct (HM _ _ _ H2) as (-> & _). left. reflexivity.
    + eauto.
    + exists (lo + 64), 32, 0. split; [exact HM'|lia].
  - intros b s a H. destruct (HM _ _ _ H) as (-> & -> & ->).
    replace (lo + 64 - 4) with (lo + 60) by lia.
    replace (lo + 64 + 32 - 8) with (lo + 88) by lia.
    unfold init_heap. cbv zeta. split; getput.
  - intros b s s' H1 H2. destruct (HM _ _ _ H1) as (-> & -> & _).
    destruct (HM _ _ _ H2) as (E & _). lia.
  - change (dll (init_heap lo hi) (lo + 8) NULL (lo + 64) [lo + 64]).
    cbn [dll]. split; [reflexivity|]. split.
    + unfold PREV_FREE, init_heap. cbv zeta. getput.
    + rewrite NEXT_FREE_eq by lia. replace (lo + 64 + 8) with (lo + 72) by lia.
      unfold init_heap. cbv zeta. getput.
  - apply NoDup_cons. split; [apply not_elem_of_nil|apply NoDup_nil_2].
  - intros x. rewrite list_elem_of_singleton. split.
    + intros ->. split; [eauto|discriminate].
    + intros [[s H] _]. destruct (HM _ _ _ H) as (-> & _). reflexivity.
Qed.

(** [mm_init] on a fresh arena succeeds and leaves a well-formed heap whose
    only block is free. *)
Lemma mm_init_spec lo hi :
  0 < lo -> lo mod 8 = 0 -> lo + 96 <= hi < WORD ->
  fst (mm_init (fresh_arena lo hi)) = 0
  /\ heap_inv None None (snd (mm_init (fresh_arena lo hi)))
       (<[lo + 64 := (32, 0)]> ∅) [lo + 64].
Proof.
  intros Hlo Hal Hhi. rewrite (mm_init_eq lo hi Hlo Hhi). split; [reflexivity|].
  apply init_heap_inv; assumption.
Qed.

(** ** The coalescer *)

Lemma heap_inv_block_tags ex out h M fl b s a :
  heap_inv ex out h M fl -> M !! b = Some (s, a) ->
  GET_SIZE h (HDRP b) = s /\ GET_ALLOC h (HDRP b) = a.
Proof.
  intros I Hb. destruct (inv_block_read (heap_inv_tags _ _ _ _ _ I) _ _ _ Hb)
    as (_ & E1 & E2 & _). auto.
Qed.

Lemma merge_table_lookup M bp s P N :
  snd (merge_table M bp s P N) !! fst (fst (merge_table M bp s P N))
  = match P, N with
    | None, None => M !! bp
    | _, _ => Some (snd (fst (merge_table M bp s P N)), 0)
    end.
Proof.
  destruct P as [[p sp]|], N as [[n sn]|]; cbn [merge_table fst snd]; try reflexivity; lk.
Qed.

(** C4: [coalesce], called on a block [bp] that has just been tagged free
    and is not yet in the free list, in each of the four cases given by the
    state of the physical predecessor ([P]) and successor ([N]): it returns
    the address [r] of the resulting block (the predecessor's address when
    that one is free, [bp] otherwise), whose size is the sum of the merged
    sizes; [r] is the head of the free list afterwards and occurs in it
    exactly once, the other nodes being the former nodes outside the merged
    range; the heap is well formed again.  When the computed predecessor
    [PREV_BLKP(bp)] is [bp] itself, as it is for the first block of the
    heap, the predecessor counts as allocated. *)
Theorem coalesce_inserts_once (h : heap) (M : gmap Z (Z * Z)) (fl : list Z)
    (bp s : Z) (P N : option (Z * Z)) :
  heap_inv (Some bp) (Some bp) h M fl -> M !! bp = Some (s, 0) ->
  free_pred h M bp P -> free_next h M bp s N ->
  let r := match P with Some (p, _) => p | None => bp end in
  let total := s + match P with Some (_, sp) => sp | None => 0 end
                 + match N with Some (_, sn) => sn | None => 0 end in
  let h' := snd (coalesce h bp) in
  fst (coalesce h bp) = r
  /\ free_listp h' = r
  /\ GET_SIZE h' (HDRP r) = total /\ GET_ALLOC h' (HDRP r) = 0
  /\ (exists rest,
        free_chain h' (free_listp h') (r :: rest)
        /\ (r ∉ rest)
        /\ (forall y, y ∈ rest <-> y ∈ fl /\ (y < r \/ r + total <= y)))
  /\ heap_ok h'
  /\ (PREV_BLKP h bp = bp -> prev_alloc h bp = true)
  /\ (bp = first_block h -> PREV_BLKP h bp = bp /\ P = None).
Proof.
  intros I Hb HP HN r total h'.
  destruct (coalesce_spec h M fl bp s P N I Hb HP HN) as (Er & rest & I' & Hrest & _ & Efl).
  assert (Ert : fst (fst (merge_table M bp s P N)) = r
                /\ snd (fst (merge_table M bp s P N)) = total).
  { unfold r, total. destruct P as [[p sp]|], N as [[n sn]|]; cbn [merge_table fst snd];
      split; try reflexivity; lia. }
  destruct Ert as [Er' Et']. rewrite Er' in *. rewrite Et' in *. fold h' in I', Efl.
  assert (Hr : snd (merge_table M bp s P N) !! r = Some (total, 0)).
  { pose proof (merge_table_lookup M bp s P N) as L. rewrite Er', Et' in L.
    rewrite L. destruct P as [[p sp]|], N as [[n sn]|]; try reflexivity.
    unfold total. rewrite Hb. f_equal. f_equal. lia. }
  destruct (heap_inv_block_tags _ _ _ _ _ _ _ _ I' Hr) as [ES EA].
  split; [exact Er|]. split; [exact Efl|]. split; [exact ES|]. split; [exact EA|].
  split; [|split; [|split]].
  - exists rest. split; [exact (heap_inv_free_chain _ _ _ _ _ I')|]. split; [|exact Hrest].
    pose proof (inv_nodup _ _ _ _ _ I') as ND. apply NoDup_cons in ND. tauto.
  - exists (snd (merge_table M bp s P N)), (r :: rest). exact I'.
  - intros E. unfold prev_alloc. rewrite E, Z.eqb_refl. apply orb_true_r.
  - intros E. split.
    + exact (inv_prev_first (heap_inv_tags _ _ _ _ _ I) _ _ _ Hb E).
    + destruct P as [[p sp]|]; [|reflexivity]. destruct HP as [Hp Ep].
      pose proof (g_block _ _ _ (inv_geom _ _ _ _ _ I) _ _ _ Hp).
      unfold first_block, OVERHEAD in E. lia.
Qed.

Lemma demo_init_inv :
  heap_inv None None demo_init (<[4160 := (32, 0)]> ∅) [4160].
Proof.
  exact (proj2 (mm_init_spec 4096 8192 ltac:(lia) ltac:(reflexivity)
                  ltac:(unfold WORD; lia))).
Qed.

Lemma demo_pending_inv :
  heap_inv (Some 4192) (Some 4192) demo_pending
    (<[4192 := (40, 0)]> (<[4160 := (32, 0)]> ∅)) [4160].
Proof.
  exact (extend_prefix demo_init _ _ 40 demo_init_inv ltac:(lia) ltac:(reflexivity)
           ltac:(vm_compute; discriminate)).
Qed.

(** In [demo_pending] the block 4192 follows the free block 4160 and ends
    the heap: [coalesce] merges the two (case 3) and returns 4160. *)
Lemma coalesce_inserts_once_witness :
  fst (coalesce demo_pending 4192) = 4160
  /\ free_listp (snd (coalesce demo_pending 4192)) = 4160
  /\ GET_SIZE (snd (coalesce demo_pending 4192)) (HDRP 4160) = 72.
Proof.
  destruct (coalesce_inserts_once demo_pending _ [4160] 4192 40 (Some (4160, 32)) None
              demo_pending_inv) as (E1 & E2 & E3 & _).
  - reflexivity.
  - split; reflexivity.
  - left. reflexivity.
  - split; [exact E1|]. split; [exact E2|exact E3].
Defined.

(** ** Growth of the heap on a miss *)

(** The growth path of [mm_malloc] on a well-formed heap.  When [find_fit]
    finds no block for the adjusted size, [mm_malloc] asks [extend_heap]
    for [MAX(asize, CHUNKSIZE)] bytes.  If the provider refuses,
    [mm_malloc] returns [NULL] and the state (heap and free list) is the
    one it was called in.  Otherwise the break has moved by exactly that
    many bytes, and [place] is called on the block [extend_heap] returns,
    a free block at least as large as the adjusted size; when the adjusted
    size is at least the minimum block size, as it is whenever
    [size + 39] does not wrap, the block ends allocated, with at least the
    adjusted size, and is not in the free list, in a heap that is well
    formed. *)
Theorem mm_malloc_growth (fuel : nat) (h : heap) (M : gmap Z (Z * Z))
    (fl : list Z) (size : Z) :
  heap_inv None None h M fl -> 0 < size ->
  find_fit fuel h (adjust size) = Some NULL ->
  let asize := adjust size in
  let ext := MAX asize CHUNKSIZE in
  (mem_brk h + ext > mem_max_addr h ->
     mm_malloc fuel h size = Some (NULL, h))
  /\ (mem_brk h + ext <= mem_max_addr h ->
      exists bp h1,
        extend_heap h (ext / WSIZE) = (bp, h1)
        /\ mm_malloc fuel h size = Some (bp, place h1 bp asize)
        /\ bp <> NULL
        /\ mem_brk (place h1 bp asize) = mem_brk h + ext
        /\ heap_ok h1
        /\ GET_ALLOC h1 (HDRP bp) = 0 /\ asize <= GET_SIZE h1 (HDRP bp)
        /\ (OVERHEAD <= asize ->
            heap_ok (place h1 bp asize)
            /\ GET_ALLOC (place h1 bp asize) (HDRP bp) = 1
            /\ asize <= GET_SIZE (place h1 bp asize) (HDRP bp)
            /\ forall l, free_chain (place h1 bp asize)
                           (free_listp (place h1 bp asize)) l -> bp ∉ l)).
Proof.
  intros I H0 Hf asize ext.
  destruct (MAX_adjust size) as (X1 & X2 & X3). fold asize ext in X1, X2, X3.
  destruct (adjust_multiple size) as [Hm Hr]. fold asize in Hm, Hr.
  rewrite (mm_malloc_miss fuel h size H0 Hf). fold asize ext. cbv zeta.
  split.
  - intros Hfail. rewrite (extend_heap_fail h ext X2) by lia. reflexivity.
  - intros Hok.
    destruct (extend_heap_spec h M fl ext I X1 X2 Hok)
      as (M1 & fl1 & total & I1 & Hr1 & Ht & Hbrk & Hnn).
    destruct (extend_heap h (ext / WSIZE)) as [bp h1] eqn:EE. cbn [fst snd] in *.
    destruct (Z.eqb_spec bp NULL) as [E|_]; [contradiction|].
    destruct (heap_inv_block_tags _ _ _ _ _ _ _ _ I1 Hr1) as [ES EA].
    exists bp, h1. split; [reflexivity|]. split; [reflexivity|]. split; [exact Hnn|].
    split; [rewrite place_brk; exact Hbrk|].
    split; [exists M1, fl1; exact I1|]. split; [exact EA|]. split; [lia|].
    intros Hmin. unfold OVERHEAD in Hmin.
    destruct (place_spec None h1 M1 fl1 bp total asize I1 (or_introl eq_refl) Hr1)
      as (M' & fl' & c' & I' & Hp & Hc' & _); [lia|exact Hm|].
    destruct (heap_inv_block_tags _ _ _ _ _ _ _ _ I' Hp) as [ES' EA'].
    split; [exists M', fl'; exact I'|]. split; [exact EA'|]. split; [lia|].
    intros l Hl Hin.
    assert (El : l = fl')
      by exact (free_chain_unique _ _ _ _ Hl (heap_inv_free_chain _ _ _ _ _ I')).
    subst l. exact (heap_inv_alloc_not_listed _ _ _ _ _ _ I' Hp Hin).
Qed.

Lemma tight_init_inv :
  heap_inv None None (snd (mm_init tight_arena)) (<[4160 := (32, 0)]> ∅) [4160].
Proof.
  exact (proj2 (mm_init_spec 4096 4200 ltac:(lia) ltac:(reflexivity)
                  ltac:(unfold WORD; lia))).
Qed.

(** [mm_malloc(1)] after [mm_init()] finds no fit for its 40 bytes: on
    [demo_arena] the heap grows by 40 bytes and the block 4160 is returned;
    on [tight_arena] the provider refuses and [NULL] is returned. *)
Lemma mm_malloc_growth_demo :
  (exists h', mm_malloc 2 demo_init 1 = Some (4160, h')
              /\ mem_brk h' = mem_brk demo_init + 40
              /\ GET_ALLOC h' (HDRP 4160) = 1)
  /\ mm_malloc 2 (snd (mm_init tight_arena)) 1
     = Some (NULL, snd (mm_init tight_arena)).
Proof.
  split.
  - destruct (mm_malloc_growth 2 demo_init _ _ 1 demo_init_inv) as [_ H];
      [lia|vm_compute; reflexivity|].
    destruct H as (bp & h1 & EE & Em & Hn & Hb & _ & _ & _ & Ha);
      [vm_compute; discriminate|].
    assert (Ebp : bp = 4160).
    { assert (E := f_equal fst EE). vm_compute in E. congruence. }
    subst bp. exists (place h1 4160 (adjust 1)). split; [exact Em|]. split; [exact Hb|].
    apply Ha. vm_compute. discriminate.
  - destruct (mm_malloc_growth 2 (snd (mm_init tight_arena)) _ _ 1 tight_init_inv) as [H _];
      [lia|vm_compute; reflexivity|].
    apply H. vm_compute. reflexivity.
Qed.

(** The state of [scenario_growth] is one a client reaches with requests
    that do not wrap: it holds the one pointer 4160. *)
Lemma growth_state_run : run growth_state [4160].
Proof.
  pose (h1 := match mm_malloc 8 demo_init 1 with
              | Some (_, h) => h | None => demo_init end).
  assert (E1 : mm_malloc 8 demo_init 1 = Some (4160, h1)) by (vm_compute; reflexivity).
  assert (E2 : mm_malloc 8 (mm_free h1 4160) 9 = Some (4160, growth_state))
    by (vm_compute; reflexivity).
  assert (R0 : run demo_init []).
  { apply (run_init 4096 8192); [lia|reflexivity|unfold WORD; lia]. }
  assert (R1 : run h1 [4160]).
  { apply (run_malloc demo_init [] 8 1 4160 h1 R0); [lia|unfold WORD; lia|exact E1|].
    unfold NULL. lia. }
  assert (R2 : run (mm_free h1 4160) []).
  { exact (run_free h1 [4160] 4160 R1 (list_elem_of_here 4160 [])). }
  apply (run_malloc (mm_free h1 4160) [] 8 9 4160 growth_state R2);
    [lia|unfold WORD; lia|exact E2|unfold NULL; lia].
Qed.

(** C6: in [growth_state], reached by [mm_init(); a = mm_malloc(1);
    mm_free(a); b = mm_malloc(9)], the heap is the one allocated block
    [b = 4160] of 72 bytes and the free list is empty.
    [mm_malloc(2^32 - 39)] finds no fit there, its adjusted size having
    wrapped to 0; the heap grows by [MAX(0, CHUNKSIZE) = 32] bytes and the
    provider does not refuse, but the retried placement does not succeed:
    the block 4232 that is returned is left marked free and is the head of
    the free list, and the footer of the held block 4160 has been
    overwritten (its header reads 73, its footer 1). *)
Theorem mm_malloc_growth_wrapping_request :
  scenario_growth = Some growth_state
  /\ heap_blocks 8 growth_state (first_block growth_state) = [(4160, 72, 1)]
  /\ free_listp growth_state = sentinel growth_state
  /\ adjust wrapping_request = 0
  /\ find_fit 8 growth_state (adjust wrapping_request) = Some NULL
  /\ MAX (adjust wrapping_request) CHUNKSIZE = 32
  /\ mem_brk growth_state + 32 <= mem_max_addr growth_state
  /\ match mm_malloc 8 growth_state wrapping_request with
     | Some (p, h') =>
         p = 4232
         /\ mem_brk h' = mem_brk growth_state + 32
         /\ GET_ALLOC h' (HDRP p) = 0
         /\ free_listp h' = p
         /\ GET h' (HDRP 4160) = 73
         /\ GET h' (FTRP h' 4160) = 1
         /\ heap_blocks 8 h' (first_block h') = [(4160, 72, 1); (4232, 32, 0)]
     | None => False
     end.
Proof. vm_compute. repeat split; try reflexivity; discriminate. Qed.

(** ** The split path of [place] *)

(** C1, as the specification words it, fails: in the state of
    [scenario_split] the free list is 4160 (120 bytes), 4280 (32 bytes), and
    4280 follows 4160 in the heap.  [mm_malloc(1)] takes 4160, splits it
    (the remainder is 80 bytes), and [place] hands the remainder 4200 to
    [coalesce], which merges it with 4280: afterwards 4200 is one free
    block of 112 bytes. *)
Lemma split_remainder_merged :
  match scenario_split with
  | Some h =>
      find_fit 8 h (adjust 1) = Some 4160
      /\ mm_malloc 8 h 1 = Some (4160, place h 4160 (adjust 1))
      /\ heap_blocks 8 h (first_block h) = [(4160, 120, 0); (4280, 32, 0)]
      /\ OVERHEAD <= GET_SIZE h (HDRP 4160) - adjust 1
      /\ GET_ALLOC h (HDRP (NEXT_BLKP h 4160)) = 0
      /\ heap_blocks 8 (place h 4160 (adjust 1)) (first_block h)
         = [(4160, 40, 1); (4200, 112, 0)]
      /\ ~ split_remainder_separate h 4160 (adjust 1)
  | None => False
  end.
Proof.
  destruct scenario_split as [h|] eqn:E; [|vm_compute in E; discriminate].
  vm_compute in E. injection E as <-.
  repeat (split; [vm_compute; try reflexivity; discriminate|]).
  intros H. unfold split_remainder_separate in H. cbv zeta in H.
  destruct H as (_ & H & _); [vm_compute; reflexivity|].
  vm_compute in H. discriminate.
Qed.

(** C1, amended: on the split path [place] hands the remainder to
    [coalesce].  The front part [bp] becomes an allocated block of [asize]
    bytes; the remainder [bp + asize] is merged with the block that follows
    it when that block is free ([N = Some _]) and is inserted as it is
    otherwise; either way the resulting free block is inserted once, at the
    head of the free list, the other nodes being the former ones but [bp]
    and the merged successor, and the heap is well formed afterwards.  On a
    heap in which no two adjacent blocks are free ([ex = None]) the
    successor of [bp] is never free, so that the remainder is then always
    inserted as it is. *)
Theorem place_split_coalesces (ex : option Z) (h : heap) (M : gmap Z (Z * Z))
    (fl : list Z) (bp c asize : Z) (N : option (Z * Z)) :
  heap_inv ex None h M fl -> ex = None \/ ex = Some bp ->
  M !! bp = Some (c, 0) ->
  OVERHEAD <= asize -> asize mod 8 = 0 -> OVERHEAD <= c - asize ->
  free_next h M bp c N ->
  let h' := place h bp asize in
  let r := bp + asize in
  let total := c - asize + match N with Some (_, sn) => sn | None => 0 end in
  GET_SIZE h' (HDRP bp) = asize /\ GET_ALLOC h' (HDRP bp) = 1
  /\ free_listp h' = r
  /\ GET_SIZE h' (HDRP r) = total /\ GET_ALLOC h' (HDRP r) = 0
  /\ (exists rest,
        free_chain h' (free_listp h') (r :: rest)
        /\ (r ∉ rest)
        /\ (forall y, y ∈ rest <->
                      y ∈ fl /\ y <> bp /\ (y < r \/ r + total <= y)))
  /\ heap_ok h'
  /\ (ex = None -> N = None).
Proof.
  intros I Hex Hb Ha Hm Hc HN h' r total. unfold OVERHEAD in Ha, Hc. subst r.
  pose proof (inv_geom _ _ _ _ _ I) as G.
  pose proof (g_block _ _ _ G _ _ _ Hb) as B.
  destruct (place_split_spec ex h M fl bp c asize N I Hex Hb Ha Hm Hc HN)
    as (rest0 & h5 & EP & Hrest0 & _ & (rest & I' & Hrest & _ & Efl)).
  fold h' in I', Efl.
  set (M1 := <[bp := (asize, 1)]> (<[bp + asize := (c - asize, 0)]> M)) in *.
  assert (Ert : fst (fst (merge_table M1 (bp + asize) (c - asize) None N)) = bp + asize
                /\ snd (fst (merge_table M1 (bp + asize) (c - asize) None N)) = total).
  { unfold total. destruct N as [[n sn]|]; cbn [merge_table fst snd];
      split; try reflexivity; lia. }
  destruct Ert as [Er' Et']. rewrite Er' in *. rewrite Et' in *.
  pose proof (merge_table_lookup M1 (bp + asize) (c - asize) None N) as L.
  rewrite Er', Et' in L.
  assert (HR : M1 !! (bp + asize) = Some (c - asize, 0)) by (unfold M1; lk).
  assert (Hr : snd (merge_table M1 (bp + asize) (c - asize) None N) !! (bp + asize) = Some (total, 0)).
  { rewrite L. destruct N as [[n sn]|]; try reflexivity.
    unfold total. rewrite HR. f_equal. f_equal. lia. }
  assert (Hbp : snd (merge_table M1 (bp + asize) (c - asize) None N) !! bp = Some (asize, 1)).
  { destruct N as [[n sn]|]; cbn [merge_table fst snd].
    - destruct HN as [-> Hn]. pose proof (g_block _ _ _ G _ _ _ Hn).
      unfold M1. lk.
    - unfold M1. lk. }
  destruct (heap_inv_block_tags _ _ _ _ _ _ _ _ I' Hr) as [ES EA].
  destruct (heap_inv_block_tags _ _ _ _ _ _ _ _ I' Hbp) as [ES' EA'].
  split; [exact ES'|]. split; [exact EA'|]. split; [exact Efl|].
  split; [exact ES|]. split; [exact EA|]. split; [|split].
  - exists rest. split; [exact (heap_inv_free_chain _ _ _ _ _ I')|]. split.
    + pose proof (inv_nodup _ _ _ _ _ I') as ND. apply NoDup_cons in ND. tauto.
    + intros y. rewrite Hrest, Hrest0. tauto.
  - eexists _, _. exact I'.
  - intros ->. destruct N as [[n sn]|]; [|reflexivity]. destruct HN as [-> Hn].
    destruct (inv_noadj _ _ _ _ _ I _ _ _ Hb Hn); discriminate.
Qed.

Lemma demo_grown_inv :
  exists M fl, heap_inv None None demo_grown M fl /\ M !! 4160 = Some (72, 0).
Proof.
  destruct (coalesce_spec demo_pending _ _ 4192 40 (Some (4160, 32)) None
              demo_pending_inv) as (_ & rest & I' & _).
  - reflexivity.
  - split; reflexivity.
  - left. vm_compute. reflexivity.
  - eexists _, _. split; [exact I'|]. reflexivity.
Qed.

Lemma pair_table_cases (b s a : Z) :
  (<[4160 := (120, 0)]> (<[4280 := (32, 0)]> (∅ : gmap Z (Z * Z)))) !! b = Some (s, a) ->
  (b = 4160 /\ s = 120 /\ a = 0) \/ (b = 4280 /\ s = 32 /\ a = 0).
Proof.
  intros H. apply lookup_insert_Some in H as [[<- E]|[_ H]].
  { injection E as <- <-. left. repeat split. }
  apply lookup_insert_Some in H as [[<- E]|[_ H]].
  { injection E as <- <-. right. repeat split. }
  rewrite lookup_empty in H. discriminate.
Qed.

Lemma split_state_inv :
  heap_inv (Some 4160) None split_state
    (<[4160 := (120, 0)]> (<[4280 := (32, 0)]> ∅)) [4160; 4280].
Proof.
  assert (Es : mem_start_brk split_state = 4096) by (vm_compute; reflexivity).
  assert (Eb : mem_brk split_state = 4312) by (vm_compute; reflexivity).
  assert (L1 : (<[4160 := (120, 0)]> (<[4280 := (32, 0)]> (∅ : gmap Z (Z * Z)))) !! 4160
               = Some (120, 0)) by reflexivity.
  assert (L2 : (<[4160 := (120, 0)]> (<[4280 := (32, 0)]> (∅ : gmap Z (Z * Z)))) !! 4280
               = Some (32, 0)) by reflexivity.
  split.
  - rewrite Es. lia.
  - rewrite Es. reflexivity.
  - vm_compute. discriminate.
  - vm_compute. reflexivity.
  - vm_compute. reflexivity.
  - vm_compute. reflexivity.
  - vm_compute. reflexivity.
  - vm_compute. reflexivity.
  - rewrite Es, Eb. split.
    + intros b s a H.
      destruct (pair_table_cases b s a H) as [(-> & -> & ->)|(-> & -> & ->)];
        (repeat split; first [lia|left; reflexivity]).
    + intros b s a H.
      destruct (pair_table_cases b s a H) as [(-> & -> & ->)|(-> & -> & ->)].
      * right. exists (32, 0). exact L2.
      * left. reflexivity.
    + intros b s a H.
      destruct (pair_table_cases b s a H) as [(-> & -> & ->)|(-> & -> & ->)].
      * left. reflexivity.
      * right. exists 4160, 120, 0. split; [exact L1|reflexivity].
    + intros b1 s1 a1 b2 s2 a2 H1 H2.
      destruct (pair_table_cases _ _ _ H1) as [(-> & -> & ->)|(-> & -> & ->)];
        destruct (pair_table_cases _ _ _ H2) as [(-> & -> & ->)|(-> & -> & ->)]; lia.
    + exists (120, 0). exact L1.
    + exists 4280, 32, 0. split; [exact L2|reflexivity].
  - intros b s a H.
    destruct (pair_table_cases b s a H) as [(-> & -> & ->)|(-> & -> & ->)];
      vm_compute; split; reflexivity.
  - intros b s s' H H'.
    destruct (pair_table_cases b s 0 H) as [(-> & -> & _)|(-> & -> & _)].
    + left. reflexivity.
    + destruct (pair_table_cases _ _ _ H') as [(E & _)|(E & _)]; lia.
  - cbn [dll]. vm_compute. repeat split; reflexivity.
  - apply NoDup_cons. split; [|apply NoDup_singleton].
    intros H. apply list_elem_of_singleton in H. lia.
  - intros x. split.
    + intros H. split; [|discriminate].
      apply elem_of_cons in H as [->|H]; [exists 120; exact L1|].
      apply list_elem_of_singleton in H. subst x. exists 32. exact L2.
    + intros [[s H] _].
      destruct (pair_table_cases x s 0 H) as [(-> & _)|(-> & _)].
      * apply list_elem_of_here.
      * apply list_elem_of_further, list_elem_of_here.
Qed.

(** In [split_state] the free block 4160 of 120 bytes is followed by the
    free block 4280 of 32 bytes: placing 40 bytes splits it, and the
    remainder 4200 is merged with 4280 into one free block of 112 bytes,
    which heads the free list.  In [demo_grown] the free block 4160 has 72
    bytes and ends the heap: placing 40 bytes splits it, and the remainder
    4200 of 32 bytes heads the free list as it is. *)
Lemma place_split_coalesces_witness :
  (GET_SIZE (place split_state 4160 40) (HDRP 4160) = 40
   /\ GET_ALLOC (place split_state 4160 40) (HDRP 4160) = 1
   /\ free_listp (place split_state 4160 40) = 4200
   /\ GET_SIZE (place split_state 4160 40) (HDRP 4200) = 112
   /\ GET_ALLOC (place split_state 4160 40) (HDRP 4200) = 0
   /\ heap_ok (place split_state 4160 40))
  /\ (GET_SIZE (place demo_grown 4160 40) (HDRP 4160) = 40
      /\ free_listp (place demo_grown 4160 40) = 4200
      /\ GET_SIZE (place demo_grown 4160 40) (HDRP 4200) = 32
      /\ heap_ok (place demo_grown 4160 40)).
Proof.
  split.
  - destruct (place_split_coalesces (Some 4160) split_state _ _ 4160 120 40
                (Some (4280, 32)) split_state_inv)
      as (H1 & H2 & H3 & H4 & H5 & _ & H6 & _).
    + right. reflexivity.
    + reflexivity.
    + vm_compute. discriminate.
    + reflexivity.
    + vm_compute. discriminate.
    + split; reflexivity.
    + exact (conj H1 (conj H2 (conj H3 (conj H4 (conj H5 H6))))).
  - destruct demo_grown_inv as (M & fl & I & Hb).
    destruct (place_split_coalesces None demo_grown M fl 4160 72 40 None I)
      as (H1 & _ & H2 & H3 & _ & _ & H4 & _).
    + left. reflexivity.
    + exact Hb.
    + vm_compute. discriminate.
    + reflexivity.
    + vm_compute. discriminate.
    + left. vm_compute. reflexivity.
    + exact (conj H1 (conj H2 (conj H3 H4))).
Defined.

(** ** The allocated blocks across the operations *)

(** Coalescing touches free blocks only. *)
Lemma merge_table_allocs M bp s P N :
  M !! bp = Some (s, 0) ->
  match P with Some (p, sp) => M !! p = Some (sp, 0) | None => True end ->
  match N with Some (n, sn) => M !! n = Some (sn, 0) | None => True end ->
  forall q sq,
    snd (merge_table M bp s P N) !! q = Some (sq, 1) <-> M !! q = Some (sq, 1).
Proof.
  intros Hb HP HN q sq.
  destruct P as [[p sp]|], N as [[n sn]|]; cbn [merge_table fst snd];
    (split; intros H; [lkh H; try congruence; exact H|]).
  all: lk.
Qed.

(** [place] allocates [bp] and leaves the other allocated blocks as they
    are. *)
Lemma place_allocs ex h M fl bp c asize :
  heap_inv ex None h M fl -> ex = None \/ ex = Some bp ->
  M !! bp = Some (c, 0) ->
  32 <= asize <= c -> asize mod 8 = 0 ->
  exists M' fl' c',
    heap_inv None None (place h bp asize) M' fl'
    /\ M' !! bp = Some (c', 1) /\ (asize <= c' <= c /\ c' < asize + 32)
    /\ (forall q sq, M' !! q = Some (sq, 1) <->
                     (q = bp /\ sq = c') \/ M !! q = Some (sq, 1)).
Proof.
  intros I Hex Hb Ha Hm.
  pose proof (inv_geom _ _ _ _ _ I) as G.
  pose proof (g_block _ _ _ G _ _ _ Hb) as B.
  destruct (Z.lt_ge_cases (c - asize) 32) as [Hlt|Hge].
  - destruct (place_nosplit I Hex Hb asize) as (rest & I' & _ & F); [lia|lia|].
    exists (<[bp := (c, 1)]> M), rest, c. split; [exact I'|]. split; [lk|]. split; [lia|].
    intros q sq. split; intros H.
    + lkh H; [left; split; congruence|right; exact H].
    + destruct H as [[-> ->]|H]; [lk|]. lk.
  - destruct (free_next_cases _ _ _ _ _ G Hb) as [N HN].
    destruct (place_split_spec ex h M fl bp c asize N I Hex Hb) as
      (rest & h5 & EP & Hrest & F & (rest' & I' & _ & F' & _)); try lia; try assumption.
    set (M1 := <[bp := (asize, 1)]> (<[bp + asize := (c - asize, 0)]> M)) in *.
    assert (HR : M1 !! (bp + asize) = Some (c - asize, 0)) by (unfold M1; lk).
    assert (HN1 : match N with Some (n, sn) => M1 !! n = Some (sn, 0) | None => True end).
    { destruct N as [[n sn]|]; [|exact Logic.I]. destruct HN as [-> Hn].
      pose proof (g_block _ _ _ G _ _ _ Hn). unfold M1. lk. }
    pose proof (merge_table_allocs M1 _ _ None N HR Logic.I HN1) as HA.
    assert (HM1 : forall q sq, M1 !! q = Some (sq, 1) <->
                    (q = bp /\ sq = asize) \/ M !! q = Some (sq, 1)).
    { intros q sq. unfold M1. split; intros H.
      - lkh H; [left; split; congruence|right; exact H].
      - destruct H as [[-> ->]|H]; [lk|].
        destruct (decide (q = bp)) as [->|]; [congruence|].
        destruct (decide (q = bp + asize)) as [->|].
        + exfalso. pose proof (g_block _ _ _ G _ _ _ H) as Bq.
          destruct (g_disj _ _ _ G _ _ _ _ _ _ Hb H) as [E|[E|E]]; lia.
        + lk. }
    eexists _, _, asize. split; [exact I'|]. split; [|split; [lia|]].
    + apply HA. apply HM1. left. auto.
    + intros q sq. rewrite HA. apply HM1.
Qed.

(** ** Payloads of allocated blocks *)

Lemma payload_eq_refl h q sq : payload_eq h h q sq.
Proof. intros a _. reflexivity. Qed.

Lemma payload_eq_trans h1 h2 h3 q sq :
  payload_eq h1 h2 q sq -> payload_eq h2 h3 q sq -> payload_eq h1 h3 q sq.
Proof. intros A B a Ha. rewrite (B a Ha). exact (A a Ha). Qed.

Lemma payload_eq_PUT h p v q sq :
  p + 4 <= q \/ q + sq - 8 <= p -> payload_eq h (PUT h p v) q sq.
Proof. intros Hp a Ha. unfold DSIZE in Ha. apply load8_PUT_ne. lia. Qed.

(** A frame whose nodes and words lie off the payload of [q]. *)
Lemma frame_payload S l W h h' q sq :
  frame S l W h h' -> S + 4 <= q ->
  (forall y, y ∈ l -> q + sq - 8 <= y \/ y + 12 <= q) ->
  Forall (fun w => w + 4 <= q \/ q + sq - 8 <= w) W ->
  payload_eq h h' q sq.
Proof.
  intros (_ & _ & _ & _ & F) HS Hl HW a Ha. unfold DSIZE in Ha. apply F.
  - split; [lia|]. rewrite Forall_forall. intros y Hy. specialize (Hl y Hy). lia.
  - rewrite Forall_forall in *. intros w Hw. specialize (HW w Hw). lia.
Qed.

Lemma alloc_off_free lo brk M q sq y sy :
  geom lo brk M -> M !! q = Some (sq, 1) -> M !! y = Some (sy, 0) ->
  q + sq <= y \/ y + sy <= q.
Proof.
  intros G Hq Hy. destruct (g_disj _ _ _ G _ _ _ _ _ _ Hq Hy) as [E|E]; [|exact E].
  subst y. rewrite Hq in Hy. discriminate.
Qed.

(** [coalesce] leaves the payloads of the allocated blocks alone. *)
Lemma coalesced_payload h M fl bp s r total M' h' q sq :
  heap_inv (Some bp) (Some bp) h M fl -> M !! bp = Some (s, 0) ->
  coalesced h fl bp r total M' h' -> M' !! r = Some (total, 0) ->
  M !! q = Some (sq, 1) -> M' !! q = Some (sq, 1) ->
  payload_eq h h' q sq.
Proof.
  intros I Hb (rest & I' & _ & F & _) Hr Hq Hq'.
  pose proof (inv_geom _ _ _ _ _ I) as G. pose proof (inv_geom _ _ _ _ _ I') as G'.
  pose proof (g_block _ _ _ G _ _ _ Hq) as Bq.
  pose proof (g_block _ _ _ G' _ _ _ Hr) as Br.
  apply (frame_payload _ _ _ _ _ _ _ F).
  - unfold sentinel, DSIZE. lia.
  - intros y Hy. apply elem_of_cons in Hy.
    assert (Hys : exists sy, M !! y = Some (sy, 0)).
    { destruct Hy as [->|Hy]; [eauto|]. apply (inv_fl _ _ _ _ _ I) in Hy. tauto. }
    destruct Hys as [sy Hys]. pose proof (g_block _ _ _ G _ _ _ Hys).
    destruct (alloc_off_free _ _ _ _ _ _ _ G Hq Hys); lia.
  - destruct (alloc_off_free _ _ _ _ _ _ _ G' Hq' Hr);
      (constructor; [lia|constructor; [lia|constructor]]).
Qed.

(** [coalesce] on the pending block [bp]: the result, with the allocated
    blocks and their payloads untouched. *)
Lemma coalesce_allocs h M fl bp s :
  heap_inv (Some bp) (Some bp) h M fl -> M !! bp = Some (s, 0) ->
  exists M' fl' total,
    heap_inv None None (snd (coalesce h bp)) M' fl'
    /\ M' !! fst (coalesce h bp) = Some (total, 0) /\ s <= total
    /\ (forall q sq, M' !! q = Some (sq, 1) <-> M !! q = Some (sq, 1))
    /\ (forall q sq, M !! q = Some (sq, 1) ->
                     payload_eq h (snd (coalesce h bp)) q sq).
Proof.
  intros I Hb. pose proof (inv_geom _ _ _ _ _ I) as G.
  destruct (free_pred_cases _ _ _ _ _ G Hb) as [P HP].
  destruct (free_next_cases _ _ _ _ _ G Hb) as [N HN].
  destruct (coalesce_spec h M fl bp s P N I Hb HP HN) as [Er C].
  pose proof (merge_table_lookup M bp s P N) as L.
  set (r := fst (fst (merge_table M bp s P N))) in *.
  set (total := snd (fst (merge_table M bp s P N))) in *.
  set (M' := snd (merge_table M bp s P N)) in *.
  assert (HP0 : match P with Some (p, sp) => M !! p = Some (sp, 0) | None => True end).
  { destruct P as [[p sp]|]; [exact (proj1 HP)|exact Logic.I]. }
  assert (HN0 : match N with Some (n, sn) => M !! n = Some (sn, 0) | None => True end).
  { destruct N as [[n sn]|]; [exact (proj2 HN)|exact Logic.I]. }
  assert (Hr : M' !! r = Some (total, 0)).
  { rewrite L. destruct P as [[p sp]|], N as [[n sn]|]; try reflexivity. exact Hb. }
  assert (Ht : s <= total).
  { unfold total. destruct P as [[p sp]|], N as [[n sn]|]; cbn [merge_table fst snd];
      repeat match goal with
             | H : M !! ?x = Some _ |- _ => apply (g_block _ _ _ G) in H
             end; lia. }
  pose proof (merge_table_allocs M bp s P N Hb HP0 HN0) as HA. fold M' in HA.
  destruct C as (rest & I' & C2).
  exists M', (r :: rest), total. rewrite Er.
  split; [exact I'|]. split; [exact Hr|]. split; [exact Ht|]. split; [exact HA|].
  intros q sq Hq.
  apply (coalesced_payload h M fl bp s r total M' _ q sq I Hb); try assumption.
  - exists rest. split; [exact I'|exact C2].
  - apply HA. exact Hq.
Qed.

(** [mm_free] of an allocated block: the heap stays well formed, the block
    leaves the allocated ones, and the others keep their payload. *)
Lemma mm_free_allocs h M fl bp s :
  heap_inv None None h M fl -> M !! bp = Some (s, 1) ->
  exists M' fl',
    heap_inv None None (mm_free h bp) M' fl'
    /\ (forall q sq, M' !! q = Some (sq, 1) <-> q <> bp /\ M !! q = Some (sq, 1))
    /\ (forall q sq, q <> bp -> M !! q = Some (sq, 1) ->
                     payload_eq h (mm_free h bp) q sq).
Proof.
  intros I Hb. pose proof (inv_geom _ _ _ _ _ I) as G.
  pose proof (free_prefix h M fl bp s I Hb) as I2.
  rewrite (mm_free_eq h M fl bp s I Hb).
  set (h2 := PUT (PUT h (bp - 4) s) (bp + s - 8) s) in *.
  assert (Hb2 : <[bp := (s, 0)]> M !! bp = Some (s, 0)) by lk.
  destruct (coalesce_allocs h2 _ fl bp s I2 Hb2) as (M' & fl' & total & I' & _ & _ & HA & HP).
  assert (H0 : forall q sq, <[bp := (s, 0)]> M !! q = Some (sq, 1)
                            <-> q <> bp /\ M !! q = Some (sq, 1)).
  { intros q sq. split; intros H.
    - lkh H. split; [congruence|exact H].
    - destruct H as [Hn H]. lk. }
  exists M', fl'. split; [exact I'|]. split.
  - intros q sq. rewrite HA. apply H0.
  - intros q sq Hn Hq.
    pose proof (g_block _ _ _ G _ _ _ Hb) as Bb. pose proof (g_block _ _ _ G _ _ _ Hq) as Bq.
    assert (D : bp + s <= q \/ q + sq <= bp).
    { destruct (g_disj _ _ _ G _ _ _ _ _ _ Hb Hq) as [E|E]; [congruence|exact E]. }
    eapply payload_eq_trans; [|apply HP; apply H0; split; assumption].
    eapply payload_eq_trans; apply payload_eq_PUT; lia.
Qed.

(** [extend_heap]: the new free block, with the allocated blocks and their
    payloads untouched. *)
Lemma extend_heap_allocs h M fl size :
  heap_inv None None h M fl -> 32 <= size -> size mod 8 = 0 ->
  mem_brk h + size <= mem_max_addr h ->
  exists M' fl' total,
    heap_inv None None (snd (extend_heap h (size / WSIZE))) M' fl'
    /\ M' !! fst (extend_heap h (size / WSIZE)) = Some (total, 0)
    /\ size <= total
    /\ (forall q sq, M' !! q = Some (sq, 1) <-> M !! q = Some (sq, 1))
    /\ (forall q sq, M !! q = Some (sq, 1) ->
                     payload_eq h (snd (extend_heap h (size / WSIZE))) q sq).
Proof.
  intros I Hs Hm Hmax. pose proof (inv_geom _ _ _ _ _ I) as G.
  rewrite (extend_heap_eq h M fl size I Hs Hm Hmax).
  pose proof (extend_prefix h M fl size I Hs Hm Hmax) as I1.
  set (h3 := PUT (PUT (PUT (set_brk h (mem_brk h + size)) (mem_brk h - 4) size)
                (mem_brk h + size - 8) size) (mem_brk h + size - 4) 1) in *.
  assert (Hb1 : <[mem_brk h := (size, 0)]> M !! mem_brk h = Some (size, 0)) by lk.
  destruct (coalesce_allocs h3 _ fl _ size I1 Hb1)
    as (M' & fl' & total & I' & Hr & Ht & HA & HP).
  assert (H0 : forall q sq, <[mem_brk h := (size, 0)]> M !! q = Some (sq, 1)
                            <-> M !! q = Some (sq, 1)).
  { intros q sq. split; intros H.
    - lkh H. exact H.
    - pose proof (g_block _ _ _ G _ _ _ H). lk. }
  exists M', fl', total. split; [exact I'|]. split; [exact Hr|]. split; [exact Ht|].
  split.
  - intros q sq. rewrite HA. apply H0.
  - intros q sq Hq. pose proof (g_block _ _ _ G _ _ _ Hq) as Bq.
    eapply payload_eq_trans; [|apply HP; apply H0; exact Hq].
    unfold h3.
    eapply payload_eq_trans; [|apply payload_eq_PUT; lia].
    eapply payload_eq_trans; [|apply payload_eq_PUT; lia].
    eapply payload_eq_trans; [|apply payload_eq_PUT; lia].
    intros a _. reflexivity.
Qed.

(** [place] leaves the payloads of the allocated blocks alone. *)
Lemma place_payload ex h M fl bp c asize q sq :
  heap_inv ex None h M fl -> ex = None \/ ex = Some bp ->
  M !! bp = Some (c, 0) ->
  32 <= asize <= c -> asize mod 8 = 0 ->
  M !! q = Some (sq, 1) ->
  payload_eq h (place h bp asize) q sq.
Proof.
  intros I Hex Hb Ha Hm Hq.
  pose proof (inv_geom _ _ _ _ _ I) as G.
  pose proof (g_block _ _ _ G _ _ _ Hb) as B.
  pose proof (g_block _ _ _ G _ _ _ Hq) as Bq.
  pose proof (alloc_off_free _ _ _ _ _ _ _ G Hq Hb) as D.
  assert (Hfl : forall y, y ∈ fl -> q + sq - 8 <= y \/ y + 12 <= q).
  { intros y Hy. destruct (inv_fl_block I y Hy) as [sy Hys].
    pose proof (g_block _ _ _ G _ _ _ Hys).
    destruct (alloc_off_free _ _ _ _ _ _ _ G Hq Hys); lia. }
  assert (HS : sentinel h + 4 <= q) by (unfold sentinel, DSIZE; lia).
  destruct (Z.lt_ge_cases (c - asize) 32) as [Hlt|Hge].
  - destruct (place_nosplit I Hex Hb asize) as (rest & I' & _ & F); [lia|lia|].
    apply (frame_payload _ _ _ _ _ _ _ F HS Hfl).
    constructor; [lia|constructor; [lia|constructor]].
  - destruct (place_split I Hex Hb asize) as (rest & h5 & EP & I5 & Hrest & F);
      [lia|exact Hm|lia|].
    rewrite EP.
    set (M1 := <[bp := (asize, 1)]> (<[bp + asize := (c - asize, 0)]> M)) in *.
    assert (HR : M1 !! (bp + asize) = Some (c - asize, 0)) by (unfold M1; lk).
    assert (Hq1 : M1 !! q = Some (sq, 1)).
    { unfold M1. destruct (decide (q = bp)) as [->|]; [congruence|].
      destruct (decide (q = bp + asize)) as [->|]; [exfalso; lia|]. lk. }
    destruct (coalesce_allocs h5 M1 rest _ _ I5 HR) as (_ & _ & _ & _ & _ & _ & _ & HP).
    eapply payload_eq_trans; [|exact (HP q sq Hq1)].
    apply (frame_payload _ _ _ _ _ _ _ F HS Hfl).
    constructor; [lia|constructor; [lia|constructor; [lia|constructor; [lia|constructor]]]].
Qed.

(** ** [mm_malloc] on requests whose adjusted size does not wrap *)

(** On a well-formed heap, a request of [size] bytes with
    [size + 39 < 2^32] either fails with [NULL] and changes nothing, or
    returns a block [p] that was not allocated before, is allocated now
    with at least [size + OVERHEAD] bytes and less than [OVERHEAD] bytes
    beyond the adjusted size, in a well-formed heap whose
    other allocated blocks are the former ones with their payloads. *)
Lemma mm_malloc_allocs fuel h M fl size :
  heap_inv None None h M fl -> 0 < size -> size + 39 < WORD ->
  (length fl < fuel)%nat ->
  exists p h', mm_malloc fuel h size = Some (p, h')
    /\ ((p = NULL /\ h' = h)
        \/ (p <> NULL /\ exists M' fl' c',
              heap_inv None None h' M' fl' /\ M' !! p = Some (c', 1)
              /\ (size + OVERHEAD <= c' /\ adjust size <= c'
                  /\ c' < adjust size + OVERHEAD)
              /\ (forall sq, M !! p <> Some (sq, 1))
              /\ (forall q sq, M' !! q = Some (sq, 1) <->
                               (q = p /\ sq = c') \/ M !! q = Some (sq, 1))
              /\ (forall q sq, M !! q = Some (sq, 1) -> payload_eq h h' q sq))).
Proof.
  intros I H0 H1 Hf. unfold OVERHEAD.
  destruct (adjust_in_range size H0 H1) as (A1 & A2 & A3 & A4).
  destruct (find_fit_inv _ _ h M fl fuel (adjust size) I Hf)
    as (r & Er & [[-> Hno]|[Hin (c & Hc & Hle)]]).
  - (* no fit *)
    rewrite (mm_malloc_miss fuel h size H0 Er).
    destruct (MAX_adjust size) as (X1 & X2 & X3).
    destruct (Z_le_gt_dec (mem_brk h + MAX (adjust size) CHUNKSIZE) (mem_max_addr h))
      as [Hok|Hfail].
    + destruct (extend_heap_allocs h M fl _ I X1 X2 Hok)
        as (M1 & fl1 & total & I1 & Hr & Ht & HA1 & HP1).
      destruct (extend_heap_spec h M fl _ I X1 X2 Hok) as (_ & _ & _ & _ & _ & _ & _ & Hnn).
      cbv zeta.
      destruct (Z.eqb_spec (fst (extend_heap h (MAX (adjust size) CHUNKSIZE / WSIZE))) NULL)
        as [E|_]; [contradiction|].
      eexists _, _. split; [reflexivity|]. right. split; [exact Hnn|].
      destruct (place_allocs None _ M1 fl1 _ total (adjust size) I1 (or_introl eq_refl) Hr)
        as (M' & fl' & c' & I' & Hp & Hc' & HA'); [lia|exact A3|].
      exists M', fl', c'. split; [exact I'|]. split; [exact Hp|]. split; [lia|].
      split; [|split].
      * intros sq Hsq. apply HA1 in Hsq. rewrite Hr in Hsq. discriminate.
      * intros q sq. rewrite HA'. rewrite HA1. reflexivity.
      * intros q sq Hq. eapply payload_eq_trans; [exact (HP1 q sq Hq)|].
        apply (place_payload None _ M1 fl1 _ total (adjust size) q sq I1
                 (or_introl eq_refl) Hr); [lia|exact A3|]. apply HA1. exact Hq.
    + rewrite (extend_heap_fail h _ X2) by lia. simpl.
      eexists _, _. split; [reflexivity|]. left. auto.
  - (* a fit *)
    destruct (inv_fl_block I r Hin) as [c0 Hc0].
    pose proof (inv_bounds (heap_inv_tags _ _ _ _ _ I) _ _ _ Hc0) as B.
    unfold mm_malloc. destruct (Z.leb_spec size 0); [lia|]. rewrite Er.
    destruct (Z.eqb_spec r NULL) as [E|Hn]; [unfold NULL in E; lia|]. simpl.
    eexists _, _. split; [reflexivity|]. right. split; [exact Hn|].
    destruct (place_allocs None h M fl r c (adjust size) I (or_introl eq_refl) Hc)
      as (M' & fl' & c' & I' & Hp & Hc' & HA'); [lia|exact A3|].
    exists M', fl', c'. split; [exact I'|]. split; [exact Hp|]. split; [lia|].
    split; [|split].
    + intros sq Hsq. rewrite Hc in Hsq. discriminate.
    + exact HA'.
    + intros q sq Hq.
      apply (place_payload None h M fl r c (adjust size) q sq I (or_introl eq_refl) Hc);
        [lia|exact A3|exact Hq].
Qed.

(** ** [memcpy] *)

(** Copying [n] bytes between two ranges that do not overlap: the
    destination reads as the source did, the rest is unchanged. *)
Lemma memcpy_spec n : forall m dst src,
  0 <= dst -> dst + Z.of_nat n < WORD -> 0 <= src -> src + Z.of_nat n < WORD ->
  dst + Z.of_nat n <= src \/ src + Z.of_nat n <= dst ->
  (forall i, 0 <= i < Z.of_nat n ->
     load8 (memcpy n m dst src) (dst + i) = load8 m (src + i))
  /\ (forall a, a < dst \/ dst + Z.of_nat n <= a ->
        load8 (memcpy n m dst src) a = load8 m a).
Proof.
  induction n as [|n IH]; intros m dst src Hd Hdn Hs Hsn Hdis.
  - split; [intros i Hi; simpl in Hi; lia|intros a _; reflexivity].
  - cbn [memcpy]. rewrite (w32_small (dst + 1)), (w32_small (src + 1)) by lia.
    destruct (IH (store8 m dst (load8 m src)) (dst + 1) (src + 1)) as [IH1 IH2];
      try lia.
    split.
    + intros i Hi. destruct (Z.eq_dec i 0) as [->|Hi0].
      * rewrite Z.add_0_r. rewrite IH2 by lia. rewrite load8_store8.
        destruct (decide (dst = dst)); [|congruence].
        rewrite Z.add_0_r. apply Z.mod_small. apply load8_range.
      * replace (dst + i) with (dst + 1 + (i - 1)) by lia.
        rewrite IH1 by lia. rewrite load8_store8.
        destruct (decide (dst = src + 1 + (i - 1))); [lia|]. f_equal. lia.
    + intros a Ha. rewrite IH2 by lia. rewrite load8_store8.
      destruct (decide (dst = a)); [lia|reflexivity].
Qed.

(** ** Writing into the payload of an allocated block *)

(** The invariant does not read the payload of an allocated block. *)
Lemma payload_write_inv h M fl p c m' n :
  heap_inv None None h M fl -> M !! p = Some (c, 1) ->
  0 <= n -> n + 12 <= c ->
  (forall a, a < p \/ p + n <= a -> load8 m' a = load8 (mem h) a) ->
  heap_inv None None (set_mem h m') M fl.
Proof.
  intros I Hp Hn Hc Hm. pose proof (inv_geom _ _ _ _ _ I) as G.
  pose proof (g_block _ _ _ G _ _ _ Hp) as Bp.
  pose proof (inv_lo _ _ _ _ _ I) as Hlo.
  pose proof (inv_brk _ _ _ _ _ I) as Hbrk. pose proof (inv_max _ _ _ _ _ I) as Hmax.
  assert (E : forall q, q + 4 <= p \/ p + n <= q -> GET (set_mem h m') q = GET h q).
  { intros q Hq. apply GET_ext. intros a Ha. cbn [set_mem mem]. apply Hm. lia. }
  constructor; cbn [set_mem mem_start_brk mem_brk mem_max_addr heap_listp free_listp].
  - exact Hlo.
  - exact (inv_align _ _ _ _ _ I).
  - exact Hbrk.
  - exact Hmax.
  - exact (inv_heap_listp _ _ _ _ _ I).
  - rewrite E by lia. exact (inv_sentinel _ _ _ _ _ I).
  - rewrite E by lia. exact (inv_pad _ _ _ _ _ I).
  - rewrite E by lia. exact (inv_epilogue _ _ _ _ _ I).
  - exact G.
  - intros b s a Hb. pose proof (g_block _ _ _ G _ _ _ Hb) as Bb.
    destruct (inv_tags _ _ _ _ _ I b s a Hb) as [T1 T2].
    destruct (g_disj _ _ _ G _ _ _ _ _ _ Hp Hb) as [Eb|D].
    + subst b. rewrite Hp in Hb. injection Hb as <- <-.
      rewrite !E by lia. split; assumption.
    + rewrite !E by lia. split; assumption.
  - exact (inv_noadj _ _ _ _ _ I).
  - apply (dll_frame h); [|exact (inv_dll _ _ _ _ _ I)].
    intros x Hx. destruct (inv_fl_block I x Hx) as [sx Hsx].
    pose proof (g_block _ _ _ G _ _ _ Hsx) as Bx.
    destruct (alloc_off_free _ _ _ _ _ _ _ G Hp Hsx) as [D|D].
    + unfold PREV_FREE. rewrite (NEXT_FREE_eq _ x), (NEXT_FREE_eq h x) by lia.
      rewrite !E by lia. split; reflexivity.
    + unfold PREV_FREE. rewrite (NEXT_FREE_eq _ x), (NEXT_FREE_eq h x) by lia.
      rewrite !E by lia. split; reflexivity.
  - exact (inv_nodup _ _ _ _ _ I).
  - exact (inv_fl _ _ _ _ _ I).
Qed.

(** ** [mm_realloc] on requests whose adjusted size does not wrap *)

(** On a well-formed heap, with [p] allocated and [size + 39 < 2^32]:
    [mm_realloc] ends the process when the inner [mm_malloc] fails;
    otherwise it returns a new allocated block whose first bytes are those
    of the payload of [p], up to [size], frees [p], and leaves the other
    allocated blocks and their payloads as they were. *)
Lemma mm_realloc_allocs fuel h M fl p s size :
  heap_inv None None h M fl -> M !! p = Some (s, 1) ->
  0 < size -> size + 39 < WORD -> (length fl < fuel)%nat ->
  mm_realloc fuel h p size = Exits 1 h
  \/ exists newp h' M' fl' c',
       mm_realloc fuel h p size = Returns newp h'
       /\ newp <> NULL
       /\ heap_inv None None h' M' fl' /\ M' !! newp = Some (c', 1)
       /\ size + OVERHEAD <= c'
       /\ (forall sq, M !! newp <> Some (sq, 1))
       /\ (forall q sq, M' !! q = Some (sq, 1) <->
                        (q = newp /\ sq = c') \/ (q <> p /\ M !! q = Some (sq, 1)))
       /\ (forall i, 0 <= i < s - DSIZE -> i < size ->
                     load8 (mem h') (newp + i) = load8 (mem h) (p + i))
       /\ (forall q sq, q <> p -> M !! q = Some (sq, 1) -> payload_eq h h' q sq).
Proof.
  intros I Hp H0 H1 Hf. unfold OVERHEAD, DSIZE.
  destruct (mm_malloc_allocs fuel h M fl size I H0 H1 Hf)
    as (newp & h1 & Em & [[-> ->]|(Hnn & M1 & fl1 & c1 & I1 & Hnew & Hc1 & Hfresh & HA1 & HP1)]).
  { left. unfold mm_realloc. rewrite Em. reflexivity. }
  right. unfold OVERHEAD in Hc1.
  unfold mm_realloc. rewrite Em.
  destruct (Z.eqb_spec newp NULL) as [E|_]; [contradiction|].
  assert (Hp1 : M1 !! p = Some (s, 1)) by (apply HA1; right; exact Hp).
  assert (Hne : newp <> p) by (intros ->; exact (Hfresh s Hp)).
  destruct (heap_inv_block_tags _ _ _ _ _ _ _ _ I1 Hp1) as [ES _]. rewrite ES.
  pose proof (inv_geom _ _ _ _ _ I1) as G1.
  pose proof (inv_bounds (heap_inv_tags _ _ _ _ _ I1) _ _ _ Hp1) as Bp.
  pose proof (inv_bounds (heap_inv_tags _ _ _ _ _ I1) _ _ _ Hnew) as Bn.
  assert (D : newp + c1 <= p \/ p + s <= newp).
  { destruct (g_disj _ _ _ G1 _ _ _ _ _ _ Hnew Hp1) as [E|E]; [contradiction|exact E]. }
  set (copy := if size <? s then size else s).
  assert (Hcopy : 0 <= copy <= size /\ copy <= s /\ (size < s -> copy = size)
                  /\ (s <= size -> copy = s)).
  { unfold copy. destruct (Z.ltb_spec size s); lia. }
  destruct (memcpy_spec (Z.to_nat copy) (mem h1) newp p) as [C1 C2]; try lia.
  rewrite Z2Nat.id in C1, C2 by lia.
  set (m2 := memcpy (Z.to_nat copy) (mem h1) newp p) in *.
  assert (I2 : heap_inv None None (set_mem h1 m2) M1 fl1).
  { apply (payload_write_inv h1 M1 fl1 newp c1 m2 copy I1 Hnew); [lia|lia|].
    intros a Ha. apply C2. exact Ha. }
  destruct (mm_free_allocs _ M1 fl1 p s I2 Hp1) as (M' & fl' & I' & HA' & HP').
  exists newp, (mm_free (set_mem h1 m2) p), M', fl', c1.
  split; [reflexivity|]. split; [exact Hnn|]. split; [exact I'|].
  split; [apply HA'; split; assumption|]. split; [lia|]. split; [exact Hfresh|].
  split; [|split].
  - intros q sq. rewrite HA', HA1. split.
    + intros [Hq [[-> ->]|H]]; [left; auto|right; auto].
    + intros [[-> ->]|[Hq H]]; split; auto.
  - intros i Hi Hs.
    rewrite (HP' newp c1 Hne Hnew) by (unfold DSIZE; lia).
    cbn [set_mem mem]. rewrite C1 by lia.
    apply (HP1 p s Hp). unfold DSIZE. lia.
  - intros q sq Hq HqM.
    assert (Hq1 : M1 !! q = Some (sq, 1)) by (apply HA1; right; exact HqM).
    assert (Hqn : q <> newp) by (intros ->; exact (Hfresh sq HqM)).
    pose proof (inv_bounds (heap_inv_tags _ _ _ _ _ I1) _ _ _ Hq1) as Bq.
    assert (Dq : newp + c1 <= q \/ q + sq <= newp).
    { destruct (g_disj _ _ _ G1 _ _ _ _ _ _ Hnew Hq1) as [E|E]; [congruence|exact E]. }
    eapply payload_eq_trans; [exact (HP1 q sq HqM)|].
    eapply payload_eq_trans; [|exact (HP' q sq Hq Hq1)].
    intros a Ha. unfold DSIZE in Ha. cbn [set_mem mem]. apply C2. lia.
Qed.

(** ** More fuel does not change a result *)

Lemma find_fit_from_mono fuel : forall fuel' h asize bp r,
  find_fit_from fuel h asize bp = Some r -> (fuel <= fuel')%nat ->
  find_fit_from fuel' h asize bp = Some r.
Proof.
  induction fuel as [|fuel IH]; intros fuel' h asize bp r H Hle; [discriminate|].
  destruct fuel' as [|fuel']; [lia|]. simpl in *.
  destruct (GET_ALLOC h (HDRP bp) =? 0); [|exact H].
  destruct (asize <=? GET_SIZE h (HDRP bp)); [exact H|].
  apply IH; [exact H|lia].
Qed.

Lemma mm_malloc_mono fuel fuel' h size r :
  mm_malloc fuel h size = Some r -> (fuel <= fuel')%nat ->
  mm_malloc fuel' h size = Some r.
Proof.
  unfold mm_malloc, find_fit. intros H Hle.
  destruct (size <=? 0); [exact H|].
  destruct (find_fit_from fuel h (adjust size) (free_listp h)) as [bp|] eqn:E;
    [|discriminate].
  rewrite (find_fit_from_mono fuel fuel' _ _ _ _ E Hle). exact H.
Qed.

Lemma mm_realloc_mono fuel fuel' h p size newp h' :
  mm_realloc fuel h p size = Returns newp h' -> (fuel <= fuel')%nat ->
  mm_realloc fuel' h p size = Returns newp h'.
Proof.
  unfold mm_realloc. intros H Hle.
  destruct (mm_malloc fuel h size) as [r|] eqn:E; [|discriminate].
  rewrite (mm_malloc_mono fuel fuel' _ _ _ E Hle). exact H.
Qed.

(** ** The states a client reaches *)

(** Every state of a run is well formed, and the pointers the client
    holds are the allocated blocks. *)
Lemma run_inv h live :
  run h live ->
  exists M fl, heap_inv None None h M fl /\ NoDup live
    /\ forall q, q ∈ live <-> exists s, M !! q = Some (s, 1).
Proof.
  induction 1 as [lo hi Hlo Hal Hhi
                 |h live fuel size p h' R IH H0 H1 Em Hnn
                 |h live p R IH Hin
                 |h live fuel p size newp h' R IH Hin H0 H1 Er].
  - destruct (mm_init_spec lo hi Hlo Hal Hhi) as [_ I].
    eexists _, _. split; [exact I|]. split; [apply NoDup_nil_2|].
    intros q. split; [intros Hq; inversion Hq|].
    intros [s Hs]. lkh Hs.
  - destruct IH as (M & fl & I & ND & HL).
    assert (Hf : (length fl < fuel + S (length fl))%nat) by lia.
    assert (Hle : (fuel <= fuel + S (length fl))%nat) by lia.
    destruct (mm_malloc_allocs _ h M fl size I H0 H1 Hf) as (p0 & h0 & Em0 & Hcase).
    rewrite (mm_malloc_mono fuel _ _ _ _ Em Hle) in Em0.
    injection Em0 as <- <-.
    destruct Hcase as [[E _]|(_ & M' & fl' & c' & I' & Hp & _ & Hfresh & HA & _)];
      [contradiction|].
    exists M', fl'. split; [exact I'|]. split.
    + apply NoDup_cons. split; [|exact ND].
      intros Hp'. apply HL in Hp'. destruct Hp' as [s Hs]. exact (Hfresh s Hs).
    + intros q. rewrite elem_of_cons, HL. split.
      * intros [->|[s Hs]]; [eauto|]. exists s. apply HA. right. exact Hs.
      * intros [s Hs]. apply HA in Hs. destruct Hs as [[-> _]|Hs]; eauto.
  - destruct IH as (M & fl & I & ND & HL).
    destruct (proj1 (HL p) Hin) as [s Hs].
    destruct (mm_free_allocs h M fl p s I Hs) as (M' & fl' & I' & HA & _).
    exists M', fl'. split; [exact I'|]. split; [apply NoDup_filter; exact ND|].
    intros q. rewrite list_elem_of_filter, HL. split.
    + intros [Hq [sq Hsq]]. exists sq. apply HA. auto.
    + intros [sq Hsq]. apply HA in Hsq. destruct Hsq as [Hq Hsq]. eauto.
  - destruct IH as (M & fl & I & ND & HL).
    destruct (proj1 (HL p) Hin) as [s Hs].
    assert (Hf : (length fl < fuel + S (length fl))%nat) by lia.
    assert (Hle : (fuel <= fuel + S (length fl))%nat) by lia.
    destruct (mm_realloc_allocs _ h M fl p s size I Hs H0 H1 Hf)
      as [Ex|(n0 & h0 & M' & fl' & c' & Er0 & _ & I' & Hn & _ & Hfresh & HA & _)];
      rewrite (mm_realloc_mono fuel _ _ _ _ _ _ Er Hle) in *; [discriminate|].
    injection Er0 as <- <-.
    exists M', fl'. split; [exact I'|]. split.
    + apply NoDup_cons. split; [|apply NoDup_filter; exact ND].
      rewrite list_elem_of_filter, HL. intros [_ [sq Hsq]]. exact (Hfresh sq Hsq).
    + intros q. rewrite elem_of_cons, list_elem_of_filter, HL. split.
      * intros [->|[Hq [sq Hsq]]]; [eauto|]. exists sq. apply HA. auto.
      * intros [sq Hsq]. apply HA in Hsq.
        destruct Hsq as [[-> _]|[Hq Hsq]]; eauto.
Qed.

(** ** Scanning a well-formed heap *)

Lemma heap_blocks_end fuel h M :
  heap_tags h M -> heap_blocks fuel h (mem_brk h) = [].
Proof.
  intros T. destruct fuel as [|fuel]; [reflexivity|]. simpl.
  pose proof (ht_geom _ _ T) as G. destruct (g_first _ _ _ G) as [[s a] Hf].
  pose proof (inv_bounds T _ _ _ Hf) as B.
  rewrite HDRP_eq by lia.
  destruct (tag_read h (mem_brk h - 4) 0 1) as [E _];
    [rewrite (ht_epilogue _ _ T); reflexivity|lia|reflexivity|auto|].
  rewrite E. reflexivity.
Qed.

Lemma heap_blocks_step fuel h M bp s a :
  heap_tags h M -> M !! bp = Some (s, a) ->
  heap_blocks (S fuel) h bp = (bp, s, a) :: heap_blocks fuel h (bp + s).
Proof.
  intros T Hb. pose proof (inv_bounds T _ _ _ Hb) as B.
  destruct (inv_block_read T _ _ _ Hb) as (_ & ES & EA & EN & _).
  cbn [heap_blocks]. rewrite ES, EA, EN.
  destruct (Z.eqb_spec s 0); [lia|reflexivity].
Qed.

(** The scan reads blocks of the table only. *)
Lemma heap_blocks_sound h M : heap_tags h M ->
  forall fuel bp s a, M !! bp = Some (s, a) ->
  Forall (fun x => M !! x.1.1 = Some (x.1.2, x.2)) (heap_blocks fuel h bp).
Proof.
  intros T. induction fuel as [|fuel IH]; intros bp s a Hb; [constructor|].
  rewrite (heap_blocks_step fuel h M bp s a T Hb). constructor; [exact Hb|].
  destruct (g_succ _ _ _ (ht_geom _ _ T) _ _ _ Hb) as [E|[[s' a'] Hn]].
  - rewrite E, (heap_blocks_end fuel h M T). constructor.
  - exact (IH _ _ _ Hn).
Qed.

(** With fuel for every block, the scan reads all the blocks from [bp]
    on. *)
Lemma heap_blocks_complete h M : heap_tags h M ->
  forall fuel bp s a, M !! bp = Some (s, a) ->
  mem_brk h - bp <= 32 * Z.of_nat fuel ->
  forall b sb ab, M !! b = Some (sb, ab) -> bp <= b ->
  (b, sb, ab) ∈ heap_blocks fuel h bp.
Proof.
  intros T. pose proof (ht_geom _ _ T) as G.
  induction fuel as [|fuel IH]; intros bp s a Hb Hf b sb ab Hbb Hle.
  - pose proof (g_block _ _ _ G _ _ _ Hb). lia.
  - rewrite (heap_blocks_step fuel h M bp s a T Hb).
    pose proof (g_block _ _ _ G _ _ _ Hb) as B.
    pose proof (g_block _ _ _ G _ _ _ Hbb) as Bb.
    destruct (g_disj _ _ _ G _ _ _ _ _ _ Hb Hbb) as [E|D].
    + subst b. rewrite Hb in Hbb. injection Hbb as <- <-. apply list_elem_of_here.
    + apply list_elem_of_further.
      destruct (g_succ _ _ _ G _ _ _ Hb) as [E|[[s' a'] Hn]]; [lia|].
      apply (IH _ _ _ Hn); [lia|exact Hbb|lia].
Qed.

(** No two neighbours of the scan are both free. *)
Lemma heap_blocks_no_adjacent_free h M fl :
  heap_inv None None h M fl ->
  forall fuel bp s a, M !! bp = Some (s, a) ->
  adjacent_free (heap_blocks fuel h bp) = false.
Proof.
  intros I. pose proof (heap_inv_tags _ _ _ _ _ I) as T.
  induction fuel as [|fuel IH]; intros bp s a Hb; [reflexivity|].
  rewrite (heap_blocks_step fuel h M bp s a T Hb).
  destruct (g_succ _ _ _ (ht_geom _ _ T) _ _ _ Hb) as [E|[[s' a'] Hn]].
  - rewrite E, (heap_blocks_end fuel h M T). reflexivity.
  - specialize (IH _ _ _ Hn). destruct fuel as [|fuel]; [reflexivity|].
    rewrite (heap_blocks_step fuel h M _ s' a' T Hn) in *.
    cbn [adjacent_free]. cbn [adjacent_free] in IH. rewrite IH, orb_false_r.
    clear IH.
    destruct (Z.eqb_spec a 0) as [Ea|]; [|reflexivity].
    destruct (Z.eqb_spec a' 0) as [Ea'|]; [|reflexivity].
    subst a a'. destruct (inv_noadj _ _ _ _ _ I _ _ _ Hb Hn); discriminate.
Qed.

(** ** The end of the free list *)

Lemma dll_last h S : forall l prev first,
  dll h S prev first l -> l <> [] -> NEXT_FREE h (List.last l prev) = S.
Proof.
  induction l as [|x l IH]; intros prev first D Hne; [congruence|].
  destruct D as (_ & _ & D). destruct l as [|y l].
  - simpl in *. exact D.
  - rewrite last_cons_default. apply (IH x _ D). discriminate.
Qed.

Lemma checkheap_from_chain h bp l :
  free_chain h bp l ->
  forall fuel, (length l < fuel)%nat ->
  exists r, checkheap_from fuel h bp = Some r.
Proof.
  induction 1 as [bp Ha | bp l Ha Hl IH]; intros fuel Hf.
  - destruct fuel as [|fuel]; [simpl in Hf; lia|]. simpl.
    destruct (Z.eqb_spec (GET_ALLOC h (HDRP bp)) 0); [contradiction|eauto].
  - destruct fuel as [|fuel]; [simpl in Hf; lia|]. simpl in *.
    rewrite Ha. simpl.
    destruct (check_block h bp =? 0); [eauto|]. apply IH. lia.
Qed.

Lemma sentinel_allocated ex out h M fl :
  heap_inv ex out h M fl ->
  sentinel h = heap_listp h + DSIZE /\ GET_ALLOC h (HDRP (sentinel h)) = 1.
Proof.
  intros I. pose proof (inv_lo _ _ _ _ _ I) as Hlo.
  pose proof (inv_brk _ _ _ _ _ I). pose proof (inv_max _ _ _ _ _ I).
  destruct (g_first _ _ _ (inv_geom _ _ _ _ _ I)) as [[s a] Hf].
  pose proof (g_block _ _ _ (inv_geom _ _ _ _ _ I) _ _ _ Hf) as B.
  split; [unfold sentinel; rewrite (inv_heap_listp _ _ _ _ _ I); reflexivity|].
  unfold sentinel, DSIZE. rewrite HDRP_eq by lia.
  replace (mem_start_brk h + 8 - 4) with (mem_start_brk h + 4) by lia.
  destruct (tag_read h (mem_start_brk h + 4) 32 1) as [_ E];
    [rewrite (inv_sentinel _ _ _ _ _ I); reflexivity|lia|reflexivity|auto|exact E].
Qed.

(** On a well-formed heap the free list is the duplicate-free chain of the
    free blocks; the successor of its last node (or [free_listp], when
    there is none) is the sentinel [heap_listp + DSIZE], whose header has
    the allocated bit set; [find_fit] and the loop of [mm_checkheap] end
    there. *)
Lemma heap_inv_free_list h M fl :
  heap_inv None None h M fl ->
  free_chain h (free_listp h) fl /\ NoDup fl
  /\ (forall x, x ∈ fl <-> exists s, M !! x = Some (s, 0))
  /\ (if decide (fl = []) then free_listp h = sentinel h
      else NEXT_FREE h (List.last fl NULL) = sentinel h)
  /\ sentinel h = heap_listp h + DSIZE
  /\ GET_ALLOC h (HDRP (sentinel h)) = 1
  /\ (forall asize, find_fit (S (length fl)) h asize = Some (first_fit h asize fl))
  /\ (exists r, checkheap_from (S (length fl)) h (free_listp h) = Some r).
Proof.
  intros I. pose proof (heap_inv_free_chain _ _ _ _ _ I) as C.
  destruct (sentinel_allocated _ _ _ _ _ I) as [S1 S2].
  split; [exact C|]. split; [exact (inv_nodup _ _ _ _ _ I)|]. split.
  { intros x. rewrite (inv_fl _ _ _ _ _ I x). split; [tauto|]. intros H. split; [exact H|discriminate]. }
  split.
  { destruct (decide (fl = [])) as [->|Hne].
    - exact (inv_dll _ _ _ _ _ I).
    - exact (dll_last _ _ _ _ _ (inv_dll _ _ _ _ _ I) Hne). }
  split; [exact S1|]. split; [exact S2|]. split.
  - intros asize. unfold find_fit. apply find_fit_from_chain; [exact C|lia].
  - apply (checkheap_from_chain _ _ _ C). lia.
Qed.

(** ** What a client can rely on

    The properties below hold in every state of a [run]: they are the
    invariants and contracts of the allocator for requests whose adjusted
    size does not wrap. *)

Lemma run_heap_ok h live : run h live -> heap_ok h.
Proof. intros R. destruct (run_inv h live R) as (M & fl & I & _). exists M, fl. exact I. Qed.

(** Every block the heap scan meets has equal header and footer words, is
    aligned, and no two neighbours of the scan are both free. *)
Lemma run_heap_scan h live fuel :
  run h live ->
  Forall (fun x => GET h (HDRP x.1.1) = GET h (FTRP h x.1.1) /\ x.1.1 mod 8 = 0)
         (heap_blocks fuel h (first_block h))
  /\ adjacent_free (heap_blocks fuel h (first_block h)) = false.
Proof.
  intros R. destruct (run_inv h live R) as (M & fl & I & _).
  pose proof (heap_inv_tags _ _ _ _ _ I) as T.
  destruct (g_first _ _ _ (inv_geom _ _ _ _ _ I)) as [[s a] Hf].
  change (mem_start_brk h + 64) with (first_block h) in Hf.
  split.
  - pose proof (heap_blocks_sound h M T fuel _ _ _ Hf) as HS.
    rewrite Forall_forall in *. intros [[b sb] ab] Hx. specialize (HS _ Hx).
    cbn [fst snd] in *.
    destruct (inv_block_read T _ _ _ HS) as (E1 & _ & _ & _ & E2).
    destruct (inv_tags _ _ _ _ _ I _ _ _ HS) as [T1 T2].
    pose proof (g_block _ _ _ (inv_geom _ _ _ _ _ I) _ _ _ HS).
    rewrite E1, E2, T1, T2. split; [reflexivity|lia].
  - exact (heap_blocks_no_adjacent_free h M fl I fuel _ _ _ Hf).
Qed.

(** The free list ends at the allocated-marked sentinel, and the loops
    over it end. *)
Lemma run_free_list h live :
  run h live ->
  exists fl,
    free_chain h (free_listp h) fl /\ NoDup fl
    /\ (if decide (fl = []) then free_listp h = sentinel h
        else NEXT_FREE h (List.last fl NULL) = sentinel h)
    /\ sentinel h = heap_listp h + DSIZE
    /\ GET_ALLOC h (HDRP (sentinel h)) = 1
    /\ (forall asize, find_fit (S (length fl)) h asize = Some (first_fit h asize fl))
    /\ (exists r, checkheap_from (S (length fl)) h (free_listp h) = Some r).
Proof.
  intros R. destruct (run_inv h live R) as (M & fl & I & _).
  destruct (heap_inv_free_list h M fl I) as (A1 & A2 & _ & A4 & A5 & A6 & A7 & A8).
  exists fl. repeat split; assumption.
Qed.

(** The result of a successful [mm_malloc]: an aligned pointer the client
    did not hold, to a block marked allocated, with at least [size] bytes
    between the pointer and the footer, that is not a node of the free
    list. *)
Lemma run_malloc_result h live fuel size p h' :
  run h live -> 0 < size -> size + 39 < WORD ->
  mm_malloc fuel h size = Some (p, h') -> p <> NULL ->
  p mod 8 = 0 /\ (p ∉ live)
  /\ GET_ALLOC h' (HDRP p) = 1
  /\ size <= GET_SIZE h' (HDRP p) - DSIZE
  /\ (forall l, free_chain h' (free_listp h') l -> p ∉ l).
Proof.
  intros R H0 H1 Em Hnn. destruct (run_inv h live R) as (M & fl & I & _ & HL).
  assert (Hf : (length fl < fuel + S (length fl))%nat) by lia.
  assert (Hle : (fuel <= fuel + S (length fl))%nat) by lia.
  destruct (mm_malloc_allocs _ h M fl size I H0 H1 Hf) as (p0 & h0 & Em0 & Hcase).
  rewrite (mm_malloc_mono fuel _ _ _ _ Em Hle) in Em0. injection Em0 as <- <-.
  destruct Hcase as [[E _]|(_ & M' & fl' & c' & I' & Hp & Hc & Hfresh & _)];
    [contradiction|].
  destruct (heap_inv_block_tags _ _ _ _ _ _ _ _ I' Hp) as [ES EA].
  pose proof (g_block _ _ _ (inv_geom _ _ _ _ _ I') _ _ _ Hp) as B.
  unfold OVERHEAD in Hc. unfold DSIZE.
  split; [lia|]. split.
  { intros Hin. apply HL in Hin. destruct Hin as [s Hs]. exact (Hfresh s Hs). }
  split; [exact EA|]. split; [lia|].
  intros l Hl Hin.
  assert (El : l = fl')
    by exact (free_chain_unique _ _ _ _ Hl (heap_inv_free_chain _ _ _ _ _ I')).
  subst l. exact (heap_inv_alloc_not_listed _ _ _ _ _ _ I' Hp Hin).
Qed.

(** The result of a returning [mm_realloc] on a block [p] the client
    holds: the bytes of the payload of [p], up to [size], are at the new
    pointer, which the client did not hold; the blocks the client holds
    besides [p] keep their payload. *)
Lemma run_realloc_result h live fuel p size newp h' :
  run h live -> p ∈ live -> 0 < size -> size + 39 < WORD ->
  mm_realloc fuel h p size = Returns newp h' ->
  (newp ∉ live)
  /\ (forall i, 0 <= i < GET_SIZE h (HDRP p) - DSIZE -> i < size ->
                load8 (mem h') (newp + i) = load8 (mem h) (p + i))
  /\ (forall q, q ∈ live -> q <> p ->
                payload_eq h h' q (GET_SIZE h (HDRP q))).
Proof.
  intros R Hin H0 H1 Er. destruct (run_inv h live R) as (M & fl & I & _ & HL).
  destruct (proj1 (HL p) Hin) as [s Hs].
  assert (Hf : (length fl < fuel + S (length fl))%nat) by lia.
  assert (Hle : (fuel <= fuel + S (length fl))%nat) by lia.
  destruct (mm_realloc_allocs _ h M fl p s size I Hs H0 H1 Hf)
    as [Ex|(n0 & h0 & M' & fl' & c' & Er0 & _ & I' & Hn & _ & Hfresh & _ & HB & HP)];
    rewrite (mm_realloc_mono fuel _ _ _ _ _ _ Er Hle) in *; [discriminate|].
  injection Er0 as <- <-.
  destruct (heap_inv_block_tags _ _ _ _ _ _ _ _ I Hs) as [ES _].
  split; [|split].
  - intros Hin'. apply HL in Hin'. destruct Hin' as [sq Hsq]. exact (Hfresh sq Hsq).
  - rewrite ES. exact HB.
  - intros q Hq Hne. apply HL in Hq. destruct Hq as [sq Hsq].
    destruct (heap_inv_block_tags _ _ _ _ _ _ _ _ I Hsq) as [ESq _]. rewrite ESq.
    exact (HP q sq Hne Hsq).
Qed.

(** A run on [demo_arena]: [mm_init()], then [p = mm_malloc(1)], which
    returns 4160, then [mm_realloc(p, 100)], which returns 4200. *)
Lemma run_demo :
  exists h1 h2,
    mm_malloc 2 demo_init 1 = Some (4160, h1)
    /\ mm_realloc 4 h1 4160 100 = Returns 4200 h2
    /\ run h2 [4200].
Proof.
  pose (h1 := match mm_malloc 2 demo_init 1 with
              | Some (_, h) => h | None => demo_init end).
  pose (h2 := match mm_realloc 4 h1 4160 100 with
              | Returns _ h => h | _ => h1 end).
  assert (E1 : mm_malloc 2 demo_init 1 = Some (4160, h1)) by (vm_compute; reflexivity).
  assert (E2 : mm_realloc 4 h1 4160 100 = Returns 4200 h2) by (vm_compute; reflexivity).
  exists h1, h2. split; [exact E1|]. split; [exact E2|].
  assert (R0 : run demo_init []).
  { apply (run_init 4096 8192); [lia|reflexivity|unfold WORD; lia]. }
  assert (R1 : run h1 [4160]).
  { apply (run_malloc demo_init [] 2 1 4160 h1 R0); [lia|unfold WORD; lia|exact E1|].
    unfold NULL. lia. }
  apply (run_realloc h1 [4160] 4 4160 100 4200 h2 R1);
    [apply list_elem_of_here|lia|unfold WORD; lia|exact E2].
Qed.

(** ** Runs on [demo_arena] *)

Lemma demo_init_run : run demo_init [].
Proof. apply (run_init 4096 8192); [lia|reflexivity|unfold WORD; lia]. Qed.

Lemma demo_held_eq : mm_malloc 2 demo_init 1 = Some (4160, demo_held).
Proof. vm_compute. reflexivity. Qed.

Lemma demo_held_run : run demo_held [4160].
Proof.
  apply (run_malloc demo_init [] 2 1 4160 demo_held demo_init_run);
    [lia|unfold WORD; lia|exact demo_held_eq|unfold NULL; lia].
Qed.

(** ** [mm_init] *)

(** [mm_init] on a fresh arena of at least 96 bytes: it returns 0, leaves
    [heap_listp] at the first address and the break 96 bytes above it;
    the heap has one block, free, of [CHUNKSIZE] bytes, which is the only
    node of the free list. *)
Theorem mm_init_fresh_arena (lo hi : Z) :
  0 < lo -> lo mod 8 = 0 -> lo + 96 <= hi < WORD ->
  let h := snd (mm_init (fresh_arena lo hi)) in
  fst (mm_init (fresh_arena lo hi)) = 0
  /\ heap_listp h = lo
  /\ mem_brk h = lo + 2 * OVERHEAD + CHUNKSIZE
  /\ (forall fuel,
        heap_blocks (S fuel) h (first_block h) = [(lo + 2 * OVERHEAD, CHUNKSIZE, 0)])
  /\ free_chain h (free_listp h) [first_block h]
  /\ heap_ok h.
Proof.
  intros Hlo Hal Hhi h.
  destruct (mm_init_spec lo hi Hlo Hal Hhi) as [E0 I]. fold h in I.
  pose proof (mm_init_eq lo hi Hlo Hhi) as Eq.
  assert (Eh : h = init_heap lo hi) by (unfold h; rewrite Eq; reflexivity).
  assert (Ebrk : mem_brk h = lo + 96) by (rewrite Eh; reflexivity).
  assert (Elo : mem_start_brk h = lo) by (rewrite Eh; reflexivity).
  pose proof (heap_inv_tags _ _ _ _ _ I) as T.
  assert (Hb : (<[lo + 64 := (32, 0)]> ∅ : gmap Z (Z * Z)) !! (lo + 64) = Some (32, 0)) by lk.
  split; [exact E0|]. split; [rewrite <- Elo; exact (inv_heap_listp _ _ _ _ _ I)|].
  split; [rewrite Ebrk; unfold OVERHEAD, CHUNKSIZE; lia|]. split; [|split].
  - intros fuel. unfold first_block, OVERHEAD, CHUNKSIZE. rewrite Elo.
    replace (lo + 2 * 32) with (lo + 64) by lia.
    rewrite (heap_blocks_step fuel h _ _ _ _ T Hb).
    replace (lo + 64 + 32) with (mem_brk h) by lia.
    rewrite (heap_blocks_end fuel h _ T). reflexivity.
  - pose proof (heap_inv_free_chain _ _ _ _ _ I) as C.
    unfold first_block, OVERHEAD. rewrite Elo.
    replace (lo + 2 * 32) with (lo + 64) by lia. exact C.
  - eexists _, _. exact I.
Qed.

Lemma mm_init_fresh_arena_witness :
  fst (mm_init (fresh_arena 4096 8192)) = 0
  /\ heap_blocks 1 (snd (mm_init (fresh_arena 4096 8192)))
       (first_block (snd (mm_init (fresh_arena 4096 8192))))
     = [(4096 + 2 * OVERHEAD, CHUNKSIZE, 0)].
Proof.
  destruct (mm_init_fresh_arena 4096 8192) as (A & _ & _ & B & _);
    [lia|reflexivity|unfold WORD; lia|].
  split; [exact A|exact (B O)].
Defined.

(** [mm_init] on a fresh arena that holds the 64 bytes of the prologue
    area but not the first chunk: the second request to the provider is
    refused, and [mm_init] returns -1 with the break 64 bytes above the
    first address. *)
Theorem mm_init_no_room (lo hi : Z) :
  0 < lo -> lo + 64 <= hi < lo + 96 -> hi < WORD ->
  fst (mm_init (fresh_arena lo hi)) = -1
  /\ mem_brk (snd (mm_init (fresh_arena lo hi))) = lo + 2 * OVERHEAD.
Proof.
  intros Hlo Hhi HW.
  unfold mm_init, mem_sbrk. cbn [fresh_arena mem_brk mem_max_addr].
  unfold OVERHEAD, WSIZE, DSIZE, CHUNKSIZE.
  destruct (Z.gtb_spec (lo + 2 * 32) hi) as [?|_]; [lia|].
  destruct (Z.eqb_spec lo NULL) as [E|_]; [unfold NULL in E; lia|].
  cbn [heap_listp set_heap_listp set_brk PUT set_mem mem mem_start_brk mem_brk
       mem_max_addr free_listp].
  set (h6 := set_free_listp _ _).
  unfold extend_heap. change (32 / 4) with 8. change (8 mod 2 =? 0) with true.
  cbv iota. change (8 * WSIZE) with 32. rewrite (w32_small 32) by (unfold WORD; lia).
  unfold mem_sbrk.
  assert (Eb : mem_brk h6 = lo + 2 * 32) by reflexivity.
  assert (Em : mem_max_addr h6 = hi) by reflexivity.
  rewrite Eb, Em.
  destruct (Z.gtb_spec (lo + 2 * 32 + 32) hi) as [_|?]; [|lia].
  rewrite Z.eqb_refl. cbn [fst snd]. rewrite Z.eqb_refl. cbn [fst snd].
  split; [reflexivity|exact Eb].
Qed.

Lemma mm_init_no_room_witness :
  fst (mm_init (fresh_arena 4096 4170)) = -1.
Proof.
  apply (mm_init_no_room 4096 4170); [lia|lia|unfold WORD; lia].
Defined.

(** ** The size adjustment of [mm_malloc] *)

(** The adjusted size is a multiple of 8.  It covers the request and the
    overhead exactly when [size + 39] does not wrap: it then lies between
    [size + 32] and [size + 39] and is at least 40.  When [size + 39]
    wraps, the adjusted size is at most 32, less than the request. *)
Theorem adjust_covers_request (size : Z) :
  0 < size < WORD ->
  adjust size mod 8 = 0
  /\ (size + 39 < WORD ->
      DSIZE + OVERHEAD <= adjust size /\ size + OVERHEAD <= adjust size < size + 40)
  /\ (WORD <= size + 39 -> 0 <= adjust size <= 32 /\ adjust size < size).
Proof.
  intros Hs. unfold adjust, DSIZE, OVERHEAD, w32, WORD in *.
  destruct (Z.leb_spec size 8) as [H8|H8].
  - split; [reflexivity|]. split; intros H; lia.
  - replace (size + 32 + (8 - 1)) with (size + 39) by lia.
    split; [|split]; intros; Z.div_mod_to_equations; lia.
Qed.

Lemma adjust_covers_request_witness :
  adjust 100 mod 8 = 0
  /\ (100 + 39 < WORD ->
      DSIZE + OVERHEAD <= adjust 100 /\ 100 + OVERHEAD <= adjust 100 < 100 + 40)
  /\ (WORD <= 100 + 39 -> 0 <= adjust 100 <= 32 /\ adjust 100 < 100).
Proof. apply (adjust_covers_request 100). unfold WORD. lia. Defined.

(** ** [find_fit] and the blocks of the heap *)

(** Fuel enough for the heap scan to read every block. *)
Lemma scan_fuel h : exists fuel, mem_brk h - first_block h <= 32 * Z.of_nat fuel.
Proof.
  exists (Z.to_nat (mem_brk h - first_block h)).
  destruct (Z.le_gt_cases 0 (mem_brk h - first_block h)); [rewrite Z2Nat.id by lia; lia|].
  rewrite Z2Nat.nonpos by lia. lia.
Qed.

(** In every state of a run, [find_fit] ends, and it is complete with
    respect to the whole heap: it returns [NULL] only when no free block
    the heap scan meets is large enough, and otherwise a free block of the
    scan whose size is at least [asize]. *)
Theorem find_fit_complete (h : heap) (live : list Z) (asize : Z) :
  run h live ->
  exists r n,
    (forall fuel, (n <= fuel)%nat -> find_fit fuel h asize = Some r)
    /\ (r = NULL ->
        forall fuel b s, (b, s, 0) ∈ heap_blocks fuel h (first_block h) -> s < asize)
    /\ (r <> NULL ->
        GET_ALLOC h (HDRP r) = 0 /\ asize <= GET_SIZE h (HDRP r)
        /\ exists fuel, (r, GET_SIZE h (HDRP r), 0) ∈ heap_blocks fuel h (first_block h)).
Proof.
  intros R. destruct (run_inv h live R) as (M & fl & I & _).
  pose proof (heap_inv_tags _ _ _ _ _ I) as T.
  destruct (g_first _ _ _ (inv_geom _ _ _ _ _ I)) as [[s0 a0] Hf].
  change (mem_start_brk h + 64) with (first_block h) in Hf.
  assert (Hlt : (length fl < S (length fl))%nat) by lia.
  destruct (find_fit_inv _ _ h M fl _ asize I Hlt) as (r & Er & Hr).
  exists r, (S (length fl)). split.
  { intros fuel Hle. unfold find_fit in *.
    exact (find_fit_from_mono _ _ _ _ _ _ Er Hle). }
  split.
  - intros -> fuel b s Hin.
    destruct Hr as [[_ Hno]|[Hin' _]].
    + pose proof (heap_blocks_sound h M T fuel _ _ _ Hf) as HS.
      rewrite Forall_forall in HS. specialize (HS _ Hin). cbn [fst snd] in HS.
      apply (Hno b s); [|exact HS]. apply (inv_fl _ _ _ _ _ I). split; [eauto|discriminate].
    + exfalso. destruct (inv_fl_block I _ Hin') as [s' Hs'].
      pose proof (inv_bounds T _ _ _ Hs'). unfold NULL in *. lia.
  - intros Hn. destruct Hr as [[E _]|[Hin (c & Hc & Hle)]]; [contradiction|].
    destruct (heap_inv_block_tags _ _ _ _ _ _ _ _ I Hc) as [ES EA].
    rewrite ES. split; [exact EA|]. split; [exact Hle|].
    destruct (scan_fuel h) as [fuel Hfuel]. exists fuel.
    apply (heap_blocks_complete h M T fuel _ _ _ Hf Hfuel _ _ _ Hc).
    pose proof (inv_bounds T _ _ _ Hc). unfold first_block, OVERHEAD. lia.
Qed.

Lemma find_fit_complete_witness :
  exists r n,
    (forall fuel, (n <= fuel)%nat -> find_fit fuel demo_held 32 = Some r)
    /\ (r = NULL ->
        forall fuel b s,
          (b, s, 0) ∈ heap_blocks fuel demo_held (first_block demo_held) -> s < 32)
    /\ (r <> NULL ->
        GET_ALLOC demo_held (HDRP r) = 0 /\ 32 <= GET_SIZE demo_held (HDRP r)
        /\ exists fuel, (r, GET_SIZE demo_held (HDRP r), 0)
                          ∈ heap_blocks fuel demo_held (first_block demo_held)).
Proof. exact (find_fit_complete demo_held [4160] 32 demo_held_run). Defined.

(** ** The free list operations *)

Lemma demo_init_dll :
  dll demo_init (sentinel demo_init) NULL (free_listp demo_init) [4160].
Proof. exact (inv_dll _ _ _ _ _ demo_init_inv). Qed.

Lemma demo_init_sentinel : sentinel demo_init = 4104.
Proof. vm_compute. reflexivity. Qed.

Lemma nodes_ok_pair S x y :
  0 <= S -> S + 12 <= x -> x + 12 <= WORD -> S + 12 <= y -> y + 12 <= WORD ->
  x + 12 <= y \/ y + 12 <= x -> nodes_ok S [x; y].
Proof.
  intros H0 H1 H2 H3 H4 H5. split; [exact H0|]. split.
  - constructor; [lia|constructor; [lia|constructor]].
  - intros a b Ha Hb. apply elem_of_cons in Ha, Hb.
    rewrite list_elem_of_singleton in Ha, Hb.
    destruct Ha as [->| ->], Hb as [->| ->]; lia.
Qed.

Lemma nodes_ok_single S x :
  0 <= S -> S + 12 <= x -> x + 12 <= WORD -> nodes_ok S [x].
Proof.
  intros H0 H1 H2. split; [exact H0|]. split.
  - constructor; [lia|constructor].
  - intros a b Ha Hb. rewrite list_elem_of_singleton in Ha, Hb. left. congruence.
Qed.

Lemma demo_nodes_pair : nodes_ok (sentinel demo_init) [4200; 4160].
Proof. apply nodes_ok_pair; rewrite ?demo_init_sentinel; unfold WORD; lia. Qed.

Lemma demo_nodes_single : nodes_ok (sentinel demo_init) [4160].
Proof. apply nodes_ok_single; rewrite ?demo_init_sentinel; unfold WORD; lia. Qed.

Lemma demo_nodup_pair : NoDup [4200; 4160].
Proof.
  apply NoDup_cons. split; [|apply NoDup_cons; split; [apply not_elem_of_nil|apply NoDup_nil_2]].
  rewrite list_elem_of_singleton. lia.
Qed.

Lemma demo_nodup_single : NoDup [4160].
Proof. apply NoDup_cons. split; [apply not_elem_of_nil|apply NoDup_nil_2]. Qed.

(** [freelist(x)] on a list [l] that ends at [S], for a node [x] that is
    not in the list and overlaps no link field of it: [x] becomes the head,
    with no predecessor and the former head for successor; the list is
    [x :: l]; outside the link fields of [S], [x] and the nodes of [l] the
    memory is unchanged. *)
Theorem freelist_pushes_head (h : heap) (S : Z) (l : list Z) (x : Z) :
  nodes_ok S (x :: l) -> NoDup (x :: l) ->
  dll h S NULL (free_listp h) l ->
  let h' := freelist h x in
  free_listp h' = x
  /\ PREV_FREE h' x = NULL
  /\ NEXT_FREE h' x = free_listp h
  /\ dll h' S NULL (free_listp h') (x :: l)
  /\ frame S (x :: l) [] h h'.
Proof.
  intros Hok Hnd D h'.
  destruct (freelist_spec h S l x Hok Hnd D) as (D' & E & F). fold h' in D', E, F.
  split; [exact E|]. pose proof D' as (_ & Hp & Dn).
  split; [exact Hp|]. split; [|split; [exact D'|exact F]].
  rewrite (dll_first _ _ _ _ _ Dn). symmetry.
  exact (dll_first _ _ _ _ _ D).
Qed.

Lemma freelist_pushes_head_witness :
  free_listp (freelist demo_init 4200) = 4200
  /\ NEXT_FREE (freelist demo_init 4200) 4200 = free_listp demo_init.
Proof.
  pose proof (freelist_pushes_head demo_init (sentinel demo_init) [4160] 4200
                demo_nodes_pair demo_nodup_pair demo_init_dll) as H.
  cbv zeta in H. destruct H as (A & _ & B & _). split; [exact A|exact B].
Defined.

(** [delete_block(x)] on a list that holds [x] once: the list is the
    former one without [x], [free_listp] is its first node (the end marker
    [S] when it is empty), and memory is unchanged outside the link fields
    of [S] and of the remaining nodes. *)
Theorem delete_block_unlinks (h : heap) (S : Z) (l1 : list Z) (x : Z) (l2 : list Z) :
  nodes_ok S (l1 ++ x :: l2) -> NoDup (l1 ++ x :: l2) ->
  dll h S NULL (free_listp h) (l1 ++ x :: l2) ->
  let h' := delete_block h x in
  dll h' S NULL (free_listp h') (l1 ++ l2)
  /\ free_listp h' = hd S (l1 ++ l2)
  /\ frame S (l1 ++ l2) [] h h'.
Proof.
  intros Hok Hnd D h'.
  destruct (delete_block_spec h S l1 x l2 Hok Hnd D) as [D' F]. fold h' in D', F.
  split; [exact D'|]. split; [exact (dll_first _ _ _ _ _ D')|exact F].
Qed.

Lemma delete_block_unlinks_witness :
  free_listp (delete_block demo_init 4160) = hd (sentinel demo_init) ([] ++ []).
Proof.
  pose proof (delete_block_unlinks demo_init (sentinel demo_init) [] 4160 []
                demo_nodes_single demo_nodup_single demo_init_dll) as H.
  cbv zeta in H. destruct H as (_ & A & _). exact A.
Defined.

(** Pushing a node and deleting it again gives the list back:
    [delete_block(x)] after [freelist(x)] leaves the list [l] with its
    former head, and memory unchanged outside the link fields. *)
Theorem freelist_delete_block_round_trip (h : heap) (S : Z) (l : list Z) (x : Z) :
  nodes_ok S (x :: l) -> NoDup (x :: l) ->
  dll h S NULL (free_listp h) l ->
  let h' := delete_block (freelist h x) x in
  dll h' S NULL (free_listp h') l
  /\ free_listp h' = free_listp h
  /\ frame S (x :: l) [] h h'.
Proof.
  intros Hok Hnd D h'.
  destruct (freelist_spec h S l x Hok Hnd D) as (D1 & E1 & F1).
  destruct (delete_block_spec (freelist h x) S [] x l Hok Hnd D1) as [D2 F2].
  fold h' in D2, F2. cbn [app] in D2, F2.
  split; [exact D2|]. split.
  - rewrite (dll_first _ _ _ _ _ D2). symmetry. exact (dll_first _ _ _ _ _ D).
  - apply (frame_trans _ _ _ _ _ _ F1).
    apply (frame_incl S l (x :: l) [] []); [|auto|exact F2].
    intros y Hy. apply list_elem_of_further. exact Hy.
Qed.

Lemma freelist_delete_block_round_trip_witness :
  free_listp (delete_block (freelist demo_init 4200) 4200) = free_listp demo_init.
Proof.
  pose proof (freelist_delete_block_round_trip demo_init (sentinel demo_init) [4160] 4200
                demo_nodes_pair demo_nodup_pair demo_init_dll) as H.
  cbv zeta in H. destruct H as (_ & A & _). exact A.
Defined.

(** ** [mm_free] of a held block *)

(** The merged block covers the block it was made from. *)
Lemma merge_table_covers h lo brk M bp s P N :
  geom lo brk M -> M !! bp = Some (s, 0) ->
  free_pred h M bp P -> free_next h M bp s N ->
  fst (fst (merge_table M bp s P N)) <= bp
  /\ bp + s <= fst (fst (merge_table M bp s P N)) + snd (fst (merge_table M bp s P N))
  /\ (P = None -> fst (fst (merge_table M bp s P N)) = bp).
Proof.
  intros G Hb HP HN.
  destruct P as [[p sp]|], N as [[n sn]|]; cbn [merge_table fst snd];
    cbn [free_pred free_next] in HP, HN;
    try (destruct HP as [Hp Ep]; pose proof (g_block _ _ _ G _ _ _ Hp));
    try (destruct HN as [En Hn]; pose proof (g_block _ _ _ G _ _ _ Hn));
    (split; [lia|split; [lia|]]); intros E; (discriminate || reflexivity).
Qed.

(** What [mm_free] does to a well-formed heap in which [p] is allocated:
    the pieces the run-level statements below are read from. *)
Lemma mm_free_merged h M fl p s :
  heap_inv None None h M fl -> M !! p = Some (s, 1) ->
  let h' := mm_free h p in
  exists M' fl' total,
    heap_inv None None h' M' fl'
    /\ M' !! free_listp h' = Some (total, 0)
    /\ free_listp h' <= p /\ p + s <= free_listp h' + total
    /\ (prev_alloc h p = true -> free_listp h' = p).
Proof.
  intros I Hp h'. pose proof (free_prefix h M fl p s I Hp) as I2.
  assert (Hb2 : <[p := (s, 0)]> M !! p = Some (s, 0)) by lk.
  destruct (mm_free_spec h M fl p s I Hp) as (P & N & HP & HN & rest & I' & _ & _ & Efl).
  fold h' in I', Efl.
  pose proof (inv_geom _ _ _ _ _ I2) as G2.
  destruct (merge_table_covers h _ _ _ p s P N G2 Hb2 HP HN) as (C1 & C2 & C3).
  pose proof (merge_table_lookup (<[p := (s, 0)]> M) p s P N) as L.
  set (r := fst (fst (merge_table (<[p := (s, 0)]> M) p s P N))) in *.
  set (total := snd (fst (merge_table (<[p := (s, 0)]> M) p s P N))) in *.
  assert (Hr : snd (merge_table (<[p := (s, 0)]> M) p s P N) !! r = Some (total, 0)).
  { rewrite L. destruct P as [[pp sp]|], N as [[n sn]|]; try reflexivity. exact Hb2. }
  eexists _, _, total. rewrite Efl.
  split; [exact I'|]. split; [exact Hr|]. split; [exact C1|]. split; [exact C2|].
  intros Hpa. apply C3. destruct P as [[pp sp]|]; [exfalso|reflexivity].
  destruct HP as [Hpp Epp].
  assert (Hpp' : M !! pp = Some (sp, 0)).
  { pose proof (g_block _ _ _ G2 _ _ _ Hpp). lkh Hpp; [lia|exact Hpp]. }
  subst p.
  rewrite (inv_prev_alloc_pred (heap_inv_tags _ _ _ _ _ I) _ _ _ _ _ Hpp' Hp) in Hpa.
  discriminate.
Qed.

(** [mm_free(p)] for a held pointer [p]: the heap stays well formed and
    the break is not moved; the head of the free list is a free block that
    covers the block of [p]; every other held block stays allocated, with
    its size and its payload. *)
Theorem mm_free_result (h : heap) (live : list Z) (p : Z) :
  run h live -> p ∈ live ->
  let h' := mm_free h p in
  heap_ok h'
  /\ mem_brk h' = mem_brk h
  /\ GET_ALLOC h' (HDRP (free_listp h')) = 0
  /\ free_listp h' <= p
  /\ p + GET_SIZE h (HDRP p) <= free_listp h' + GET_SIZE h' (HDRP (free_listp h'))
  /\ (forall q, q ∈ live -> q <> p ->
        GET_ALLOC h' (HDRP q) = 1
        /\ GET_SIZE h' (HDRP q) = GET_SIZE h (HDRP q)
        /\ payload_eq h h' q (GET_SIZE h (HDRP q))).
Proof.
  intros R Hin h'. destruct (run_inv h live R) as (M & fl & I & _ & HL).
  destruct (proj1 (HL p) Hin) as [s Hs].
  destruct (heap_inv_block_tags _ _ _ _ _ _ _ _ I Hs) as [ES _].
  destruct (mm_free_merged h M fl p s I Hs) as (M1 & fl1 & total & I1 & Hr & C1 & C2 & _).
  fold h' in I1, Hr, C1, C2.
  destruct (heap_inv_block_tags _ _ _ _ _ _ _ _ I1 Hr) as [ESr EAr].
  destruct (mm_free_allocs h M fl p s I Hs) as (M2 & fl2 & I2 & HA & HP).
  fold h' in I2, HP.
  split; [exists M1, fl1; exact I1|].
  split.
  { unfold h'. rewrite (mm_free_eq h M fl p s I Hs). rewrite coalesce_brk. reflexivity. }
  split; [exact EAr|]. split; [exact C1|]. split; [rewrite ES, ESr; exact C2|].
  intros q Hq Hne. destruct (proj1 (HL q) Hq) as [sq Hsq].
  destruct (heap_inv_block_tags _ _ _ _ _ _ _ _ I Hsq) as [ESq _].
  assert (Hq2 : M2 !! q = Some (sq, 1)) by (apply HA; auto).
  destruct (heap_inv_block_tags _ _ _ _ _ _ _ _ I2 Hq2) as [ESq2 EAq2].
  rewrite ESq. split; [exact EAq2|]. split; [exact ESq2|]. exact (HP q sq Hne Hsq).
Qed.

Lemma mm_free_result_witness :
  heap_ok (mm_free demo_held 4160)
  /\ mem_brk (mm_free demo_held 4160) = mem_brk demo_held
  /\ GET_ALLOC (mm_free demo_held 4160) (HDRP (free_listp (mm_free demo_held 4160))) = 0.
Proof.
  destruct (mm_free_result demo_held [4160] 4160 demo_held_run) as (A & B & C & _).
  - apply list_elem_of_here.
  - split; [exact A|split; [exact B|exact C]].
Defined.

(** ** Reuse of a freed block *)

(** After [mm_free(p)] of a held pointer, a request of [size] bytes with
    [size + 39 < 2^32] whose adjusted size is at most the size of the block
    of [p] is served from the head of the free list, the block that covers
    the one just freed: [mm_malloc] returns [free_listp], without growing
    the heap, and this is [p] itself when the block before [p] is
    allocated or [p] is the first block.  The block returned is allocated
    and the heap is well formed. *)
Theorem free_then_malloc_reuses (h : heap) (live : list Z) (p : Z)
    (fuel : nat) (size : Z) :
  run h live -> p ∈ live ->
  0 < size -> size + 39 < WORD -> adjust size <= GET_SIZE h (HDRP p) ->
  let h' := mm_free h p in
  exists h'',
    mm_malloc (S fuel) h' size = Some (free_listp h', h'')
    /\ mem_brk h'' = mem_brk h
    /\ free_listp h' <= p
    /\ (prev_alloc h p = true -> free_listp h' = p)
    /\ GET_ALLOC h'' (HDRP (free_listp h')) = 1
    /\ heap_ok h''.
Proof.
  intros R Hin H0 HW Hfit h'. destruct (run_inv h live R) as (M & fl & I & _ & HL).
  destruct (proj1 (HL p) Hin) as [s Hs].
  destruct (heap_inv_block_tags _ _ _ _ _ _ _ _ I Hs) as [ES _]. rewrite ES in Hfit.
  destruct (mm_free_merged h M fl p s I Hs) as (M1 & fl1 & total & I1 & Hr & C1 & C2 & C3).
  fold h' in I1, Hr, C1, C2, C3.
  destruct (heap_inv_block_tags _ _ _ _ _ _ _ _ I1 Hr) as [ESr EAr].
  pose proof (inv_bounds (heap_inv_tags _ _ _ _ _ I1) _ _ _ Hr) as Br.
  assert (Em : mm_malloc (S fuel) h' size
               = Some (free_listp h', place h' (free_listp h') (adjust size))).
  { unfold mm_malloc. destruct (Z.leb_spec size 0); [lia|].
    unfold find_fit. cbn [find_fit_from]. rewrite EAr, ESr. cbn [Z.eqb].
    destruct (Z.leb_spec (adjust size) total); [|lia].
    destruct (Z.eqb_spec (free_listp h') NULL) as [E|_]; [unfold NULL in E; lia|].
    reflexivity. }
  exists (place h' (free_listp h') (adjust size)).
  split; [exact Em|]. split; [|split; [exact C1|split; [exact C3|]]].
  - rewrite place_brk. unfold h'. rewrite (mm_free_eq h M fl p s I Hs).
    rewrite coalesce_brk. reflexivity.
  - assert (Hf : (length fl1 < S fuel + S (length fl1))%nat) by lia.
    assert (Hle : (S fuel <= S fuel + S (length fl1))%nat) by lia.
    destruct (mm_malloc_allocs _ h' M1 fl1 size I1 H0 HW Hf)
      as (p0 & h0 & Em0 & Hcase).
    rewrite (mm_malloc_mono _ _ _ _ _ Em Hle) in Em0. injection Em0 as <- <-.
    destruct Hcase as [[E _]|(_ & M' & fl' & c' & I' & Hp & _)];
      [unfold NULL in E; lia|].
    destruct (heap_inv_block_tags _ _ _ _ _ _ _ _ I' Hp) as [_ EA].
    split; [exact EA|]. exists M', fl'. exact I'.
Qed.

Lemma free_then_malloc_reuses_witness :
  exists h'',
    mm_malloc 1 (mm_free demo_held 4160) 1
    = Some (free_listp (mm_free demo_held 4160), h'')
    /\ GET_ALLOC h'' (HDRP (free_listp (mm_free demo_held 4160))) = 1.
Proof.
  destruct (free_then_malloc_reuses demo_held [4160] 4160 0 1 demo_held_run)
    as (h'' & A & _ & _ & _ & B & _).
  - apply list_elem_of_here.
  - lia.
  - unfold WORD. lia.
  - vm_compute. discriminate.
  - exists h''. split; [exact A|exact B].
Defined.

(** ** Stores that change nothing *)

(** Storing the word that is already there leaves every byte as it is. *)
Lemma load8_store32_same m p q :
  load8 (store32 m p (load32 m p)) q = load8 m q.
Proof.
  unfold store32. rewrite !load8_store8.
  pose proof (load8_range m p). pose proof (load8_range m (p + 1)).
  pose proof (load8_range m (p + 2)). pose proof (load8_range m (p + 3)).
  unfold load32.
  repeat match goal with
         | |- context [decide (?a = ?b)] => destruct (decide (a = b)); try subst q
         end; try reflexivity; try lia;
    Z.div_mod_to_equations; lia.
Qed.

Lemma load8_PUT_same h p v q :
  GET h p = v -> load8 (mem (PUT h p v)) q = load8 (mem h) q.
Proof. intros <-. apply load8_store32_same. Qed.

(** The invariant reads memory through loads only. *)
Lemma heap_inv_ext ex out h M fl m' :
  heap_inv ex out h M fl ->
  (forall a, load8 m' a = load8 (mem h) a) ->
  heap_inv ex out (set_mem h m') M fl.
Proof.
  intros I Hm.
  assert (E : forall q, GET (set_mem h m') q = GET h q).
  { intros q. apply GET_ext. intros a _. cbn [set_mem mem]. apply Hm. }
  constructor; cbn [set_mem mem_start_brk mem_brk mem_max_addr heap_listp free_listp].
  - exact (inv_lo _ _ _ _ _ I).
  - exact (inv_align _ _ _ _ _ I).
  - exact (inv_brk _ _ _ _ _ I).
  - exact (inv_max _ _ _ _ _ I).
  - exact (inv_heap_listp _ _ _ _ _ I).
  - rewrite E. exact (inv_sentinel _ _ _ _ _ I).
  - rewrite E. exact (inv_pad _ _ _ _ _ I).
  - rewrite E. exact (inv_epilogue _ _ _ _ _ I).
  - exact (inv_geom _ _ _ _ _ I).
  - intros b s a Hb. rewrite !E. exact (inv_tags _ _ _ _ _ I b s a Hb).
  - exact (inv_noadj _ _ _ _ _ I).
  - apply (dll_frame h); [|exact (inv_dll _ _ _ _ _ I)].
    intros x _. unfold PREV_FREE, NEXT_FREE. rewrite !E. split; reflexivity.
  - exact (inv_nodup _ _ _ _ _ I).
  - exact (inv_fl _ _ _ _ _ I).
Qed.

(** ** Freeing a block that is already free *)

(** A set of free nodes that [NEXT_FREE] does not leave has no end. *)
Lemma closed_no_chain h (C : list Z) :
  (forall x, x ∈ C -> GET_ALLOC h (HDRP x) = 0 /\ NEXT_FREE h x ∈ C) ->
  forall l x, x ∈ C -> ~ free_chain h x l.
Proof.
  intros HC. induction l as [|b l IH]; intros x Hx Hch.
  - inversion Hch as [? Ha|]; subst. destruct (HC x Hx) as [E _]. congruence.
  - inversion Hch as [|? ? Ha Hn]; subst. destruct (HC b Hx) as [_ Hin].
    exact (IH _ Hin Hn).
Qed.

Lemma closed_no_fit h (C : list Z) asize :
  (forall x, x ∈ C -> GET_ALLOC h (HDRP x) = 0 /\ NEXT_FREE h x ∈ C
                      /\ GET_SIZE h (HDRP x) < asize) ->
  forall fuel x, x ∈ C -> find_fit_from fuel h asize x = None.
Proof.
  intros HC. induction fuel as [|fuel IH]; intros x Hx; [reflexivity|].
  destruct (HC x Hx) as (Ea & Hin & Hs). cbn [find_fit_from]. rewrite Ea. cbn [Z.eqb].
  destruct (Z.leb_spec asize (GET_SIZE h (HDRP x))); [lia|]. exact (IH _ Hin).
Qed.

Lemma dll_next_in h S : forall l prev first,
  dll h S prev first l -> forall y, y ∈ l -> NEXT_FREE h y ∈ l \/ NEXT_FREE h y = S.
Proof.
  induction l as [|x l IH]; intros prev first D y Hy; [inversion Hy|].
  destruct D as (_ & _ & D). apply elem_of_cons in Hy. destruct Hy as [->|Hy].
  - pose proof (dll_first _ _ _ _ _ D) as E. destruct l as [|z l]; cbn [hd] in E.
    + right. exact E.
    + left. rewrite E. apply list_elem_of_further, list_elem_of_here.
  - destruct (IH _ _ D y Hy) as [H|H]; [left; apply list_elem_of_further; exact H|right; exact H].
Qed.

(** On a block that is free already, [mm_free] rewrites the tags with what
    they hold and calls [freelist] on the block once more. *)
Lemma mm_free_of_free h M fl p s :
  heap_inv None None h M fl -> M !! p = Some (s, 0) ->
  exists h2,
    heap_inv None None h2 M fl /\ free_listp h2 = free_listp h
    /\ (forall q, GET h2 q = GET h q)
    /\ mm_free h p = freelist h2 p.
Proof.
  intros I Hp. pose proof (heap_inv_tags _ _ _ _ _ I) as T.
  pose proof (inv_bounds T _ _ _ Hp) as B.
  destruct (inv_block_read T _ _ _ Hp) as (EH & ES & _ & _ & _).
  destruct (inv_tags _ _ _ _ _ I _ _ _ Hp) as [T1 T2]. rewrite Z.add_0_r in T1, T2.
  unfold mm_free. destruct (Z.eqb_spec p NULL) as [E|_]; [unfold NULL in E; lia|].
  rewrite ES, PACK_0, EH.
  set (h1 := PUT h (p - 4) s).
  assert (L1 : forall a, load8 (mem h1) a = load8 (mem h) a)
    by (intros a; apply load8_PUT_same; exact T1).
  assert (I1 : heap_inv None None h1 M fl) by exact (heap_inv_ext _ _ h M fl _ I L1).
  destruct (inv_block_read (heap_inv_tags _ _ _ _ _ I1) _ _ _ Hp) as (_ & _ & _ & _ & EF).
  rewrite EF.
  set (h2 := PUT h1 (p + s - 8) s).
  assert (G1 : GET h1 (p + s - 8) = s).
  { transitivity (GET h (p + s - 8)); [|exact T2]. apply GET_ext. intros a _. apply L1. }
  assert (L2 : forall a, load8 (mem h2) a = load8 (mem h) a).
  { intros a. unfold h2. rewrite (load8_PUT_same h1 _ _ a G1). apply L1. }
  assert (I2 : heap_inv None None h2 M fl).
  { apply (heap_inv_ext _ _ h1 M fl _ I1). intros a. apply load8_PUT_same. exact G1. }
  exists h2. split; [exact I2|]. split; [reflexivity|]. split.
  { intros q. apply GET_ext. intros a _. apply L2. }
  pose proof (heap_inv_tags _ _ _ _ _ I2) as T2'.
  pose proof (inv_geom _ _ _ _ _ I2) as G2.
  assert (EP : prev_alloc h2 p = true).
  { destruct (g_pred _ _ _ G2 _ _ _ Hp) as [E|(pp & sp & ap & Hpp & Epp)].
    - exact (inv_prev_alloc_first T2' _ _ _ Hp E).
    - subst p. rewrite (inv_prev_alloc_pred T2' _ _ _ _ _ Hpp Hp).
      pose proof (g_block _ _ _ G2 _ _ _ Hpp) as Bp.
      destruct (Z.eqb_spec ap 0) as [->|]; [|reflexivity].
      destruct (inv_noadj _ _ _ _ _ I2 _ _ _ Hpp Hp); discriminate. }
  assert (EN : next_alloc h2 p = true).
  { destruct (g_succ _ _ _ G2 _ _ _ Hp) as [E|[[sn an] Hn]].
    - exact (inv_next_alloc_last T2' _ _ _ Hp E).
    - rewrite (inv_next_alloc_succ T2' _ _ _ _ _ Hp Hn).
      destruct (Z.eqb_spec an 0) as [->|]; [|reflexivity].
      destruct (inv_noadj _ _ _ _ _ I2 _ _ _ Hp Hn); discriminate. }
  unfold coalesce. rewrite EP, EN. reflexivity.
Qed.

(** What [freelist] leaves of a list that already holds the node. *)
Lemma freelist_listed h M fl p :
  heap_inv None None h M fl -> p ∈ fl ->
  let h' := freelist h p in
  free_listp h' = p
  /\ NEXT_FREE h' p = free_listp h
  /\ (forall y, y ∈ fl -> y <> p -> NEXT_FREE h' y = NEXT_FREE h y)
  /\ (forall y, y ∈ fl -> GET h' (y - 4) = GET h (y - 4)).
Proof.
  intros I Hp h'. pose proof (heap_inv_tags _ _ _ _ _ I) as T.
  pose proof (inv_geom _ _ _ _ _ I) as G.
  assert (Hbl : forall y, y ∈ fl -> is_Some (M !! y)).
  { intros y Hy. destruct (inv_fl_block I y Hy). eauto. }
  pose proof (inv_nodes_ok I fl Hbl) as Hok.
  assert (Hf : free_listp h ∈ fl).
  { rewrite (dll_first _ _ _ _ _ (inv_dll _ _ _ _ _ I)).
    destruct fl as [|x fl]; [inversion Hp|apply list_elem_of_here]. }
  set (f := free_listp h) in *.
  destruct (nodes_ok_in _ _ _ Hok Hp) as (P1 & P2 & P0).
  destruct (nodes_ok_in _ _ _ Hok Hf) as (F1 & F2 & _).
  assert (Sfp : f = p \/ f + 12 <= p \/ p + 12 <= f).
  { destruct (Z.eq_dec f p) as [E|E]; [left; exact E|right].
    exact (nodes_ok_sep _ _ _ _ Hok Hf Hp E). }
  unfold h'. rewrite freelist_eq by lia. fold f.
  split; [reflexivity|]. split; [|split].
  - rewrite NEXT_FREE_eq by lia. rewrite GET_set_free_listp.
    rewrite GET_PUT_ne by lia. rewrite GET_PUT_ne by lia.
    apply GET_PUT_eq. lia.
  - intros y Hy Hne. destruct (nodes_ok_in _ _ _ Hok Hy) as (Y1 & Y2 & _).
    pose proof (nodes_ok_sep _ _ _ _ Hok Hy Hp Hne) as Syp.
    assert (Syf : y = f \/ y + 12 <= f \/ f + 12 <= y).
    { destruct (Z.eq_dec y f) as [E|E]; [left; exact E|right].
      exact (nodes_ok_sep _ _ _ _ Hok Hy Hf E). }
    rewrite !NEXT_FREE_eq by lia. rewrite GET_set_free_listp.
    rewrite !GET_PUT_ne by lia. reflexivity.
  - intros y Hy. destruct (inv_fl_block I y Hy) as [sy Hsy].
    destruct (links_off_tags _ _ M fl y sy 0 G Hsy Hbl) as [L _].
    rewrite Forall_forall in L. pose proof (L p Hp). pose proof (L f Hf).
    rewrite GET_set_free_listp. rewrite !GET_PUT_ne by lia. reflexivity.
Qed.

(** Double free.  In a state of a run, [mm_free] of a block [p] that is in
    the free list already is not refused: [p] is pushed a second time, and
    the free list becomes a cycle of free nodes.  The loops over it have no
    end any more: no chain of nodes leads from [free_listp] to a node
    marked allocated, and [find_fit] for a size no node of the former list
    can hold never returns. *)
Theorem double_free_cycle (h : heap) (live fl : list Z) (p : Z) :
  run h live -> free_chain h (free_listp h) fl -> p ∈ fl ->
  let h' := mm_free h p in
  free_listp h' = p
  /\ (forall l, ~ free_chain h' (free_listp h') l)
  /\ (forall asize, (forall x, x ∈ fl -> GET_SIZE h (HDRP x) < asize) ->
        forall fuel, find_fit fuel h' asize = None).
Proof.
  intros R Hch Hp h'. destruct (run_inv h live R) as (M & fl0 & I & _).
  assert (Efl : fl = fl0)
    by exact (free_chain_unique _ _ _ _ Hch (heap_inv_free_chain _ _ _ _ _ I)).
  subst fl0. destruct (inv_fl_block I p Hp) as [s Hs].
  destruct (mm_free_of_free h M fl p s I Hs) as (h2 & I2 & Ef & HG & Em).
  unfold h'. rewrite Em. clear h' Em.
  destruct (freelist_listed h2 M fl p I2 Hp) as (E1 & E2 & E3 & E4).
  set (h3 := freelist h2 p) in *.
  destruct (list_elem_of_split _ _ Hp) as (l1 & l2 & El).
  pose proof (inv_dll _ _ _ _ _ I2) as D. rewrite El in D.
  apply dll_app in D. destruct D as [D1 _]. cbn [hd] in D1.
  pose proof (inv_nodup _ _ _ _ _ I2) as ND. rewrite El in ND.
  apply NoDup_app in ND. destruct ND as (_ & ND & _).
  assert (Hsub : forall y, y ∈ l1 ++ [p] -> y ∈ fl).
  { intros y Hy. rewrite El. apply elem_of_app in Hy. apply elem_of_app.
    destruct Hy as [Hy|Hy]; [left; exact Hy|right].
    apply list_elem_of_singleton in Hy. subst y. apply list_elem_of_here. }
  assert (Htag : forall y, y ∈ fl ->
            GET_ALLOC h3 (HDRP y) = 0 /\ GET_SIZE h3 (HDRP y) = GET_SIZE h (HDRP y)).
  { intros y Hy. destruct (inv_fl_block I y Hy) as [sy Hsy].
    pose proof (inv_bounds (heap_inv_tags _ _ _ _ _ I) _ _ _ Hsy) as By.
    destruct (heap_inv_block_tags _ _ _ _ _ _ _ _ I Hsy) as [ESy EAy].
    rewrite HDRP_eq in * by lia.
    unfold GET_ALLOC, GET_SIZE in *. rewrite (E4 y Hy), HG. split; [exact EAy|reflexivity]. }
  assert (Hnext : forall y, y ∈ l1 ++ [p] -> NEXT_FREE h3 y ∈ l1 ++ [p]).
  { intros y Hy. apply elem_of_app in Hy. destruct Hy as [Hy|Hy].
    - assert (Hne : y <> p).
      { intros ->. apply (ND p Hy). apply list_elem_of_here. }
      rewrite (E3 y (Hsub y ltac:(apply elem_of_app; left; exact Hy)) Hne).
      destruct (dll_next_in _ _ _ _ _ D1 y Hy) as [H|H]; apply elem_of_app.
      + left. exact H.
      + right. rewrite H. apply list_elem_of_here.
    - apply list_elem_of_singleton in Hy. subst y. rewrite E2.
      rewrite (dll_first _ _ _ _ _ D1). apply elem_of_app.
      destruct l1 as [|z l1]; cbn [hd]; [right|left]; apply list_elem_of_here. }
  assert (Hpc : p ∈ l1 ++ [p]) by (apply elem_of_app; right; apply list_elem_of_here).
  split; [exact E1|]. rewrite E1. split.
  - intros l. apply (closed_no_chain h3 (l1 ++ [p])); [|exact Hpc].
    intros x Hx. split; [exact (proj1 (Htag x (Hsub x Hx)))|exact (Hnext x Hx)].
  - intros asize Hsz fuel. unfold find_fit. rewrite E1.
    apply (closed_no_fit h3 (l1 ++ [p])); [|exact Hpc].
    intros x Hx. destruct (Htag x (Hsub x Hx)) as [Ea Es].
    split; [exact Ea|]. split; [exact (Hnext x Hx)|]. rewrite Es. exact (Hsz x (Hsub x Hx)).
Qed.

Lemma demo_init_chain : free_chain demo_init (free_listp demo_init) [4160].
Proof. exact (heap_inv_free_chain _ _ _ _ _ demo_init_inv). Qed.

Lemma demo_init_small : forall x, x ∈ [4160] -> GET_SIZE demo_init (HDRP x) < 40.
Proof.
  intros x Hx. apply list_elem_of_singleton in Hx. subst x. vm_compute. reflexivity.
Qed.

Lemma double_free_cycle_witness :
  free_listp (mm_free demo_init 4160) = 4160
  /\ find_fit 8 (mm_free demo_init 4160) 40 = None.
Proof.
  pose proof (double_free_cycle demo_init [] [4160] 4160 demo_init_run demo_init_chain
                (list_elem_of_here 4160 [])) as H.
  cbv zeta in H. destruct H as (A & _ & B). split; [exact A|].
  exact (B 40 demo_init_small 8%nat).
Defined.

(** ** The arena *)

Lemma delete_block_start h x : mem_start_brk (delete_block h x) = mem_start_brk h.
Proof. unfold delete_block. destruct (PREV_FREE h x =? NULL); reflexivity. Qed.

Lemma delete_block_max h x : mem_max_addr (delete_block h x) = mem_max_addr h.
Proof. unfold delete_block. destruct (PREV_FREE h x =? NULL); reflexivity. Qed.

Lemma coalesce_start h bp : mem_start_brk (snd (coalesce h bp)) = mem_start_brk h.
Proof.
  unfold coalesce. destruct (prev_alloc h bp), (next_alloc h bp); cbn [snd];
    cbn [freelist set_NEXT_FREE set_PREV_FREE set_free_listp PUT set_mem mem_start_brk];
    rewrite ?delete_block_start; cbn [PUT set_mem mem_start_brk];
    rewrite ?delete_block_start; reflexivity.
Qed.

Lemma coalesce_max h bp : mem_max_addr (snd (coalesce h bp)) = mem_max_addr h.
Proof.
  unfold coalesce. destruct (prev_alloc h bp), (next_alloc h bp); cbn [snd];
    cbn [freelist set_NEXT_FREE set_PREV_FREE set_free_listp PUT set_mem mem_max_addr];
    rewrite ?delete_block_max; cbn [PUT set_mem mem_max_addr];
    rewrite ?delete_block_max; reflexivity.
Qed.

Lemma place_start h bp asize : mem_start_brk (place h bp asize) = mem_start_brk h.
Proof.
  unfold place. destruct (w32 (GET_SIZE h (HDRP bp) - asize) >=? OVERHEAD).
  - rewrite coalesce_start. cbn [PUT set_mem mem_start_brk].
    rewrite delete_block_start. reflexivity.
  - rewrite delete_block_start. reflexivity.
Qed.

Lemma place_max h bp asize : mem_max_addr (place h bp asize) = mem_max_addr h.
Proof.
  unfold place. destruct (w32 (GET_SIZE h (HDRP bp) - asize) >=? OVERHEAD).
  - rewrite coalesce_max. cbn [PUT set_mem mem_max_addr].
    rewrite delete_block_max. reflexivity.
  - rewrite delete_block_max. reflexivity.
Qed.

(** [extend_heap] moves the break upwards or not at all, and never past
    the limit. *)
Lemma extend_heap_arena h words :
  let h' := snd (extend_heap h words) in
  mem_brk h <= mem_brk h'
  /\ (mem_brk h <= mem_max_addr h -> mem_brk h' <= mem_max_addr h)
  /\ mem_start_brk h' = mem_start_brk h /\ mem_max_addr h' = mem_max_addr h.
Proof.
  unfold extend_heap.
  set (size := if words mod 2 =? 0 then w32 (words * WSIZE)
               else w32 (w32 (words + 1) * WSIZE)).
  assert (Hs : 0 <= size) by (unfold size; destruct (words mod 2 =? 0); apply w32_range).
  unfold mem_sbrk.
  destruct (Z.gtb_spec (mem_brk h + size) (mem_max_addr h)) as [Hgt|Hle].
  - rewrite Z.eqb_refl. cbn [snd]. repeat split; lia.
  - destruct (mem_brk h =? SBRK_FAIL).
    + cbn [snd set_brk mem_brk mem_start_brk mem_max_addr]. repeat split; lia.
    + cbv zeta. rewrite coalesce_brk, coalesce_start, coalesce_max.
      cbn [PUT set_mem set_brk mem_brk mem_start_brk mem_max_addr]. repeat split; lia.
Qed.

Lemma mm_free_arena h q :
  mem_brk (mm_free h q) = mem_brk h
  /\ mem_start_brk (mm_free h q) = mem_start_brk h
  /\ mem_max_addr (mm_free h q) = mem_max_addr h.
Proof.
  unfold mm_free. destruct (q =? NULL); [repeat split; reflexivity|].
  rewrite coalesce_brk, coalesce_start, coalesce_max. repeat split; reflexivity.
Qed.

(** The allocator never gives memory back: [mm_malloc] moves the break
    upwards or not at all, never past the limit of the arena, and
    [mm_free] does not move it; neither moves the bounds of the arena.
    This holds for every state and every argument. *)
Theorem break_never_lowered (fuel : nat) (h : heap) (size p : Z) (h' : heap) :
  mm_malloc fuel h size = Some (p, h') ->
  mem_brk h <= mem_brk h'
  /\ (mem_brk h <= mem_max_addr h -> mem_brk h' <= mem_max_addr h')
  /\ mem_start_brk h' = mem_start_brk h /\ mem_max_addr h' = mem_max_addr h
  /\ (forall q, mem_brk (mm_free h' q) = mem_brk h'
                /\ mem_start_brk (mm_free h' q) = mem_start_brk h'
                /\ mem_max_addr (mm_free h' q) = mem_max_addr h').
Proof.
  intros Em.
  assert (H : mem_brk h <= mem_brk h'
              /\ (mem_brk h <= mem_max_addr h -> mem_brk h' <= mem_max_addr h)
              /\ mem_start_brk h' = mem_start_brk h /\ mem_max_addr h' = mem_max_addr h).
  { unfold mm_malloc in Em. destruct (size <=? 0).
    - injection Em as <- <-. repeat split; lia.
    - destruct (find_fit fuel h (adjust size)) as [bp|]; [|discriminate].
      destruct (negb (bp =? NULL)).
      + injection Em as <- <-. rewrite place_brk, place_start, place_max. repeat split; lia.
      + pose proof (extend_heap_arena h (MAX (adjust size) CHUNKSIZE / WSIZE)) as A.
        cbv zeta in A.
        destruct (extend_heap h (MAX (adjust size) CHUNKSIZE / WSIZE)) as [bp1 h1].
        cbn [snd] in A. destruct (bp1 =? NULL); injection Em as <- <-;
          rewrite ?place_brk, ?place_start, ?place_max; exact A. }
  destruct H as (A & B & C & D).
  split; [exact A|]. split; [rewrite D; exact B|]. split; [exact C|]. split; [exact D|].
  intros q. apply mm_free_arena.
Qed.

Lemma break_never_lowered_witness :
  mem_brk demo_init <= mem_brk demo_held.
Proof.
  exact (proj1 (break_never_lowered 2 demo_init 1 4160 demo_held demo_held_eq)).
Defined.

(** ** [mm_malloc] in a run *)

(** A call of [mm_malloc] in a state of a run, whatever the fuel it was
    given. *)
Lemma run_malloc_cases h live fuel size p h' :
  run h live -> 0 < size -> size + 39 < WORD ->
  mm_malloc fuel h size = Some (p, h') ->
  exists M fl,
    heap_inv None None h M fl
    /\ (forall q, q ∈ live <-> exists s, M !! q = Some (s, 1))
    /\ ((p = NULL /\ h' = h)
        \/ (p <> NULL /\ exists M' fl' c',
              heap_inv None None h' M' fl' /\ M' !! p = Some (c', 1)
              /\ (size + OVERHEAD <= c' /\ adjust size <= c'
                  /\ c' < adjust size + OVERHEAD)
              /\ (forall sq, M !! p <> Some (sq, 1))
              /\ (forall q sq, M' !! q = Some (sq, 1) <->
                               (q = p /\ sq = c') \/ M !! q = Some (sq, 1))
              /\ (forall q sq, M !! q = Some (sq, 1) -> payload_eq h h' q sq))).
Proof.
  intros R H0 H1 Em. destruct (run_inv h live R) as (M & fl & I & _ & HL).
  assert (Hf : (length fl < fuel + S (length fl))%nat) by lia.
  assert (Hle : (fuel <= fuel + S (length fl))%nat) by lia.
  destruct (mm_malloc_allocs _ h M fl size I H0 H1 Hf) as (p0 & h0 & Em0 & Hcase).
  rewrite (mm_malloc_mono fuel _ _ _ _ Em Hle) in Em0. injection Em0 as <- <-.
  exists M, fl. split; [exact I|]. split; [exact HL|exact Hcase].
Qed.

(** In a state of a run, the block that a successful [mm_malloc(size)]
    with [0 < size] and [size + 39 < 2^32] returns lies inside the heap,
    and its size is the adjusted size or up to 24 bytes more: a free block
    is split whenever the remainder would reach [OVERHEAD] bytes. *)
Theorem mm_malloc_block_size (h : heap) (live : list Z) (fuel : nat)
    (size p : Z) (h' : heap) :
  run h live -> 0 < size -> size + 39 < WORD ->
  mm_malloc fuel h size = Some (p, h') -> p <> NULL ->
  adjust size <= GET_SIZE h' (HDRP p) < adjust size + OVERHEAD
  /\ GET_SIZE h' (HDRP p) mod 8 = 0
  /\ first_block h' <= p
  /\ p + GET_SIZE h' (HDRP p) <= mem_brk h'
  /\ heap_ok h'.
Proof.
  intros R H0 H1 Em Hnn.
  destruct (run_malloc_cases h live fuel size p h' R H0 H1 Em)
    as (M & fl & I & HL & [[E _]|(_ & M' & fl' & c' & I' & Hp & Hc & _)]); [contradiction|].
  destruct (heap_inv_block_tags _ _ _ _ _ _ _ _ I' Hp) as [ES _].
  pose proof (inv_bounds (heap_inv_tags _ _ _ _ _ I') _ _ _ Hp) as B.
  destruct (adjust_in_range size H0 H1) as (A1 & A2 & A3 & A4).
  rewrite ES. unfold first_block, OVERHEAD in *. repeat split; try lia.
  exists M', fl'. exact I'.
Qed.

Lemma mm_malloc_block_size_witness :
  adjust 1 <= GET_SIZE demo_held (HDRP 4160) < adjust 1 + OVERHEAD
  /\ GET_SIZE demo_held (HDRP 4160) mod 8 = 0
  /\ first_block demo_held <= 4160
  /\ 4160 + GET_SIZE demo_held (HDRP 4160) <= mem_brk demo_held
  /\ heap_ok demo_held.
Proof.
  apply (mm_malloc_block_size demo_init [] 2 1 4160 demo_held demo_init_run);
    [lia|unfold WORD; lia|exact demo_held_eq|unfold NULL; lia].
Defined.

(** [mm_malloc] leaves the blocks the client holds alone: a failing call
    changes nothing at all, and after a successful one every held block is
    still allocated, with its size and its payload bytes. *)
Theorem mm_malloc_keeps_others (h : heap) (live : list Z) (fuel : nat)
    (size p : Z) (h' : heap) :
  run h live -> 0 < size -> size + 39 < WORD ->
  mm_malloc fuel h size = Some (p, h') ->
  (p = NULL -> h' = h)
  /\ (forall q, q ∈ live ->
        q <> p
        /\ GET_ALLOC h' (HDRP q) = 1
        /\ GET_SIZE h' (HDRP q) = GET_SIZE h (HDRP q)
        /\ payload_eq h h' q (GET_SIZE h (HDRP q))).
Proof.
  intros R H0 H1 Em.
  destruct (run_malloc_cases h live fuel size p h' R H0 H1 Em)
    as (M & fl & I & HL & Hcase).
  split.
  { intros E. destruct Hcase as [[_ Eh]|[Hn _]]; [exact Eh|contradiction]. }
  intros q Hq. destruct (proj1 (HL q) Hq) as [sq Hsq].
  destruct (heap_inv_block_tags _ _ _ _ _ _ _ _ I Hsq) as [ES EA].
  pose proof (inv_bounds (heap_inv_tags _ _ _ _ _ I) _ _ _ Hsq) as Bq.
  rewrite ES.
  destruct Hcase as [[-> ->]|(_ & M' & fl' & c' & I' & Hp & _ & Hfresh & HA & HP)].
  - split; [unfold NULL; lia|]. split; [exact EA|]. split; [exact ES|apply payload_eq_refl].
  - assert (Hq' : M' !! q = Some (sq, 1)) by (apply HA; right; exact Hsq).
    destruct (heap_inv_block_tags _ _ _ _ _ _ _ _ I' Hq') as [ES' EA'].
    split; [intros ->; exact (Hfresh sq Hsq)|].
    split; [exact EA'|]. split; [exact ES'|exact (HP q sq Hsq)].
Qed.

Lemma demo_second_eq :
  exists q h2, mm_malloc 2 demo_held 1 = Some (q, h2).
Proof. eexists _, _. vm_compute. reflexivity. Qed.

Lemma mm_malloc_keeps_others_witness :
  exists q h2,
    mm_malloc 2 demo_held 1 = Some (q, h2)
    /\ GET_ALLOC h2 (HDRP 4160) = 1
    /\ payload_eq demo_held h2 4160 (GET_SIZE demo_held (HDRP 4160)).
Proof.
  destruct demo_second_eq as (q & h2 & E). exists q, h2. split; [exact E|].
  destruct (mm_malloc_keeps_others demo_held [4160] 2 1 q h2 demo_held_run) as [_ H];
    [lia|unfold WORD; lia|exact E|].
  destruct (H 4160 (list_elem_of_here 4160 [])) as (_ & A & _ & B).
  split; [exact A|exact B].
Defined.

(** ** [mm_realloc] *)

(** When no free block fits and the provider refuses the growth,
    [mm_realloc] does not return [NULL]: it ends the process with status
    1, and the heap, the block of [p] included, is as it was. *)
Theorem mm_realloc_out_of_memory (fuel : nat) (h : heap) (p size : Z) :
  0 < size ->
  find_fit fuel h (adjust size) = Some NULL ->
  mem_brk h + MAX (adjust size) CHUNKSIZE > mem_max_addr h ->
  mm_malloc fuel h size = Some (NULL, h)
  /\ mm_realloc fuel h p size = Exits 1 h.
Proof.
  intros H0 Hf Hmax. destruct (MAX_adjust size) as (X1 & X2 & X3).
  assert (Em : mm_malloc fuel h size = Some (NULL, h)).
  { rewrite (mm_malloc_miss fuel h size H0 Hf). cbv zeta.
    rewrite (extend_heap_fail h _ X2) by lia. reflexivity. }
  split; [exact Em|]. unfold mm_realloc. rewrite Em. reflexivity.
Qed.

Lemma mm_realloc_out_of_memory_witness :
  mm_realloc 2 (snd (mm_init tight_arena)) 4160 1
  = Exits 1 (snd (mm_init tight_arena)).
Proof.
  apply (mm_realloc_out_of_memory 2 (snd (mm_init tight_arena)) 4160 1);
    [lia|vm_compute; reflexivity|vm_compute; reflexivity].
Defined.

(** In a state of a run, [mm_realloc(p, size)] on a held pointer [p] with
    [0 < size] and [size + 39 < 2^32] never resizes in place: when it
    returns, the pointer is a new one, different from [p] also when the
    request is smaller than the block of [p]; it is aligned, its block is
    allocated and holds [size] bytes, and the heap is well formed. *)
Theorem mm_realloc_moves (h : heap) (live : list Z) (fuel : nat)
    (p size newp : Z) (h' : heap) :
  run h live -> p ∈ live -> 0 < size -> size + 39 < WORD ->
  mm_realloc fuel h p size = Returns newp h' ->
  newp <> NULL /\ newp <> p /\ newp mod 8 = 0
  /\ GET_ALLOC h' (HDRP newp) = 1
  /\ size <= GET_SIZE h' (HDRP newp) - DSIZE
  /\ heap_ok h'.
Proof.
  intros R Hin H0 H1 Er. destruct (run_inv h live R) as (M & fl & I & _ & HL).
  destruct (proj1 (HL p) Hin) as [s Hs].
  assert (Hf : (length fl < fuel + S (length fl))%nat) by lia.
  assert (Hle : (fuel <= fuel + S (length fl))%nat) by lia.
  destruct (mm_realloc_allocs _ h M fl p s size I Hs H0 H1 Hf)
    as [Ex|(n0 & h0 & M' & fl' & c' & Er0 & Hnn & I' & Hn & Hc & Hfresh & _)];
    rewrite (mm_realloc_mono fuel _ _ _ _ _ _ Er Hle) in *; [discriminate|].
  injection Er0 as <- <-.
  destruct (heap_inv_block_tags _ _ _ _ _ _ _ _ I' Hn) as [ES EA].
  pose proof (g_block _ _ _ (inv_geom _ _ _ _ _ I') _ _ _ Hn) as B.
  unfold OVERHEAD in Hc. unfold DSIZE. rewrite ES.
  split; [exact Hnn|]. split; [intros ->; exact (Hfresh s Hs)|].
  split; [lia|]. split; [exact EA|]. split; [lia|]. exists M', fl'. exact I'.
Qed.

Lemma demo_realloc_eq :
  exists h2, mm_realloc 4 demo_held 4160 100 = Returns 4200 h2.
Proof. eexists. vm_compute. reflexivity. Qed.

Lemma mm_realloc_moves_witness :
  exists h2,
    mm_realloc 4 demo_held 4160 100 = Returns 4200 h2
    /\ GET_ALLOC h2 (HDRP 4200) = 1 /\ heap_ok h2.
Proof.
  destruct demo_realloc_eq as (h2 & E). exists h2. split; [exact E|].
  destruct (mm_realloc_moves demo_held [4160] 4 4160 100 4200 h2 demo_held_run)
    as (_ & _ & _ & A & _ & B);
    [apply list_elem_of_here|lia|unfold WORD; lia|exact E|].
  split; [exact A|exact B].
Defined.

(** ** [extend_heap] *)

(** [extend_heap] on a well-formed heap, for a byte count that is a
    multiple of 8 and at least 32 (as [mm_init] and [mm_malloc] pass it).
    When the provider refuses, the result is [NULL] and the state is
    unchanged.  Otherwise the break moves up by exactly [size]; the result
    is the last block of the heap, free, ending at the new break and
    starting at the old break or, when the former last block was free,
    below it; it is the head of the free list; the allocated blocks keep
    their tags and payloads. *)
Theorem extend_heap_grows (h : heap) (M : gmap Z (Z * Z)) (fl : list Z) (size : Z) :
  heap_inv None None h M fl -> 32 <= size -> size mod 8 = 0 -> size < WORD ->
  let r := extend_heap h (size / WSIZE) in
  (mem_brk h + size > mem_max_addr h -> r = (NULL, h))
  /\ (mem_brk h + size <= mem_max_addr h ->
      fst r <> NULL /\ fst r <= mem_brk h
      /\ mem_brk (snd r) = mem_brk h + size
      /\ GET_ALLOC (snd r) (HDRP (fst r)) = 0
      /\ fst r + GET_SIZE (snd r) (HDRP (fst r)) = mem_brk (snd r)
      /\ free_listp (snd r) = fst r
      /\ heap_ok (snd r)
      /\ (forall q sq, M !! q = Some (sq, 1) ->
            GET_ALLOC (snd r) (HDRP q) = 1 /\ GET_SIZE (snd r) (HDRP q) = sq
            /\ payload_eq h (snd r) q sq)).
Proof.
  intros I Hs Hm HW r. split.
  { intros Hgt. unfold r. apply extend_heap_fail; [exact Hm|lia|exact Hgt]. }
  intros Hmax. pose proof (inv_geom _ _ _ _ _ I) as G.
  destruct (extend_heap_allocs h M fl size I Hs Hm Hmax)
    as (M2 & fl2 & t2 & I2 & _ & _ & HA & HP). fold r in I2, HP.
  pose proof (extend_heap_eq h M fl size I Hs Hm Hmax) as Eq. fold r in Eq.
  pose proof (extend_prefix h M fl size I Hs Hm Hmax) as I1.
  set (h3 := PUT (PUT (PUT (set_brk h (mem_brk h + size)) (mem_brk h - 4) size)
                (mem_brk h + size - 8) size) (mem_brk h + size - 4) 1) in *.
  set (M1 := <[mem_brk h := (size, 0)]> M) in *.
  assert (Hb1 : M1 !! mem_brk h = Some (size, 0)) by (unfold M1; lk).
  pose proof (inv_geom _ _ _ _ _ I1) as G1.
  destruct (free_pred_cases _ _ _ _ _ G1 Hb1) as [P HP1].
  assert (HN : free_next h3 M1 (mem_brk h) size None) by (left; reflexivity).
  destruct (coalesce_spec _ _ _ _ _ _ _ I1 Hb1 HP1 HN) as (Er & rest & I' & _ & _ & Efl).
  rewrite <- Eq in Er, I', Efl.
  pose proof (merge_table_lookup M1 (mem_brk h) size P None) as L.
  destruct (merge_table_covers h3 _ _ _ _ _ P None G1 Hb1 HP1 HN) as (C1 & _ & _).
  set (b := fst (fst (merge_table M1 (mem_brk h) size P None))) in *.
  set (total := snd (fst (merge_table M1 (mem_brk h) size P None))) in *.
  assert (Hr : snd (merge_table M1 (mem_brk h) size P None) !! b = Some (total, 0)).
  { rewrite L. destruct P as [[pp sp]|]; [reflexivity|exact Hb1]. }
  assert (Hend : b + total = mem_brk h + size).
  { unfold b, total. destruct P as [[pp sp]|]; cbn [merge_table fst snd]; [|reflexivity].
    destruct HP1 as [_ Epp]. lia. }
  rewrite Er in *.
  destruct (heap_inv_block_tags _ _ _ _ _ _ _ _ I' Hr) as [ES EA].
  pose proof (inv_bounds (heap_inv_tags _ _ _ _ _ I') _ _ _ Hr) as Bb.
  assert (Ebrk : mem_brk (snd r) = mem_brk h + size).
  { rewrite Eq. rewrite coalesce_brk. reflexivity. }
  split; [unfold NULL; lia|]. split; [exact C1|]. split; [exact Ebrk|].
  split; [exact EA|]. split; [rewrite ES, Ebrk; exact Hend|]. split; [exact Efl|].
  split; [eexists _, _; exact I'|].
  intros q sq Hq. assert (Hq2 : M2 !! q = Some (sq, 1)) by (apply HA; exact Hq).
  destruct (heap_inv_block_tags _ _ _ _ _ _ _ _ I2 Hq2) as [ESq EAq].
  split; [exact EAq|]. split; [exact ESq|exact (HP q sq Hq)].
Qed.

Lemma extend_heap_grows_witness :
  fst (extend_heap demo_init (40 / WSIZE)) <> NULL
  /\ mem_brk (snd (extend_heap demo_init (40 / WSIZE))) = mem_brk demo_init + 40.
Proof.
  pose proof (extend_heap_grows demo_init _ [4160] 40 demo_init_inv) as H.
  destruct H as [_ H]; [lia|reflexivity|unfold WORD; lia|].
  destruct H as (A & _ & B & _); [vm_compute; discriminate|].
  split; [exact A|exact B].
Defined.

(** ** [place] without a split *)

(** When the block is less than [OVERHEAD] bytes larger than [asize],
    [place] does not split it: the whole block becomes allocated, it is
    taken out of the free list, whose other nodes stay, and the heap is
    well formed. *)
Theorem place_takes_whole_block (ex : option Z) (h : heap) (M : gmap Z (Z * Z))
    (fl : list Z) (bp c asize : Z) :
  heap_inv ex None h M fl -> ex = None \/ ex = Some bp ->
  M !! bp = Some (c, 0) ->
  0 <= asize <= c -> c - asize < OVERHEAD ->
  let h' := place h bp asize in
  GET_SIZE h' (HDRP bp) = c /\ GET_ALLOC h' (HDRP bp) = 1
  /\ heap_ok h'
  /\ exists rest,
       free_chain h' (free_listp h') rest
       /\ forall y, y ∈ rest <-> y ∈ fl /\ y <> bp.
Proof.
  intros I Hex Hb Ha Hc h'. unfold OVERHEAD in Hc.
  destruct (place_nosplit I Hex Hb asize Ha Hc) as (rest & I' & Hrest & _).
  fold h' in I'.
  assert (Hb' : <[bp := (c, 1)]> M !! bp = Some (c, 1)) by lk.
  destruct (heap_inv_block_tags _ _ _ _ _ _ _ _ I' Hb') as [ES EA].
  split; [exact ES|]. split; [exact EA|]. split; [eexists _, _; exact I'|].
  exists rest. split; [exact (heap_inv_free_chain _ _ _ _ _ I')|exact Hrest].
Qed.

Lemma place_takes_whole_block_witness :
  GET_SIZE (place demo_init 4160 32) (HDRP 4160) = 32
  /\ GET_ALLOC (place demo_init 4160 32) (HDRP 4160) = 1.
Proof.
  pose proof (place_takes_whole_block None demo_init _ [4160] 4160 32 32
                demo_init_inv (or_introl eq_refl)) as H.
  destruct H as (A & B & _); [reflexivity|lia|unfold OVERHEAD; lia|].
  split; [exact A|exact B].
Defined.

(** ** The blocks tile the heap *)

Lemma heap_blocks_size h M : heap_tags h M ->
  forall fuel bp s a, M !! bp = Some (s, a) ->
  mem_brk h - bp <= 32 * Z.of_nat fuel ->
  blocks_size (heap_blocks fuel h bp) = mem_brk h - bp.
Proof.
  intros T. pose proof (ht_geom _ _ T) as G.
  induction fuel as [|fuel IH]; intros bp s a Hb Hf.
  - pose proof (g_block _ _ _ G _ _ _ Hb). lia.
  - rewrite (heap_blocks_step fuel h M bp s a T Hb).
    pose proof (g_block _ _ _ G _ _ _ Hb) as B.
    cbn [blocks_size foldr fst snd]. fold (blocks_size (heap_blocks fuel h (bp + s))).
    destruct (g_succ _ _ _ G _ _ _ Hb) as [E|[[s' a'] Hn]].
    + rewrite E, (heap_blocks_end fuel h M T). cbn [blocks_size foldr]. lia.
    + rewrite (IH _ _ _ Hn) by lia. lia.
Qed.

(** In every state of a run the block list tiles the heap: scanned with
    enough fuel, the blocks from the first one on take up exactly the
    bytes up to the break, one after the other; each has at least
    [OVERHEAD] bytes, a multiple of 8. *)
Theorem run_heap_tiles (h : heap) (live : list Z) (fuel : nat) :
  run h live ->
  mem_brk h - first_block h <= 32 * Z.of_nat fuel ->
  blocks_size (heap_blocks fuel h (first_block h)) = mem_brk h - first_block h
  /\ Forall (fun x => OVERHEAD <= x.1.2 /\ x.1.2 mod 8 = 0
                      /\ first_block h <= x.1.1 /\ x.1.1 + x.1.2 <= mem_brk h
                      /\ NEXT_BLKP h x.1.1 = x.1.1 + x.1.2)
            (heap_blocks fuel h (first_block h)).
Proof.
  intros R Hf. destruct (run_inv h live R) as (M & fl & I & _).
  pose proof (heap_inv_tags _ _ _ _ _ I) as T.
  destruct (g_first _ _ _ (inv_geom _ _ _ _ _ I)) as [[s a] H1].
  change (mem_start_brk h + 64) with (first_block h) in H1.
  split; [exact (heap_blocks_size h M T fuel _ _ _ H1 Hf)|].
  pose proof (heap_blocks_sound h M T fuel _ _ _ H1) as HS.
  rewrite Forall_forall in *. intros [[b sb] ab] Hx. specialize (HS _ Hx).
  cbn [fst snd] in *.
  pose proof (inv_bounds T _ _ _ HS) as B.
  destruct (inv_block_read T _ _ _ HS) as (_ & _ & _ & EN & _).
  unfold first_block, OVERHEAD. repeat split; first [lia|exact EN].
Qed.

Lemma run_heap_tiles_witness :
  blocks_size (heap_blocks 4 demo_held (first_block demo_held))
  = mem_brk demo_held - first_block demo_held.
Proof.
  apply (run_heap_tiles demo_held [4160] 4 demo_held_run).
  vm_compute. discriminate.
Defined.

(** ** The free list and the free blocks *)

(** In every state of a run the nodes of the free list are exactly the
    free blocks of the heap, each of them once. *)
Theorem run_free_list_exact (h : heap) (live fl : list Z) :
  run h live -> free_chain h (free_listp h) fl ->
  NoDup fl
  /\ forall b, b ∈ fl <->
       exists fuel s, (b, s, 0) ∈ heap_blocks fuel h (first_block h).
Proof.
  intros R Hch. destruct (run_inv h live R) as (M & fl0 & I & _).
  assert (Efl : fl = fl0)
    by exact (free_chain_unique _ _ _ _ Hch (heap_inv_free_chain _ _ _ _ _ I)).
  subst fl0. pose proof (heap_inv_tags _ _ _ _ _ I) as T.
  destruct (g_first _ _ _ (inv_geom _ _ _ _ _ I)) as [[s0 a0] H1].
  change (mem_start_brk h + 64) with (first_block h) in H1.
  split; [exact (inv_nodup _ _ _ _ _ I)|].
  intros b. split.
  - intros Hb. destruct (inv_fl_block I b Hb) as [s Hs].
    destruct (scan_fuel h) as [fuel Hfuel]. exists fuel, s.
    apply (heap_blocks_complete h M T fuel _ _ _ H1 Hfuel _ _ _ Hs).
    pose proof (inv_bounds T _ _ _ Hs). unfold first_block, OVERHEAD. lia.
  - intros (fuel & s & Hin).
    pose proof (heap_blocks_sound h M T fuel _ _ _ H1) as HS.
    rewrite Forall_forall in HS. specialize (HS _ Hin). cbn [fst snd] in HS.
    apply (inv_fl _ _ _ _ _ I). split; [eauto|discriminate].
Qed.

Lemma demo_held_chain : exists fl, free_chain demo_held (free_listp demo_held) fl.
Proof.
  destruct (run_inv demo_held [4160] demo_held_run) as (M & fl & I & _).
  exists fl. exact (heap_inv_free_chain _ _ _ _ _ I).
Qed.

Lemma run_free_list_exact_witness :
  exists fl, free_chain demo_held (free_listp demo_held) fl /\ NoDup fl.
Proof.
  destruct demo_held_chain as [fl C]. exists fl. split; [exact C|].
  exact (proj1 (run_free_list_exact demo_held [4160] fl demo_held_run C)).
Defined.

(** ** The blocks a client holds *)

(** In every state of a run the pointers the client holds are distinct;
    each is aligned and points at an allocated block inside the heap, and
    the blocks of two held pointers do not overlap. *)
Theorem run_live_blocks (h : heap) (live : list Z) :
  run h live ->
  NoDup live
  /\ forall p, p ∈ live ->
       p mod 8 = 0 /\ GET_ALLOC h (HDRP p) = 1
       /\ first_block h <= p /\ p + GET_SIZE h (HDRP p) <= mem_brk h
       /\ forall q, q ∈ live -> q <> p ->
            p + GET_SIZE h (HDRP p) <= q \/ q + GET_SIZE h (HDRP q) <= p.
Proof.
  intros R. destruct (run_inv h live R) as (M & fl & I & ND & HL).
  pose proof (heap_inv_tags _ _ _ _ _ I) as T.
  split; [exact ND|]. intros p Hp. destruct (proj1 (HL p) Hp) as [s Hs].
  destruct (heap_inv_block_tags _ _ _ _ _ _ _ _ I Hs) as [ES EA].
  pose proof (inv_bounds T _ _ _ Hs) as B. rewrite ES.
  split; [lia|]. split; [exact EA|]. unfold first_block, OVERHEAD.
  split; [lia|]. split; [lia|].
  intros q Hq Hne. destruct (proj1 (HL q) Hq) as [sq Hsq].
  destruct (heap_inv_block_tags _ _ _ _ _ _ _ _ I Hsq) as [ESq _]. rewrite ESq.
  destruct (g_disj _ _ _ (inv_geom _ _ _ _ _ I) _ _ _ _ _ _ Hs Hsq) as [E|D];
    [congruence|exact D].
Qed.

Lemma run_live_blocks_witness : NoDup [4160].
Proof. exact (proj1 (run_live_blocks demo_held [4160] demo_held_run)). Defined.

(** ** [mm_checkheap] *)

(** The second test of [check_block] compares [PREV_FREE(bp)] with
    [mem_heap_lo()], and the head of the free list has [NULL] there: in
    every state of a run in which the free list is not empty,
    [mm_checkheap] returns 0, although the heap is well formed. *)
Theorem mm_checkheap_rejects (h : heap) (live : list Z) (fuel : nat) :
  run h live -> GET_ALLOC h (HDRP (free_listp h)) = 0 ->
  check_block h (free_listp h) = 0
  /\ mm_checkheap (S fuel) h = Some 0.
Proof.
  intros R Hfree. destruct (run_inv h live R) as (M & fl & I & _).
  destruct (sentinel_allocated _ _ _ _ _ I) as [_ ES].
  pose proof (inv_dll _ _ _ _ _ I) as D.
  assert (Hprev : PREV_FREE h (free_listp h) = NULL).
  { destruct fl as [|x fl]; cbn [dll] in D.
    - rewrite D in Hfree. rewrite ES in Hfree. discriminate.
    - destruct D as (-> & Hp & _). exact Hp. }
  assert (Ec : check_block h (free_listp h) = 0).
  { unfold check_block.
    destruct ((NEXT_FREE h (free_listp h) <? mem_heap_lo h)
              || (NEXT_FREE h (free_listp h) >? mem_heap_hi h)); [reflexivity|].
    rewrite Hprev. unfold mem_heap_lo, NULL.
    pose proof (inv_lo _ _ _ _ _ I) as Hlo.
    destruct (Z.ltb_spec 0 (mem_start_brk h)) as [_|?]; [|lia]. reflexivity. }
  split; [exact Ec|]. unfold mm_checkheap.
  destruct (negb (GET_SIZE h (HDRP (heap_listp h)) =? OVERHEAD)
            || (GET_ALLOC h (HDRP (heap_listp h)) =? 0)); [reflexivity|].
  destruct (check_block h (heap_listp h) =? 0); [reflexivity|].
  cbn [checkheap_from]. rewrite Hfree, Ec. reflexivity.
Qed.

Lemma mm_checkheap_rejects_witness :
  check_block demo_init (free_listp demo_init) = 0
  /\ mm_checkheap 1 demo_init = Some 0.
Proof.
  apply (mm_checkheap_rejects demo_init [] 0 demo_init_run).
  vm_compute. reflexivity.
Defined.

(** ** Instances on [demo_arena] *)

Lemma run_heap_scan_witness :
  adjacent_free (heap_blocks 4 demo_held (first_block demo_held)) = false.
Proof. exact (proj2 (run_heap_scan demo_held [4160] 4 demo_held_run)). Defined.

Lemma run_free_list_witness :
  exists fl,
    free_chain demo_held (free_listp demo_held) fl
    /\ GET_ALLOC demo_held (HDRP (sentinel demo_held)) = 1.
Proof.
  destruct (run_free_list demo_held [4160] demo_held_run)
    as (fl & A & _ & _ & _ & B & _).
  exists fl. split; [exact A|exact B].
Defined.

Lemma run_malloc_result_witness :
  4160 mod 8 = 0 /\ GET_ALLOC demo_held (HDRP 4160) = 1.
Proof.
  destruct (run_malloc_result demo_init [] 2 1 4160 demo_held demo_init_run)
    as (A & _ & B & _);
    [lia|unfold WORD; lia|exact demo_held_eq|unfold NULL; lia|].
  split; [exact A|exact B].
Defined.

Lemma run_realloc_result_witness :
  exists h2,
    mm_realloc 4 demo_held 4160 100 = Returns 4200 h2
    /\ forall i, 0 <= i < GET_SIZE demo_held (HDRP 4160) - DSIZE -> i < 100 ->
         load8 (mem h2) (4200 + i) = load8 (mem demo_held) (4160 + i).
Proof.
  destruct demo_realloc_eq as (h2 & E). exists h2. split; [exact E|].
  destruct (run_realloc_result demo_held [4160] 4 4160 100 4200 h2 demo_held_run)
    as (_ & A & _);
    [apply list_elem_of_here|lia|unfold WORD; lia|exact E|exact A].
Defined.

(** ** No block is lost *)

(** In every state of a run the allocated blocks of the heap are exactly
    the blocks the client holds: with [run_free_list_exact], every block
    is either held by the client or a node of the free list. *)
Theorem run_allocated_are_held (h : heap) (live : list Z) :
  run h live ->
  forall b, b ∈ live <->
    exists fuel s, (b, s, 1) ∈ heap_blocks fuel h (first_block h).
Proof.
  intros R. destruct (run_inv h live R) as (M & fl & I & _ & HL).
  pose proof (heap_inv_tags _ _ _ _ _ I) as T.
  destruct (g_first _ _ _ (inv_geom _ _ _ _ _ I)) as [[s0 a0] H1].
  change (mem_start_brk h + 64) with (first_block h) in H1.
  intros b. rewrite HL. split.
  - intros [s Hs]. destruct (scan_fuel h) as [fuel Hfuel]. exists fuel, s.
    apply (heap_blocks_complete h M T fuel _ _ _ H1 Hfuel _ _ _ Hs).
    pose proof (inv_bounds T _ _ _ Hs). unfold first_block, OVERHEAD. lia.
  - intros (fuel & s & Hin).
    pose proof (heap_blocks_sound h M T fuel _ _ _ H1) as HS.
    rewrite Forall_forall in HS. specialize (HS _ Hin). cbn [fst snd] in HS. eauto.
Qed.

Lemma run_allocated_are_held_witness :
  4160 ∈ [4160] <->
  exists fuel s, (4160, s, 1) ∈ heap_blocks fuel demo_held (first_block demo_held).
Proof. exact (run_allocated_are_held demo_held [4160] demo_held_run 4160). Defined.

(** ** When [mm_malloc] fails *)

(** In a state of a run, [mm_malloc] returns [NULL] for a request whose
    adjusted size does not wrap only when memory is exhausted: no free
    block of the heap is large enough, and the provider cannot supply
    [MAX(asize, CHUNKSIZE)] more bytes.  The state is then unchanged. *)
Theorem mm_malloc_fails_only_when_full (h : heap) (live : list Z) (fuel : nat)
    (size : Z) (h' : heap) :
  run h live -> 0 < size -> size + 39 < WORD ->
  mm_malloc fuel h size = Some (NULL, h') ->
  h' = h
  /\ mem_brk h + MAX (adjust size) CHUNKSIZE > mem_max_addr h
  /\ forall fuel' b s,
       (b, s, 0) ∈ heap_blocks fuel' h (first_block h) -> s < adjust size.
Proof.
  intros R H0 H1 Em. destruct (run_inv h live R) as (M & fl & I & _).
  pose proof (heap_inv_tags _ _ _ _ _ I) as T.
  destruct (g_first _ _ _ (inv_geom _ _ _ _ _ I)) as [[s0 a0] Hf1].
  change (mem_start_brk h + 64) with (first_block h) in Hf1.
  assert (Hf : (length fl < fuel + S (length fl))%nat) by lia.
  assert (Hle : (fuel <= fuel + S (length fl))%nat) by lia.
  pose proof (mm_malloc_mono fuel _ _ _ _ Em Hle) as Em'.
  destruct (find_fit_inv _ _ h M fl _ (adjust size) I Hf)
    as (r & Er & [[-> Hno]|[Hin (c & Hc & Hle')]]).
  - rewrite (mm_malloc_miss _ h size H0 Er) in Em'. cbv zeta in Em'.
    destruct (MAX_adjust size) as (X1 & X2 & X3).
    destruct (Z_le_gt_dec (mem_brk h + MAX (adjust size) CHUNKSIZE) (mem_max_addr h))
      as [Hok|Hfail].
    + exfalso.
      destruct (extend_heap_spec h M fl _ I X1 X2 Hok) as (_ & _ & _ & _ & _ & _ & _ & Hnn).
      destruct (Z.eqb_spec (fst (extend_heap h (MAX (adjust size) CHUNKSIZE / WSIZE))) NULL)
        as [E|_]; [contradiction|].
      injection Em' as E _. contradiction.
    + rewrite (extend_heap_fail h _ X2) in Em' by lia. cbn [fst snd] in Em'.
      rewrite Z.eqb_refl in Em'. injection Em' as <-.
      split; [reflexivity|]. split; [exact Hfail|].
      intros fuel' b s Hin.
      pose proof (heap_blocks_sound h M T fuel' _ _ _ Hf1) as HS.
      rewrite Forall_forall in HS. specialize (HS _ Hin). cbn [fst snd] in HS.
      apply (Hno b s); [|exact HS]. apply (inv_fl _ _ _ _ _ I). split; [eauto|discriminate].
  - exfalso. destruct (inv_fl_block I r Hin) as [c0 Hc0].
    pose proof (inv_bounds T _ _ _ Hc0) as B.
    unfold mm_malloc in Em'. destruct (Z.leb_spec size 0); [lia|]. rewrite Er in Em'.
    destruct (Z.eqb_spec r NULL) as [E|Hn]; [unfold NULL in E; lia|]. cbn [negb] in Em'.
    injection Em' as E _. contradiction.
Qed.

Lemma tight_init_run : run (snd (mm_init tight_arena)) [].
Proof. apply (run_init 4096 4200); [lia|reflexivity|unfold WORD; lia]. Qed.

Lemma tight_malloc_eq :
  mm_malloc 2 (snd (mm_init tight_arena)) 1 = Some (NULL, snd (mm_init tight_arena)).
Proof. vm_compute. reflexivity. Qed.

Lemma mm_malloc_fails_only_when_full_witness :
  mem_brk (snd (mm_init tight_arena)) + MAX (adjust 1) CHUNKSIZE
  > mem_max_addr (snd (mm_init tight_arena)).
Proof.
  destruct (mm_malloc_fails_only_when_full (snd (mm_init tight_arena)) [] 2 1
              (snd (mm_init tight_arena)) tight_init_run) as (_ & A & _);
    [lia|unfold WORD; lia|exact tight_malloc_eq|exact A].
Defined.
